(** * xUpload relevance engine: similarity search and rank blending

    A shallow embedding of the ranking path of the xUpload extension:
    [cosine] and [search] (src/vectordb.ts), [tokenize] and [vectorize]
    (src/embeddings.ts, as quoted in the embeddings guide),
    [computePathNameScore], [computeContentOverlap] and [handleMatch]
    (src/background.ts).

    Modelling conventions.
    - A JavaScript [number] is a value of [num]: NaN, a signed infinity or
      an exact rational.  Arithmetic is exact (no rounding, no overflow,
      one unsigned zero); where a property hangs on rounding, the double
      an operation yields is [round_double] of its exact result.  Reading
      an array past its end yields [undefined], which every arithmetic
      operator turns into NaN; such a read is modelled as NaN directly.
    - A JavaScript string is a [string] of 8-bit code units: the texts
      covered are those whose code units lie below 256.  The tokenizer is
      embedded a second time on lists of UTF-16 code units
      ([tokens_of_normalized]), where the CJK patterns match.
    - [Map<string, _>] and [Set<string>] are [gmap string _] and
      [gset string]; the term-frequency map of [vectorize], whose
      iteration order is observable, is an association list in insertion
      order.
    - The records read by [getAll] and [Date.now()] are inputs of the
      functions that perform them; [getAll] returns the records in the
      order of their ids ([key_order]).  The history rows of a host are
      read from the store by [getHistoryByHost]. *)

From Stdlib Require Import QArith Qminmax Qround Qabs Qpower Lqa ZArith Lia.
From Stdlib Require Import List String Ascii Sorted.
From stdpp Require Import gmap strings list.

(** ** JavaScript numbers *)

Inductive num : Type :=
| NaN
| Inf (neg : bool)
| Num (q : Q).

Abbreviation PInf := (Inf false).
Abbreviation NInf := (Inf true).

Module JsNum.

Definition neg (a : num) : num :=
  match a with
  | NaN => NaN
  | Inf s => Inf (negb s)
  | Num q => Num (- q)
  end.

Definition add (a b : num) : num :=
  match a, b with
  | NaN, _ | _, NaN => NaN
  | Inf s, Inf t => if Bool.eqb s t then Inf s else NaN
  | Inf s, Num _ | Num _, Inf s => Inf s
  | Num x, Num y => Num (x + y)
  end.

Definition sub (a b : num) : num := add a (neg b).

(** Sign of an infinity scaled by the rational [y]; [0 * Infinity] is NaN. *)
Definition scale_inf (s : bool) (y : Q) : num :=
  match (y ?= 0)%Q with
  | Eq => NaN
  | Gt => Inf s
  | Lt => Inf (negb s)
  end.

Definition mul (a b : num) : num :=
  match a, b with
  | NaN, _ | _, NaN => NaN
  | Inf s, Inf t => Inf (xorb s t)
  | Inf s, Num y | Num y, Inf s => scale_inf s y
  | Num x, Num y => Num (x * y)
  end.

Definition div (a b : num) : num :=
  match a, b with
  | NaN, _ | _, NaN => NaN
  | Inf _, Inf _ => NaN
  | Inf s, Num y => match (y ?= 0)%Q with Lt => Inf (negb s) | _ => Inf s end
  | Num _, Inf _ => Num 0
  | Num x, Num y =>
      if Qeq_bool y 0
      then match (x ?= 0)%Q with Eq => NaN | Gt => PInf | Lt => NInf end
      else Num (x / y)
  end.

(** Three-way comparison; [None] when an operand is NaN. *)
Definition cmp (a b : num) : option comparison :=
  match a, b with
  | NaN, _ | _, NaN => None
  | Inf s, Inf t =>
      Some (if Bool.eqb s t then Eq else if s then Lt else Gt)
  | Inf s, Num _ => Some (if s then Lt else Gt)
  | Num _, Inf t => Some (if t then Gt else Lt)
  | Num x, Num y => Some (x ?= y)%Q
  end.

(** [a > b], [a < b], [a <= b], [a === b]. *)
Definition gt (a b : num) : bool :=
  match cmp a b with Some Gt => true | _ => false end.
Definition lt (a b : num) : bool :=
  match cmp a b with Some Lt => true | _ => false end.
Definition le (a b : num) : bool :=
  match cmp a b with Some Lt | Some Eq => true | _ => false end.
Definition eq (a b : num) : bool :=
  match cmp a b with Some Eq => true | _ => false end.

Definition is_nan (a : num) : bool :=
  match a with NaN => true | _ => false end.

(** [Math.max(a, b)]. *)
Definition max (a b : num) : num :=
  match cmp a b with
  | None => NaN
  | Some Lt => b
  | Some _ => a
  end.

(** [Math.max(...xs)]; [-Infinity] for no argument. *)
Definition Math_max (xs : list num) : num := fold_left max xs NInf.

(** [x || d] on numbers: 0 and NaN are falsy. *)
Definition or_else (x d : num) : num :=
  match x with
  | NaN => d
  | Num q => if Qeq_bool q 0 then d else x
  | Inf _ => x
  end.

Definition of_nat (n : nat) : num := Num (inject_Z (Z.of_nat n)).
Definition of_Z (z : Z) : num := Num (inject_Z z).

(** Value equality of numbers, up to the representation of a rational. *)
Definition equiv (a b : num) : Prop :=
  match a, b with
  | NaN, NaN => True
  | Inf s, Inf t => s = t
  | Num x, Num y => (x == y)%Q
  | _, _ => False
  end.

End JsNum.

(** The two services the embedded functions take from their environment:
    [Math.sqrt] on a non-negative finite number, and [tokenizeFiltered] of
    embeddings.ts (tokenization followed by the removal of stop words and
    short tokens), whose stop-word list is left open. *)
Class Runtime : Type := {
  Math_sqrt : Q -> Q;
  tokenizeFiltered : string -> list string;
}.

Definition nsqrt `{Runtime} (a : num) : num :=
  match a with
  | NaN => NaN
  | Inf s => if s then NaN else PInf
  | Num q => match (q ?= 0)%Q with Lt => NaN | _ => Num (Math_sqrt q) end
  end.

(** ** JavaScript arrays of numbers *)

(** [a[i]] in an arithmetic context. *)
Definition js_get (a : list num) (i : nat) : num := nth i a NaN.

(** [a[i] = v]: in range the slot is overwritten; past the end the array
    grows and the slots in between are holes. *)
Definition js_set (a : list num) (i : nat) (v : num) : list num :=
  if (i <? length a)%nat
  then <[i := v]> a
  else a ++ repeat NaN (i - length a) ++ [v].

(** [Array.prototype.sort(cmp)]: the comparator returns a number [v];
    NaN counts as 0, [v > 0] puts the second argument first.  The sort is
    stable; it is modelled by stable insertion, which is the result of
    every stable sort when the comparator is consistent.  A comparator
    [(a, b) => key(b) - key(a)] is consistent when no key is NaN, and
    also when every comparison is NaN or 0 (all elements then compare
    equal and keep their order).  With a NaN key among distinct other
    keys the comparator is not consistent, the language leaves the order
    to the implementation, and [js_sort] is one admissible outcome only:
    what is proved of an order is proved for consistent comparators. *)
Section JsSort.
Context {A : Type} (cmp : A -> A -> num).

Fixpoint js_insert (x : A) (l : list A) : list A :=
  match l with
  | [] => [x]
  | y :: l' =>
      if JsNum.gt (cmp x y) (Num 0) then y :: js_insert x l' else x :: l
  end.

Definition js_sort (l : list A) : list A := foldr js_insert [] l.
End JsSort.

(** ** JavaScript strings *)

Module JsString.

Definition code (c : ascii) : N := N_of_ascii c.

Definition between (lo hi : N) (c : ascii) : bool :=
  ((lo <=? code c) && (code c <=? hi))%N.

(** [String.prototype.toLowerCase] on 8-bit code units: A-Z and the
    Latin-1 capitals (all of 0xC0-0xDE but the multiplication sign). *)
Definition lower_char (c : ascii) : ascii :=
  if between 65 90 c || (between 192 222 c && negb (code c =? 215)%N)
  then ascii_of_N (code c + 32)
  else c.

Fixpoint map_chars (f : ascii -> ascii) (s : string) : string :=
  match s with
  | EmptyString => EmptyString
  | String c r => String (f c) (map_chars f r)
  end.

Definition toLowerCase (s : string) : string := map_chars lower_char s.

(** White space removed by [trim]: TAB, LF, VT, FF, CR, SP, NBSP. *)
Definition is_space (c : ascii) : bool :=
  between 9 13 c || (code c =? 32)%N || (code c =? 160)%N.

Fixpoint trimStart (s : string) : string :=
  match s with
  | EmptyString => EmptyString
  | String c r => if is_space c then trimStart r else s
  end.

Fixpoint trimEnd (s : string) : string :=
  match s with
  | EmptyString => EmptyString
  | String c r =>
      match trimEnd r with
      | EmptyString => if is_space c then EmptyString else String c EmptyString
      | r' => String c r'
      end
  end.

Definition trim (s : string) : string := trimEnd (trimStart s).

(** [s.split(sep)] for a one-character separator. *)
Fixpoint split (sep : ascii) (s : string) : list string :=
  match s with
  | EmptyString => [EmptyString]
  | String c r =>
      if Ascii.eqb c sep then EmptyString :: split sep r
      else match split sep r with
           | hd :: tl => String c hd :: tl
           | [] => [String c EmptyString]
           end
  end.

(** [parts.join(sep)]. *)
Definition join (sep : string) (parts : list string) : string :=
  String.concat sep parts.

Definition startsWith (s p : string) : bool := String.prefix p s.

Definition endsWith (s suf : string) : bool :=
  (String.length suf <=? String.length s)%nat
  && String.eqb
       (substring (String.length s - String.length suf) (String.length suf) s)
       suf.

Definition drop (n : nat) (s : string) : string :=
  substring n (String.length s - n) s.

(** [s.replace(pat, rep)] with a string pattern: first occurrence only. *)
Fixpoint replace (pat rep s : string) : string :=
  match s with
  | EmptyString => if String.prefix pat EmptyString then rep else EmptyString
  | String c r =>
      if String.prefix pat s
      then String.append rep (drop (String.length pat) s)
      else String c (replace pat rep r)
  end.

(** A non-empty string is truthy. *)
Definition truthy (s : string) : bool :=
  match s with EmptyString => false | _ => true end.

End JsString.

(** ** Tokenizer (embeddings.ts) *)

Definition is_word_char (c : ascii) : bool :=
  JsString.between 97 122 c || JsString.between 48 57 c.

(** The CJK ranges U+4E00-U+9FFF and U+3400-U+4DBF; no 8-bit code unit
    lies in them. *)
Definition is_cjk (c : ascii) : bool :=
  JsString.between 19968 40959 c || JsString.between 13312 19903 c.

(** All matches of [/[a-z0-9]+/g]: the maximal runs of word characters. *)
Fixpoint word_runs (s : string) : list string :=
  match s with
  | EmptyString => []
  | String c r =>
      if is_word_char c then
        match r with
        | String c' _ =>
            if is_word_char c' then
              match word_runs r with
              | w :: ws => String c w :: ws
              | [] => [String c EmptyString]
              end
            else String c EmptyString :: word_runs r
        | EmptyString => [String c EmptyString]
        end
      else word_runs r
  end.

(** All matches of the one-character CJK pattern, in order. *)
Fixpoint cjk_chars (s : string) : list string :=
  match s with
  | EmptyString => []
  | String c r =>
      if is_cjk c then String c EmptyString :: cjk_chars r else cjk_chars r
  end.

(** [cjk[i] + cjk[i + 1]] for [i < cjk.length - 1]. *)
Fixpoint bigrams (cjk : list string) : list string :=
  match cjk with
  | a :: (b :: _) as rest => String.append a b :: bigrams rest
  | _ => []
  end.

(** On a text of 8-bit code units no character is CJK, so that the
    tokens are the word matches. *)
Definition tokenize (text : string) : list string :=
  let normalized := JsString.trim (JsString.toLowerCase text) in
  let words := word_runs normalized in
  let cjk := cjk_chars normalized in
  words ++ cjk ++ bigrams cjk.

(** ** Vectorizer (embeddings.ts) *)

(** The module state of embeddings.ts: [vocabulary] maps a term to its
    index, [idfValues] a term to its IDF. *)
Record Vocab : Type := {
  vocabulary : gmap string nat;
  idfValues : gmap string num;
}.

(** [tf.set(t, (tf.get(t) || 0) + 1)] on a map kept in insertion order. *)
Fixpoint tf_bump (t : string) (tf : list (string * nat)) : list (string * nat) :=
  match tf with
  | [] => [(t, 1%nat)]
  | (k, c) :: rest =>
      if String.eqb k t then (k, S c) :: rest else (k, c) :: tf_bump t rest
  end.

Definition term_frequency (tokens : list string) : list (string * nat) :=
  fold_left (fun tf t => tf_bump t tf) tokens [].

Section Vectorize.
Context `{Runtime}.

Definition vectorize (V : Vocab) (tokens : list string) : list num :=
  let dim := size (vocabulary V) in
  if (dim =? 0)%nat then []
  else
    let vec := repeat (Num 0) dim in
    let tf := term_frequency tokens in
    let maxTf := JsNum.Math_max (map (fun e => JsNum.of_nat (snd e)) tf ++ [Num 1]) in
    let vec :=
      fold_left
        (fun vec (e : string * nat) =>
           match vocabulary V !! fst e with
           | Some idx =>
               js_set vec idx
                 (JsNum.mul (JsNum.div (JsNum.of_nat (snd e)) maxTf)
                    (JsNum.or_else (default NaN (idfValues V !! fst e)) (Num 1)))
           | None => vec
           end)
        tf vec in
    let norm :=
      nsqrt (fold_left (fun norm v => JsNum.add norm (JsNum.mul v v)) vec (Num 0)) in
    if JsNum.gt norm (Num 0)
    then map (fun v => JsNum.div v norm) vec
    else vec.
End Vectorize.

(** ** Vector store and similarity search (vectordb.ts) *)

Record VectorRecord : Type := {
  id : string;
  name : string;
  path : string;
  type : string;
  size_bytes : Z;
  lastModified : Z;
  vector : list num;
  denseVector : option (list num);
  textPreview : string;
}.

Record SearchResult : Type := {
  record : VectorRecord;
  score : num;
}.

(** The comparator [(a, b) => b.score - a.score]. *)
Definition by_score_desc (a b : SearchResult) : num :=
  JsNum.sub (score b) (score a).

Section Search.
Context `{Runtime}.

(** One iteration of the loop of [cosine] on [(dot, normA, normB)]. *)
Definition cosine_step (a b : list num) (st : num * num * num) (i : nat)
  : num * num * num :=
  let '(dot, normA, normB) := st in
  (JsNum.add dot (JsNum.mul (js_get a i) (js_get b i)),
   JsNum.add normA (JsNum.mul (js_get a i) (js_get a i)),
   JsNum.add normB (JsNum.mul (js_get b i) (js_get b i))).

Definition cosine (a b : list num) : num :=
  let '(dot, normA, normB) :=
    fold_left (cosine_step a b) (seq 0 (length a)) (Num 0, Num 0, Num 0) in
  if JsNum.eq normA (Num 0) || JsNum.eq normB (Num 0) then Num 0
  else JsNum.div dot (JsNum.mul (nsqrt normA) (nsqrt normB)).

(** [acceptFilter.split(",").map((s) => s.trim().toLowerCase())]. *)
Definition parse_accept (acceptFilter : string) : list string :=
  map (fun s => JsString.toLowerCase (JsString.trim s))
      (JsString.split "," acceptFilter).

(** The predicate of [all.filter(...)] in [search]. *)
Definition accept_matches (accepts : list string) (r : VectorRecord) : bool :=
  let ext :=
    String.append "."
      (JsString.toLowerCase (List.last (JsString.split "." (name r)) EmptyString)) in
  let mime := JsString.toLowerCase (type r) in
  existsb
    (fun a =>
       String.eqb a ext
       || String.eqb a mime
       || (JsString.endsWith a "/*"
           && JsString.startsWith mime (JsString.replace "/*" "/" a)))
    accepts.

(** The candidate set of [search]: the records passing the accept
    filter, or all of them when the filter is absent, empty or passes
    none. *)
Definition candidates_of (acceptFilter : option string) (all : list VectorRecord)
  : list VectorRecord :=
  match acceptFilter with
  | Some af =>
      if JsString.truthy af then
        let accepts := parse_accept af in
        let filtered := List.filter (accept_matches accepts) all in
        if (0 <? length filtered)%nat then filtered else all
      else all
  | None => all
  end.

Definition scored (queryVector : list num) (r : VectorRecord) : SearchResult :=
  {| record := r; score := cosine queryVector (vector r) |}.

(** [search(queryVector, topN, acceptFilter)] over the records [all]
    returned by [getAll()]. *)
Definition search (queryVector : list num) (topN : nat)
    (acceptFilter : option string) (all : list VectorRecord)
  : list SearchResult :=
  List.filter (fun r => JsNum.gt (score r) (Num 0))
    (firstn topN
       (js_sort by_score_desc
          (map (scored queryVector) (candidates_of acceptFilter all)))).
End Search.

(** ** Multi-level recommendation (background.ts) *)

Record MatchRequest : Type := {
  context : string;
  accept : option string;
}.

Record UploadHistoryEntry : Type := {
  fileId : string;
  fileName : string;
  fileType : string;
  websiteHost : string;
  pageTitle : string;
  uploadContext : string;
  timestamp : Z;
}.

Record MatchResultItem : Type := {
  item_id : string;
  item_name : string;
  item_path : string;
  item_type : string;
  item_score : num;
  item_historyCount : nat;
}.

(** The weight object literal: [tfidf], [history], [path], [content],
    [pathMemory]. *)
Record Weights : Type := {
  w_tfidf : Q;
  w_history : Q;
  w_path : Q;
  w_content : Q;
  w_pathMemory : Q;
}.

Definition weights (tfidfUseful hasHistory : bool) : Weights :=
  if tfidfUseful then
    if hasHistory
    then {| w_tfidf := 0.42; w_history := 0.28; w_path := 0.14;
            w_content := 0.08; w_pathMemory := 0.08 |}
    else {| w_tfidf := 0.56; w_history := 0.00; w_path := 0.22;
            w_content := 0.14; w_pathMemory := 0.08 |}
  else
    if hasHistory
    then {| w_tfidf := 0.00; w_history := 0.36; w_path := 0.30;
            w_content := 0.20; w_pathMemory := 0.14 |}
    else {| w_tfidf := 0.00; w_history := 0.00; w_path := 0.44;
            w_content := 0.42; w_pathMemory := 0.14 |}.

(** The folder of a path: [parts.slice(0, -1).join("/")] when
    [parts = p.split("/")] has more than one element, the empty string
    otherwise. *)
Definition folderOf (p : string) : string :=
  let parts := JsString.split "/" p in
  if (1 <? length parts)%nat then JsString.join "/" (removelast parts)
  else EmptyString.

(** The map [folderFreq] after the first loop over [history]. *)
Definition folderFreq (history : list UploadHistoryEntry) : gmap string nat :=
  fold_left
    (fun m h =>
       let folder := folderOf (fileId h) in
       <[folder := (default 0 (m !! folder) + 1)%nat]> m)
    history ∅.

(** [[...folderFreq.values()].reduce((a, b) => a + b, 0)]. *)
Definition totalFolderUploads (history : list UploadHistoryEntry) : nat :=
  fold_left Nat.add (map snd (map_to_list (folderFreq history))) 0%nat.

(** The map [historyMap]: per file id, its [count] and [lastTs]. *)
Definition historyMap (history : list UploadHistoryEntry) : gmap string (nat * Z) :=
  fold_left
    (fun m h =>
       match m !! fileId h with
       | None => <[fileId h := (1%nat, timestamp h)]> m
       | Some (count, lastTs) =>
           <[fileId h := (S count, Z.max lastTs (timestamp h))]> m
       end)
    history ∅.

Definition ONE_DAY : Z := 24 * 60 * 60 * 1000.

(** [Math.max(0.1, 1.0 - daysAgo / 90)] for an entry last seen at [lastTs]. *)
Definition decayedBoost (now lastTs : Z) : num :=
  let daysAgo :=
    JsNum.div (JsNum.sub (JsNum.of_Z now) (JsNum.of_Z lastTs)) (JsNum.of_Z ONE_DAY) in
  JsNum.max (Num 0.1) (JsNum.sub (Num 1.0) (JsNum.div daysAgo (Num 90))).

(** [historyBoost] of the candidate with id [rid]. *)
Definition historyBoost (history : list UploadHistoryEntry) (now : Z) (rid : string)
  : num :=
  match historyMap history !! rid with
  | Some (_, lastTs) => decayedBoost now lastTs
  | None => Num 0
  end.

(** [historyCount] of the candidate with id [rid]. *)
Definition historyCountOf (history : list UploadHistoryEntry) (rid : string) : nat :=
  match historyMap history !! rid with
  | Some (count, _) => count
  | None => 0%nat
  end.

(** [folderBoost] of a candidate whose folder is [candidateFolder], as
    the exact quotient; [folderBoostDouble] is the double. *)
Definition folderBoostOf (history : list UploadHistoryEntry) (candidateFolder : string)
  : num :=
  if (0 <? totalFolderUploads history)%nat
  then JsNum.div (JsNum.of_nat (default 0%nat (folderFreq history !! candidateFolder)))
                 (JsNum.of_nat (totalFolderUploads history))
  else Num 0.

Definition folderBoost (history : list UploadHistoryEntry) (candidatePath : string)
  : num :=
  folderBoostOf history (folderOf candidatePath).

(** [filePath.replace(/[/\\._-]/g, " ")]. *)
Definition is_path_separator (c : ascii) : bool :=
  Ascii.eqb c "/" || Ascii.eqb c "\" || Ascii.eqb c "." || Ascii.eqb c "_"
  || Ascii.eqb c "-".

Definition spaced_path (filePath : string) : string :=
  JsString.map_chars (fun c => if is_path_separator c then " "%char else c) filePath.

(** The counting loop [for (const t of xs) if (ys.has(t)) matches++]. *)
Definition count_matches (xs ys : gset string) : nat :=
  length (List.filter (fun t => bool_decide (t ∈ ys)) (elements xs)).

(** A candidate after blending: the spread record, its final score and
    its history count. *)
Record Ranked : Type := {
  ranked_record : VectorRecord;
  finalScore : num;
  historyCount : nat;
}.

(** The comparator [(a, b) => b.score - a.score] on blended candidates. *)
Definition by_final_desc (a b : Ranked) : num :=
  JsNum.sub (finalScore b) (finalScore a).

Section Recommendation.
Context `{Runtime}.

Definition computePathNameScore (filePath context : string) : num :=
  let pathTokens : gset string :=
    list_to_set (tokenizeFiltered (spaced_path filePath)) in
  let contextTokens : gset string := list_to_set (tokenizeFiltered context) in
  if (size pathTokens =? 0)%nat || (size contextTokens =? 0)%nat then Num 0
  else
    let matches := count_matches pathTokens contextTokens in
    let minSize := Nat.min (size pathTokens) (size contextTokens) in
    JsNum.div (JsNum.of_nat matches) (JsNum.of_nat minSize).

Definition computeContentOverlap (textPreview context : string) : num :=
  let fileTokens : gset string := list_to_set (tokenizeFiltered textPreview) in
  let contextTokens : gset string := list_to_set (tokenizeFiltered context) in
  if (size fileTokens =? 0)%nat || (size contextTokens =? 0)%nat then Num 0
  else
    let matches := count_matches contextTokens fileTokens in
    let minSize := Nat.min (size fileTokens) (size contextTokens) in
    JsNum.div (JsNum.of_nat matches) (JsNum.of_nat minSize).

(** The body of [allRecords.map((r) => ...)]. *)
Definition blend (tfidfUseful : bool) (history : list UploadHistoryEntry)
    (now : Z) (context : string) (r : SearchResult) : Ranked :=
  let tfidfScore := score r in
  let hBoost := historyBoost history now (id (record r)) in
  let hCount := historyCountOf history (id (record r)) in
  let pathNameScore := computePathNameScore (path (record r)) context in
  let contentOverlap := computeContentOverlap (textPreview (record r)) context in
  let fBoost := folderBoost history (path (record r)) in
  let hasHistory := JsNum.gt hBoost (Num 0) in
  let w := weights tfidfUseful hasHistory in
  let final :=
    JsNum.add
      (JsNum.add
         (JsNum.add
            (JsNum.add (JsNum.mul tfidfScore (Num (w_tfidf w)))
                       (JsNum.mul hBoost (Num (w_history w))))
            (JsNum.mul pathNameScore (Num (w_path w))))
         (JsNum.mul contentOverlap (Num (w_content w))))
      (JsNum.mul fBoost (Num (w_pathMemory w))) in
  {| ranked_record := record r; finalScore := final; historyCount := hCount |}.

(** [search(queryVec, 15, req.accept)], or no result for an empty query
    vector. *)
Definition tfidfResults (V : Vocab) (all : list VectorRecord) (req : MatchRequest)
  : list SearchResult :=
  let queryVec := vectorize V (tokenize (context req)) in
  if (0 <? length queryVec)%nat then search queryVec 15 (accept req) all else [].

Definition maxTfidf (results : list SearchResult) : num :=
  if (0 <? length results)%nat then JsNum.Math_max (map score results) else Num 0.

Definition tfidfUseful (results : list SearchResult) : bool :=
  JsNum.gt (maxTfidf results) (Num 0.05).

(** [all.map((record) => ({ record, score: 0 }))]. *)
Definition fallback_records (all : list VectorRecord) : list SearchResult :=
  map (fun r => {| record := r; score := Num 0 |}) all.

(** The candidates that are blended: the search results, or every
    stored record with score 0 when the TF-IDF signal is not useful. *)
Definition allRecords (V : Vocab) (all : list VectorRecord) (req : MatchRequest)
  : list SearchResult :=
  let results := tfidfResults V all req in
  if tfidfUseful results then results else fallback_records all.

(** [ranked.sort(...)] followed by [ranked.slice(0, 5).filter(...)]. *)
Definition top_ranked (ranked : list Ranked) : list Ranked :=
  List.filter (fun r => JsNum.gt (finalScore r) (Num 0))
    (firstn 5 (js_sort by_final_desc ranked)).

Definition to_item (r : Ranked) : MatchResultItem :=
  {| item_id := id (ranked_record r);
     item_name := name (ranked_record r);
     item_path := path (ranked_record r);
     item_type := type (ranked_record r);
     item_score := finalScore r;
     item_historyCount := historyCount r |}.

(** [handleMatch(req)], given the vocabulary [V] in force, the records
    [all] of [getAll()], the rows [history] of
    [getHistoryByHost(pageHost)] (none without a page host) and the
    clock reading [now]. *)
Definition handleMatch (V : Vocab) (all : list VectorRecord)
    (history : list UploadHistoryEntry) (now : Z) (req : MatchRequest)
  : list MatchResultItem :=
  let useful := tfidfUseful (tfidfResults V all req) in
  let ranked := map (blend useful history now (context req)) (allRecords V all req) in
  map to_item (top_ranked ranked).
End Recommendation.

(** ** IEEE 754 doubles

    The numbers of the ranking are exact rationals.  Where a property
    hangs on the rounding of an operation on doubles, the double that the
    operation yields is [round_double] of its exact result: the
    operations of IEEE 754 are correctly rounded, to nearest, ties to
    even. *)

(** The integer nearest to [x], the even one of two at equal distance. *)
Definition round_half_even (x : Q) : Z :=
  let f := Qfloor x in
  match Qcompare (x - inject_Z f) (1 # 2) with
  | Lt => f
  | Gt => (f + 1)%Z
  | Eq => if Z.even f then f else (f + 1)%Z
  end.

(** The exponent [e] with [2^e <= q < 2^(e+1)], for a positive [q]. *)
Definition binade (q : Q) : Z :=
  let e0 := (Z.log2 (Qnum q) - Z.log2 (Zpos (Qden q)))%Z in
  if Qle_bool (2 ^ e0) q then e0 else (e0 - 1)%Z.

(** The double nearest to a positive rational: a multiple of
    [2^(e - 52)] in the binade [e] of [q], of [2^-1074] below [2^-1022],
    and [Infinity] from [2^1024] on. *)
Definition round_pos (q : Q) : num :=
  let e := Z.max (binade q) (-1022) in
  let ulp := (2 ^ (e - 52))%Q in
  let r := Qred (inject_Z (round_half_even (q / ulp)) * ulp) in
  if Qle_bool (2 ^ 1024) r then PInf else Num r.

Definition round_double (a : num) : num :=
  match a with
  | Num q =>
      match (q ?= 0)%Q with
      | Eq => Num 0
      | Gt => round_pos q
      | Lt => JsNum.neg (round_pos (- q))
      end
  | _ => a
  end.

(** [a + b] and [a / b] on doubles. *)
Definition double_add (a b : num) : num := round_double (JsNum.add a b).
Definition double_div (a b : num) : num := round_double (JsNum.div a b).

(** [folderBoost] as the double the code computes for the folder
    [candidateFolder]: the two counts are integers, exact as doubles, and
    their quotient is rounded. *)
Definition folderBoostDouble (history : list UploadHistoryEntry)
    (candidateFolder : string) : num :=
  if (0 <? totalFolderUploads history)%nat
  then double_div
         (JsNum.of_nat (default 0%nat (folderFreq history !! candidateFolder)))
         (JsNum.of_nat (totalFolderUploads history))
  else Num 0.

(** * Specification-side definitions *)

(** The ranking as the specification words it: sort descending by score,
    drop the entries with [score <= 0], return the top [N]. *)
Definition search_as_specified `{Runtime} (queryVector : list num) (topN : nat)
    (acceptFilter : option string) (all : list VectorRecord) : list SearchResult :=
  firstn topN
    (List.filter (fun r => negb (JsNum.le (score r) (Num 0)))
       (js_sort by_score_desc
          (map (scored queryVector) (candidates_of acceptFilter all)))).

(** The order in which [getAll()] returns the records of a store whose
    key path is [id]: ascending ids, compared code unit by code unit. *)
Definition key_order (all : list VectorRecord) : Prop :=
  StronglySorted (fun r s => String.ltb (id r) (id s) = true) all.

(** The comparator [(a, b) => key(b) - key(a)]. *)
Definition key_desc {A : Type} (key : A -> num) (a b : A) : num :=
  JsNum.sub (key b) (key a).

(** [x] may stand before [y] in descending order: [key y <= key x]. *)
Definition desc {A : Type} (key : A -> num) (x y : A) : Prop :=
  JsNum.le (key y) (key x) = true.

Definition no_nan {A : Type} (key : A -> num) (l : list A) : Prop :=
  List.Forall (fun x => JsNum.is_nan (key x) = false) l.

(** A number that is 0 or more, [Infinity] included. *)
Definition nonneg (a : num) : Prop := JsNum.le (Num 0) a = true.

(** A number that is neither NaN nor infinite. *)
Definition finite (a : num) : Prop :=
  match a with Num _ => True | _ => False end.

(** The sum of the five components of a weight profile. *)
Definition weight_sum (w : Weights) : Q :=
  (w_tfidf w + w_history w + w_path w + w_content w + w_pathMemory w)%Q.

(** The overlap coefficient [|A ∩ B| / min(|A|, |B|)], 0 when either set
    is empty. *)
Definition overlap_coefficient (A B : gset string) : num :=
  if (size A =? 0)%nat || (size B =? 0)%nat then Num 0
  else Num (inject_Z (Z.of_nat (size (A ∩ B)))
            / inject_Z (Z.of_nat (Nat.min (size A) (size B)))).

(** The timestamps of the history rows of the file [rid], oldest row
    first, and the most recent of them. *)
Definition matching_timestamps (history : list UploadHistoryEntry) (rid : string)
  : list Z :=
  map timestamp (List.filter (fun h => String.eqb (fileId h) rid) history).

Definition latest (ts : list Z) : option Z :=
  match ts with
  | [] => None
  | t :: rest => Some (fold_left Z.max rest t)
  end.

(** Days elapsed between [lastTs] and [now], and the boost
    [max(0.1, 1.0 - daysAgo / 90)]. *)
Definition elapsed_days (now lastTs : Z) : Q :=
  (inject_Z (now - lastTs) / inject_Z ONE_DAY)%Q.

Definition history_decay (now lastTs : Z) : Q :=
  Qmax 0.1 (1 - elapsed_days now lastTs / 90)%Q.

(** The distinct folders of a history: the keys of [folderFreq]. *)
Definition history_folders (history : list UploadHistoryEntry) : list string :=
  map fst (map_to_list (folderFreq history)).

(** The sum of a list of numbers, and of the counts of a folder-frequency
    map. *)
Definition sum_nums (xs : list num) : num := fold_left JsNum.add xs (Num 0).

(** The sum of a list of doubles, added one after the other as doubles. *)
Definition sum_doubles (xs : list num) : num := fold_left double_add xs (Num 0).

(** The largest relative error of a rounding to a normal double,
    [2^-53]. *)
Definition unit_roundoff : Q := (2 ^ (-53))%Q.

Definition sum_values (m : gmap string nat) : nat :=
  sum_list (map snd (map_to_list m)).

(** The condition of the fallback of [handleMatch]: the largest cosine
    among the search results is at most 0.05, or the query vector is
    empty. *)
Definition low_signal `{Runtime} (V : Vocab) (all : list VectorRecord)
    (req : MatchRequest) : Prop :=
  JsNum.le (maxTfidf (tfidfResults V all req)) (Num 0.05) = true
  \/ vectorize V (tokenize (context req)) = [].

(** * A reference runtime and sample inputs

    [Qsqrt] is the square root rounded down to a multiple of [2^-60 / d];
    it is exact on squares of rationals.  [sample_tokenizeFiltered] drops
    a few stop words and one-character tokens from [tokenize]. *)

Definition Qsqrt (q : Q) : Q :=
  let d := Zpos (Qden q) in
  let s := (2 ^ 60)%Z in
  Qred (Z.sqrt (Qnum q * d * s * s) # (Qden q * Z.to_pos s)).

Definition sample_stop_words : list string :=
  ["the"; "is"; "a"; "to"; "your"; "you"; "please"; "or"; "if"]%string.

Definition sample_tokenizeFiltered (text : string) : list string :=
  List.filter
    (fun t => negb (existsb (String.eqb t) sample_stop_words)
              && (1 <? String.length t)%nat)
    (tokenize text).

Definition sample_runtime : Runtime :=
  {| Math_sqrt := Qsqrt; tokenizeFiltered := sample_tokenizeFiltered |}.

Definition mk_record (p ty : string) (v : list num) (preview : string)
  : VectorRecord :=
  {| id := p; name := List.last (JsString.split "/" p) EmptyString; path := p;
     type := ty; size_bytes := 1024; lastModified := 0; vector := v;
     denseVector := None; textPreview := preview |}.

(** A query over a two-term vocabulary and three stored records: one
    vectorized against it, one against a larger vocabulary, one against a
    smaller one. *)
Definition two_term_vocab : Vocab :=
  {| vocabulary := <["resume"%string := 0%nat]> (<["pdf"%string := 1%nat]> ∅);
     idfValues := <["resume"%string := Num 2]> (<["pdf"%string := Num 1]> ∅) |}.

Definition query_2d : list num := [Num 1; Num 0].

Definition fresh_record : VectorRecord :=
  mk_record "docs/resume.pdf" "application/pdf" [Num 1; Num 0] "resume".

Definition stale_long_record : VectorRecord :=
  mk_record "docs/taxes.pdf" "application/pdf" [Num 1; Num 0; Num 5] "taxes".


(** A record vectorized against a smaller vocabulary whose id comes
    before that of [fresh_record] in key order. *)
Definition stale_first_record : VectorRecord :=
  mk_record "a/passport.jpg" "image/jpeg" [] "passport".

(** A request whose context shares no term with [two_term_vocab]. *)
Definition unrelated_request : MatchRequest :=
  {| context := "hello world"; accept := Some "image/*"%string |}.

(** Three uploads on one host: two of [docs/resume.pdf], one of
    [img/passport.jpg]; timestamps in milliseconds. *)
Definition mk_entry (f : string) (ts : Z) : UploadHistoryEntry :=
  {| fileId := f; fileName := List.last (JsString.split "/" f) EmptyString;
     fileType := "application/octet-stream"; websiteHost := "jobs.example.com";
     pageTitle := "Apply"; uploadContext := "upload your resume";
     timestamp := ts |}.

Definition sample_history : list UploadHistoryEntry :=
  [mk_entry "docs/resume.pdf" 86400000;
   mk_entry "img/passport.jpg" 172800000;
   mk_entry "docs/resume.pdf" 864000000].

(** Six uploads on one host, each from a folder of its own. *)
Definition six_folder_history : list UploadHistoryEntry :=
  [mk_entry "a/cv.pdf" 86400000; mk_entry "b/cv.pdf" 86400000;
   mk_entry "c/cv.pdf" 86400000; mk_entry "d/cv.pdf" 86400000;
   mk_entry "e/cv.pdf" 86400000; mk_entry "f/cv.pdf" 86400000].

(** A corpus of three files indexed against a vocabulary of five terms,
    and a request for a resume. *)
Definition sample_vocab : Vocab :=
  {| vocabulary :=
       list_to_map [("resume", 0); ("passport", 1); ("taxes", 2); ("pdf", 3);
                    ("jpg", 4)]%string%nat;
     idfValues :=
       list_to_map [("resume", Num 1.7); ("passport", Num 1.7);
                    ("taxes", Num 1.7); ("pdf", Num 1.3); ("jpg", Num 1.7)]%string |}.

Definition indexed (p ty : string) : VectorRecord :=
  mk_record p ty (@vectorize sample_runtime sample_vocab (tokenize (spaced_path p)))
            (spaced_path p).

Definition sample_corpus : list VectorRecord :=
  [indexed "img/passport.jpg" "image/jpeg";
   indexed "docs/resume.pdf" "application/pdf";
   indexed "docs/taxes.pdf" "application/pdf"].

Definition resume_request : MatchRequest :=
  {| context := "Please upload your resume"; accept := None |}.

(** The records of [sample_corpus] in the order of their keys. *)
Definition ordered_corpus : list VectorRecord :=
  [indexed "docs/resume.pdf" "application/pdf";
   indexed "docs/taxes.pdf" "application/pdf";
   indexed "img/passport.jpg" "image/jpeg"].

(** * Further functions of the repository

    The stores and the callers of the ranking path: [denseSearch], the
    upload history and the path memory (src/vectordb.ts),
    [handleMatchEnhanced] and [handleBuildIndex] (src/background.ts),
    [buildVocabulary] (src/embeddings.ts), [positionPanel]
    (src/content.ts) and the [buildIndex] of the popup (src/popup.ts).

    - An IndexedDB object store is passed explicitly: the record store is
      a [gmap] from id to record, the history store the list of its rows
      in insertion order.
    - A remote service ([getEmbedding], [describeWithVLM], [batchEmbed])
      and [Math.log] are parameters of the sections that use them; a
      rejected promise is [None].
    - Lengths of the page layout are rationals. *)

(** ** Dense search (vectordb.ts) *)

(** [r.denseVector && r.denseVector.length > 0]. *)
Definition has_dense (r : VectorRecord) : bool :=
  match denseVector r with
  | Some d => (0 <? length d)%nat
  | None => false
  end.

Section DenseSearch.
Context `{Runtime}.

Definition dense_scored (queryVector : list num) (r : VectorRecord) : SearchResult :=
  {| record := r; score := cosine queryVector (default [] (denseVector r)) |}.

(** [denseSearch(queryVector, topN, acceptFilter)] over the records [all]
    of [getAll()]. *)
Definition denseSearch (queryVector : list num) (topN : nat)
    (acceptFilter : option string) (all : list VectorRecord)
  : list SearchResult :=
  let candidates := List.filter has_dense all in
  if (length candidates =? 0)%nat then []
  else
    List.filter (fun r => JsNum.gt (score r) (Num 0))
      (firstn topN
         (js_sort by_score_desc
            (map (dense_scored queryVector)
                 (candidates_of acceptFilter candidates)))).
End DenseSearch.

(** ** Upload history store (vectordb.ts)

    The object store [upload_history] has an auto-incremented key, so its
    rows are a list in insertion order; [index.getAll(key, count)] returns
    the first [count] rows of that key in this order, and all of them
    when [count] is 0.  The limit is a non-negative integer. *)

Definition addUploadHistory (entry : UploadHistoryEntry)
    (store : list UploadHistoryEntry) : list UploadHistoryEntry :=
  store ++ [entry].

Definition getHistoryByHost (store : list UploadHistoryEntry) (host : string)
    (limit : nat) : list UploadHistoryEntry :=
  let rows := List.filter (fun h => String.eqb (websiteHost h) host) store in
  if (limit =? 0)%nat then rows else firstn limit rows.

(** The default [limit] of [getHistoryByHost]. *)
Definition HISTORY_LIMIT : nat := 50.

(** The rows [handleMatch] ranks with: those of the page host, none when
    the host is empty ([pageUrl] absent or not a URL). *)
Definition pageHistory (store : list UploadHistoryEntry) (pageHost : string)
  : list UploadHistoryEntry :=
  if JsString.truthy pageHost then getHistoryByHost store pageHost HISTORY_LIMIT
  else [].

(** ** Path memory (vectordb.ts)

    The object [pathMemory] maps a host to its recently used paths, most
    recent first.  It is a plain object: a host that is not one of its
    own keys but the name of a member of [Object.prototype] reads as that
    member, a function or an object, not as [undefined]. *)

Definition object_prototype_members : list string :=
  ["constructor"; "__defineGetter__"; "__defineSetter__"; "hasOwnProperty";
   "__lookupGetter__"; "__lookupSetter__"; "isPrototypeOf";
   "propertyIsEnumerable"; "toString"; "valueOf"; "__proto__";
   "toLocaleString"]%string.

Definition inherited (key : string) : bool :=
  existsb (String.eqb key) object_prototype_members.

(** The value of [memory[host]]: the own list of the host, an inherited
    member, or [undefined]. *)
Inductive Member : Type :=
| Own (paths : list string)
| InheritedMember
| Missing.

Definition member (memory : gmap string (list string)) (host : string) : Member :=
  match memory !! host with
  | Some paths => Own paths
  | None => if inherited host then InheritedMember else Missing
  end.

(** [paths.indexOf(filePath)], [None] for -1. *)
Fixpoint indexOf (x : string) (l : list string) : option nat :=
  match l with
  | [] => None
  | y :: l' => if String.eqb y x then Some 0%nat else S <$> indexOf x l'
  end.

(** [saveUsedPath] throws a [TypeError] when [memory[host]] is an
    inherited member: it is truthy, so it is taken for the list, and it
    has no [indexOf]. *)
Definition saveUsedPath_rejects (memory : gmap string (list string))
    (host : string) : bool :=
  match member memory host with
  | InheritedMember => true
  | _ => false
  end.

(** The stored object after [saveUsedPath(host, filePath)]; nothing is
    written when the call throws. *)
Definition saveUsedPath (memory : gmap string (list string))
    (host filePath : string) : gmap string (list string) :=
  match member memory host with
  | InheritedMember => memory
  | found =>
      let paths := match found with Own paths => paths | _ => [] end in
      let paths :=
        match indexOf filePath paths with
        | Some idx => delete idx paths
        | None => paths
        end in
      let paths := filePath :: paths in
      let paths := if (20 <? length paths)%nat then firstn 20 paths else paths in
      <[host := paths]> memory
  end.

(** [getUsedPaths(host)]: [memory[host] || []]; [None] when this is an
    inherited member, which is no array of paths. *)
Definition getUsedPaths (memory : gmap string (list string)) (host : string)
  : option (list string) :=
  match member memory host with
  | Own paths => Some paths
  | Missing => Some []
  | InheritedMember => None
  end.

(** Every remembered list is free of duplicates and holds at most 20
    paths. *)
Definition path_memory_ok (memory : gmap string (list string)) : Prop :=
  forall host paths,
    memory !! host = Some paths -> List.NoDup paths /\ (length paths <= 20)%nat.

(** ** Enhanced match (background.ts) *)

Inductive XUploadMode : Type := mode_tfidf | mode_fast | mode_vlm.

Record XUploadConfig : Type := {
  apiKey : string;
  mode : XUploadMode;
}.

(** An enhanced request; [enh_pageHost] is the host name of [pageUrl],
    [None] when [pageUrl] is absent or not a URL. *)
Record MatchRequestEnhanced : Type := {
  enh_context : string;
  enh_accept : option string;
  enh_pageHost : option string;
  enh_mode : XUploadMode;
  enh_screenshotBase64 : option string;
}.

(** The history count map of [handleMatchEnhanced]. *)
Definition historyCounts (history : list UploadHistoryEntry) : gmap string nat :=
  fold_left
    (fun m h => <[fileId h := (default 0 (m !! fileId h) + 1)%nat]> m)
    history ∅.

Section Enhanced.
Context `{Runtime}.
(** The remote providers: [None] stands for a rejected promise. *)
Context (getEmbedding : string -> string -> option (list num)).
Context (describeWithVLM : string -> string -> string -> option string).

(** The text that is embedded: the context, preceded in VLM mode by the
    description of the screenshot when there is one. *)
Definition enhancedQueryText (req : MatchRequestEnhanced) (key : string) : string :=
  match enh_mode req, enh_screenshotBase64 req with
  | mode_vlm, Some shot =>
      if JsString.truthy shot then
        match describeWithVLM shot (enh_context req) key with
        | Some description =>
            String.append description (String.append " " (enh_context req))
        | None => enh_context req
        end
      else enh_context req
  | _, _ => enh_context req
  end.

(** The call [handleMatch({context, accept, pageUrl})] made on every
    fallback. *)
Definition tfidfFallback (V : Vocab) (all : list VectorRecord)
    (store : list UploadHistoryEntry) (now : Z) (req : MatchRequestEnhanced)
  : list MatchResultItem :=
  handleMatch V all (pageHistory store (default EmptyString (enh_pageHost req))) now
    {| context := enh_context req; accept := enh_accept req |}.

Definition dense_item (counts : gmap string nat) (r : SearchResult)
  : MatchResultItem :=
  {| item_id := id (record r);
     item_name := name (record r);
     item_path := path (record r);
     item_type := type (record r);
     item_score := score r;
     item_historyCount := default 0%nat (counts !! id (record r)) |}.

Definition handleMatchEnhanced (V : Vocab) (all : list VectorRecord)
    (store : list UploadHistoryEntry) (now : Z) (config : XUploadConfig)
    (req : MatchRequestEnhanced) : list MatchResultItem :=
  if negb (JsString.truthy (apiKey config)) then tfidfFallback V all store now req
  else
    match getEmbedding (enhancedQueryText req (apiKey config)) (apiKey config) with
    | None => tfidfFallback V all store now req
    | Some queryVec =>
        let results := denseSearch queryVec 5 (enh_accept req) all in
        if (length results =? 0)%nat then tfidfFallback V all store now req
        else
          let history :=
            match enh_pageHost req with
            | Some host => getHistoryByHost store host HISTORY_LIMIT
            | None => []
            end in
          map (dense_item (historyCounts history)) results
    end.
End Enhanced.

(** ** Vocabulary (embeddings.ts) *)

(** [new Set(doc)] in iteration order: the terms of [doc] at their first
    occurrence. *)
Definition js_set_add (t : string) (seen : list string) : list string :=
  if existsb (String.eqb t) seen then seen else seen ++ [t].

Definition set_of_list (doc : list string) : list string :=
  fold_left (fun seen t => js_set_add t seen) doc [].

(** The map [df] after the first loop of [buildVocabulary], in insertion
    order. *)
Definition document_frequency (docs : list (list string)) : list (string * nat) :=
  fold_left
    (fun df doc => fold_left (fun df term => tf_bump term df) (set_of_list doc) df)
    docs [].

Section BuildVocabulary.
(** [Math.log] on a positive finite number. *)
Context (Math_log : Q -> Q).

(** [Math.log((N + 1) / (count + 1)) + 1]. *)
Definition idf_of (N count : nat) : num :=
  JsNum.add
    (Num (Math_log (inject_Z (Z.of_nat (N + 1)) / inject_Z (Z.of_nat (count + 1)))))
    (Num 1).

(** One iteration of the second loop, on the vocabulary under
    construction and the running index [idx]. *)
Definition vocab_step (N : nat) (st : Vocab * nat) (e : string * nat) : Vocab * nat :=
  ({| vocabulary := <[fst e := snd st]> (vocabulary (fst st));
      idfValues := <[fst e := idf_of N (snd e)]> (idfValues (fst st)) |},
   S (snd st)).

Definition empty_vocab : Vocab := {| vocabulary := ∅; idfValues := ∅ |}.

(** [buildVocabulary(docs)]: the module state it leaves. *)
Definition buildVocabulary (docs : list (list string)) : Vocab :=
  fst (fold_left (vocab_step (length docs)) (document_frequency docs)
         (empty_vocab, 0%nat)).
End BuildVocabulary.

(** [df.get(term)] on a map kept in insertion order. *)
Fixpoint tf_get (t : string) (tf : list (string * nat)) : option nat :=
  match tf with
  | [] => None
  | (k, c) :: rest => if String.eqb k t then Some c else tf_get t rest
  end.

(** The number of documents of [docs] in which the term [t] occurs. *)
Definition doc_count (t : string) (docs : list (list string)) : nat :=
  length (List.filter (fun doc => existsb (String.eqb t) doc) docs).

(** A vocabulary whose indices all lie below its size. *)
Definition vocab_in_range (V : Vocab) : Prop :=
  forall term idx, vocabulary V !! term = Some idx -> (idx < size (vocabulary V))%nat.

(** A vocabulary whose IDF values are all finite. *)
Definition vocab_finite (V : Vocab) : Prop :=
  forall term x, idfValues V !! term = Some x -> finite x.

(** ** Index build (background.ts) *)

Record FileEntry : Type := {
  f_path : string;
  f_name : string;
  f_type : string;
  f_size : Z;
  f_lastModified : Z;
  f_text : string;
}.

(** [s.slice(0, n)]. *)
Definition slice0 (n : nat) (s : string) : string := substring 0 n s.

Section BuildIndex.
Context `{Runtime}.
Context (Math_log : Q -> Q).
(** [batchEmbed(texts, apiKey, ...)]; [None] stands for a rejected
    promise. *)
Context (batchEmbed : list string -> string -> option (list (list num))).

(** The array [denseVectors] after phase 2. *)
Definition denseVectorsOf (config : XUploadConfig) (files : list FileEntry)
  : list (option (list num)) :=
  let none := repeat None (length files) in
  if JsString.truthy (apiKey config)
     && negb match mode config with mode_tfidf => true | _ => false end
  then
    match batchEmbed (map (fun f => slice0 2000 (f_text f)) files) (apiKey config) with
    | Some vectors => map Some vectors
    | None => none
    end
  else none.

(** The record upserted for [files[i]]. *)
Definition indexed_record (V : Vocab) (denseVectors : list (option (list num)))
    (i : nat) (f : FileEntry) : VectorRecord :=
  {| id := f_path f;
     name := f_name f;
     path := f_path f;
     type := f_type f;
     size_bytes := f_size f;
     lastModified := f_lastModified f;
     vector := vectorize V (tokenize (f_text f));
     denseVector := mjoin (denseVectors !! i);
     textPreview := slice0 500 (f_text f) |}.

(** [upsert(record)]: [put] into the store keyed by [id]. *)
Definition upsert (r : VectorRecord) (store : gmap string VectorRecord)
  : gmap string VectorRecord :=
  <[id r := r]> store.

(** [handleBuildIndex(files)]: the vocabulary and the record store it
    leaves behind. *)
Definition handleBuildIndex (config : XUploadConfig) (files : list FileEntry)
  : Vocab * gmap string VectorRecord :=
  let allTokens := map (fun f => tokenize (f_text f)) files in
  let V := buildVocabulary Math_log allTokens in
  let denseVectors := denseVectorsOf config files in
  let store :=
    fold_left
      (fun store (e : nat * FileEntry) =>
         upsert (indexed_record V denseVectors (fst e) (snd e)) store)
      (combine (seq 0 (length files)) files) ∅ in
  (V, store).
End BuildIndex.

(** ** Predicates and sample inputs of the further properties *)

(** A number equal to 0. *)
Definition is_zero (a : num) : Prop := JsNum.equiv a (Num 0).

(** A record with a dense vector of three components. *)
Definition dense_record : VectorRecord :=
  {| id := "docs/cv.pdf"; name := "cv.pdf"; path := "docs/cv.pdf";
     type := "application/pdf"; size_bytes := 2048; lastModified := 0;
     vector := [Num 0; Num 1]; denseVector := Some [Num 3; Num 0; Num 4];
     textPreview := "curriculum vitae" |}.

(** A memory of two paths for one host, and a history store of three
    rows. *)
Definition sample_memory : gmap string (list string) :=
  <["jobs.example.com"%string := ["docs/resume.pdf"; "docs/cv.pdf"]%string]> ∅.

(** The rows of [store] that bear the host [host]. *)
Definition rows_of_host (store : list UploadHistoryEntry) (host : string)
  : list UploadHistoryEntry :=
  List.filter (fun h => String.eqb (websiteHost h) host) store.

(** A history store of fifty rows of one host, all of one file. *)
Definition full_history : list UploadHistoryEntry :=
  repeat (mk_entry "docs/resume.pdf" 86400000) 50.

(** The records [getAll()] returns for a store. *)
Definition getAll (store : gmap string VectorRecord) : list VectorRecord :=
  (map_to_list store).*2.

(** A stand-in for [Math.log], exact at 1, and two files to index. *)
Definition sample_log (x : Q) : Q := (x - 1)%Q.

Definition sample_files : list FileEntry :=
  [{| f_path := "docs/resume.pdf"; f_name := "resume.pdf";
      f_type := "application/pdf"; f_size := 2048; f_lastModified := 1;
      f_text := "Resume of a software engineer" |};
   {| f_path := "img/passport.jpg"; f_name := "passport.jpg";
      f_type := "image/jpeg"; f_size := 4096; f_lastModified := 2;
      f_text := "passport photo" |}].

Definition no_key_config : XUploadConfig :=
  {| apiKey := EmptyString; mode := mode_fast |}.

Definition keyed_config : XUploadConfig :=
  {| apiKey := "key"; mode := mode_fast |}.

(** Providers that answer with fixed vectors, and an enhanced request. *)
Definition sample_batchEmbed (texts : list string) (key : string)
  : option (list (list num)) :=
  Some (map (fun _ => [Num 1; Num 0]) texts).

Definition sample_getEmbedding (text key : string) : option (list num) :=
  Some [Num 3; Num 0; Num 4].

Definition sample_describeWithVLM (shot context key : string) : option string :=
  Some "a form"%string.

Definition enhanced_request : MatchRequestEnhanced :=
  {| enh_context := "upload your resume"; enh_accept := None;
     enh_pageHost := Some "jobs.example.com"%string; enh_mode := mode_fast;
     enh_screenshotBase64 := None |}.

(** ** Panel positioning (content.ts)

    Lengths are CSS pixels; the rectangle of the zone, the size of the
    window and the measured height of the panel are finite numbers. *)

(** [Math.max(4, Math.min(rect.left, window.innerWidth - 380))]. *)
Definition panel_left (rect_left innerWidth : Q) : Q :=
  Qmax 4 (Qmin rect_left (innerWidth - 380)).

(** The [top] that the animation frame callback of [positionPanel]
    assigns. *)
Definition panel_top (rect_top rect_bottom innerHeight panelHeight : Q) : Q :=
  let spaceBelow := (innerHeight - rect_bottom - 8)%Q in
  let spaceAbove := (rect_top - 8)%Q in
  let top :=
    if Qle_bool panelHeight spaceBelow then (rect_bottom + 6)%Q
    else if Qle_bool panelHeight spaceAbove then (rect_top - panelHeight - 6)%Q
    else if Qle_bool spaceAbove spaceBelow then (innerHeight - panelHeight - 8)%Q
    else 8%Q in
  Qmax 8 top.

(** ** Index build and rescan of the popup (popup.ts) *)

(** What [fileHandle.getFile()] and [extractText(file, path)] give for a
    file: [fi_type] is the value of [file.type || guessType(file.name)],
    [fi_text] is [None] when [extractText] throws. *)
Record FileInfo : Type := {
  fi_name : string;
  fi_type : string;
  fi_size : Z;
  fi_lastModified : Z;
  fi_text : option string;
}.

(** An entry of [collectFiles]; [e_file] is [None] when [getFile()]
    throws. *)
Record DirEntry : Type := {
  e_path : string;
  e_file : option FileInfo;
}.

(** The outcome of the body of the first loop for one entry: a document
    pushed on [docs], one pushed on [unchangedDocs], or an exception
    that is caught and counted. *)
Inductive Probe : Type :=
| Changed (d : FileEntry)
| Unchanged (d : FileEntry)
| Unreadable.

(** [new Map(existingRecords.map((r) => [r.id, r]))]. *)
Definition existingMapOf (existingRecords : list VectorRecord)
  : gmap string VectorRecord :=
  fold_left (fun m r => <[id r := r]> m) existingRecords ∅.

Definition probe (incremental : bool) (existingMap : gmap string VectorRecord)
    (e : DirEntry) : Probe :=
  match e_file e with
  | None => Unreadable
  | Some file =>
      let doc text :=
        {| f_path := e_path e; f_name := fi_name file; f_type := fi_type file;
           f_size := fi_size file; f_lastModified := fi_lastModified file;
           f_text := text |} in
      let read :=
        match fi_text file with
        | Some text => Changed (doc text)
        | None => Unreadable
        end in
      if incremental then
        match existingMap !! e_path e with
        | Some existing =>
            if Z.eqb (size_bytes existing) (fi_size file)
               && Z.eqb (lastModified existing) (fi_lastModified file)
            then Unchanged (doc (textPreview existing))
            else read
        | None => read
        end
      else read
  end.

Definition docs_of (probes : list Probe) : list FileEntry :=
  omap (fun p => match p with Changed d => Some d | _ => None end) probes.

Definition unchanged_of (probes : list Probe) : list FileEntry :=
  omap (fun p => match p with Unchanged d => Some d | _ => None end) probes.

(** [deleteById(id)]. *)
Definition deleteById (k : string) (store : gmap string VectorRecord)
  : gmap string VectorRecord :=
  delete k store.

(** A loop of [upsert] calls. *)
Definition upsert_all (records : list VectorRecord)
    (store : gmap string VectorRecord) : gmap string VectorRecord :=
  fold_left (fun s r => upsert r s) records store.

(** [{ ...existing, vector: vec }]. *)
Definition set_vector (existing : VectorRecord) (vec : list num) : VectorRecord :=
  {| id := id existing; name := name existing; path := path existing;
     type := type existing; size_bytes := size_bytes existing;
     lastModified := lastModified existing; vector := vec;
     denseVector := denseVector existing;
     textPreview := textPreview existing |}.

Section PopupBuildIndex.
Context `{Runtime}.
Context (Math_log : Q -> Q).

(** The record written for a new or modified document; it has no dense
    vector. *)
Definition popup_record (V : Vocab) (d : FileEntry) : VectorRecord :=
  {| id := f_path d; name := f_name d; path := f_path d; type := f_type d;
     size_bytes := f_size d; lastModified := f_lastModified d;
     vector := vectorize V (tokenize (f_text d));
     denseVector := None;
     textPreview := slice0 500 (f_text d) |}.

(** The record written for an unchanged document; none when the path has
    no existing record, which does not happen for a document of
    [unchangedDocs]. *)
Definition revectorized (V : Vocab) (existingMap : gmap string VectorRecord)
    (d : FileEntry) : option VectorRecord :=
  existing ← existingMap !! f_path d;
  Some (set_vector existing (vectorize V (tokenize (f_text d)))).

(** [buildIndex(dirHandle, incremental)] on the entries that
    [collectFiles] returns: the record store and the vocabulary it
    leaves, from those it finds. *)
Definition buildIndex (incremental : bool) (entries : list DirEntry)
    (store : gmap string VectorRecord) (V : Vocab)
  : gmap string VectorRecord * Vocab :=
  let existingRecords := if incremental then getAll store else [] in
  let existingMap := existingMapOf existingRecords in
  let currentPaths : gset string := list_to_set (map e_path entries) in
  let probes := map (probe incremental existingMap) entries in
  let docs := docs_of probes in
  let unchangedDocs := unchanged_of probes in
  let stale :=
    if incremental
    then List.filter (fun k => negb (bool_decide (k ∈ currentPaths)))
           (map_to_list existingMap).*1
    else [] in
  let store := fold_left (fun s k => deleteById k s) stale store in
  let deleted := length stale in
  if incremental && (length docs =? 0)%nat && (deleted =? 0)%nat
  then (store, V)
  else
    let allDocs := docs ++ unchangedDocs in
    let V' := buildVocabulary Math_log (map (fun d => tokenize (f_text d)) allDocs) in
    let store := if incremental then store else ∅ in
    let store := upsert_all (map (popup_record V') docs) store in
    let store :=
      if incremental && (0 <? length unchangedDocs)%nat
      then upsert_all (omap (revectorized V' existingMap) unchangedDocs) store
      else store in
    (store, V').
End PopupBuildIndex.

(** A store in which every record is kept under its own id. *)
Definition store_keyed (store : gmap string VectorRecord) : Prop :=
  forall k r, store !! k = Some r -> id r = k.

(** A store of two text files and the entries of two scans of their
    folder: in the first, [a.txt] is as indexed, [b.txt] cannot be read
    and [c.txt] is new; in the second, [c.txt] is absent. *)
Definition popup_rec (p : string) (sz lm : Z) (preview : string) : VectorRecord :=
  {| id := p; name := p; path := p; type := "text/plain"; size_bytes := sz;
     lastModified := lm; vector := [Num 1]; denseVector := None;
     textPreview := preview |}.

Definition popup_file (n : string) (sz lm : Z) (text : option string) : FileInfo :=
  {| fi_name := n; fi_type := "text/plain"; fi_size := sz;
     fi_lastModified := lm; fi_text := text |}.

Definition popup_entry (p : string) (file : option FileInfo) : DirEntry :=
  {| e_path := p; e_file := file |}.

Definition popup_store : gmap string VectorRecord :=
  <["a.txt"%string := popup_rec "a.txt" 10 100 "alpha"]>
    (<["b.txt"%string := popup_rec "b.txt" 20 200 "beta"]> ∅).

Definition quiet_entries : list DirEntry :=
  [popup_entry "a.txt" (Some (popup_file "a.txt" 10 100 (Some "alpha"%string)));
   popup_entry "b.txt" None].

Definition popup_entries : list DirEntry :=
  quiet_entries
  ++ [popup_entry "c.txt"
        (Some (popup_file "c.txt" 30 300 (Some "gamma delta"%string)))].

(** ** Tokenizer on UTF-16 code units (embeddings.ts)

    The patterns of [tokenize] have no [u] flag: they read the
    normalized text code unit by code unit.  Here a string is the list
    of its UTF-16 code units, so that the CJK ranges are reached;
    [tokens_of_normalized] is [tokenize] after its first line, on
    [normalized = text.toLowerCase().trim()]. *)

Definition is_word_unit (c : N) : bool :=
  ((97 <=? c) && (c <=? 122) || (48 <=? c) && (c <=? 57))%N.

(** U+4E00-U+9FFF and U+3400-U+4DBF. *)
Definition is_cjk_unit (c : N) : bool :=
  ((19968 <=? c) && (c <=? 40959) || (13312 <=? c) && (c <=? 19903))%N.

(** All matches of [/[a-z0-9]+/g]. *)
Fixpoint word_matches (s : list N) : list (list N) :=
  match s with
  | [] => []
  | c :: r =>
      if is_word_unit c then
        match r with
        | c' :: _ =>
            if is_word_unit c' then
              match word_matches r with
              | w :: ws => (c :: w) :: ws
              | [] => [[c]]
              end
            else [c] :: word_matches r
        | [] => [[c]]
        end
      else word_matches r
  end.

(** All matches of the one-character CJK pattern. *)
Fixpoint cjk_matches (s : list N) : list (list N) :=
  match s with
  | [] => []
  | c :: r => if is_cjk_unit c then [c] :: cjk_matches r else cjk_matches r
  end.

(** [cjk[i] + cjk[i + 1]] for [i < cjk.length - 1]. *)
Fixpoint unit_bigrams (cjk : list (list N)) : list (list N) :=
  match cjk with
  | a :: (b :: _) as rest => (a ++ b) :: unit_bigrams rest
  | _ => []
  end.

Definition tokens_of_normalized (normalized : list N) : list (list N) :=
  let words := word_matches normalized in
  let cjk := cjk_matches normalized in
  words ++ cjk ++ unit_bigrams cjk.

(** The code units of a string of 8-bit code units. *)
Definition units_of (s : string) : list N :=
  map JsString.code (list_ascii_of_string s).

(** The shape of a token: a non-empty run of the characters a-z and 0-9,
    one CJK character, or two CJK characters. *)
Definition token_shape (t : list N) : Prop :=
  (t <> [] /\ forallb is_word_unit t = true)
  \/ (exists c, t = [c] /\ is_cjk_unit c = true)
  \/ (exists c d, t = [c; d] /\ is_cjk_unit c = true /\ is_cjk_unit d = true).

(** * Properties *)

(** ** The model on sample inputs *)

Example tokenize_sample :
  tokenize "  Upload your Resume.pdf, v2 "
  = ["upload"; "your"; "resume"; "pdf"; "v2"]%string.
Proof. reflexivity. Qed.

Example folderOf_sample :
  folderOf "23S/OS/HW1.pdf" = "23S/OS"%string /\ folderOf "HW1.pdf" = EmptyString.
Proof. split; reflexivity. Qed.

Example parse_accept_sample :
  parse_accept ".PDF , image/*" = [".pdf"; "image/*"]%string.
Proof. reflexivity. Qed.

Example cosine_sample :
  @cosine sample_runtime [Num 3; Num 4] [Num 4; Num 3] = Num (24 # 25)
  /\ @cosine sample_runtime [Num 0; Num 0] [Num 4; Num 3] = Num 0
  /\ @cosine sample_runtime [Num 1; Num 0] [] = NaN.
Proof. repeat split; vm_compute; reflexivity. Qed.

Example search_sample :
  map (fun r => id (record r))
      (@search sample_runtime
         (@vectorize sample_runtime sample_vocab (tokenize "resume pdf")) 15
         (Some ".PDF , image/png"%string) sample_corpus)
  = ["docs/resume.pdf"; "docs/taxes.pdf"]%string.
Proof. vm_compute. reflexivity. Qed.

Example handleMatch_sample :
  map (fun i => (item_id i, item_historyCount i))
      (@handleMatch sample_runtime sample_vocab sample_corpus sample_history
         950400000 resume_request)
  = [("docs/resume.pdf"%string, 2%nat)].
Proof. vm_compute. reflexivity. Qed.

Example folder_boosts_sample :
  history_folders sample_history = ["img"; "docs"]%string
  /\ map (folderBoostOf sample_history) (history_folders sample_history)
     = [Num (1 # 3); Num (2 # 3)].
Proof. split; vm_compute; reflexivity. Qed.

Example round_double_sample :
  round_double (Num 0.1) = Num (3602879701896397 # 36028797018963968)
  /\ round_double (Num (1 # 3)) = Num (6004799503160661 # 18014398509481984)
  /\ round_double (Num (9007199254740993 # 1)) = Num (9007199254740992 # 1)
  /\ round_double (Num (9007199254740995 # 1)) = Num (9007199254740996 # 1)
  /\ round_double (Num (- (1 # 3))) = Num (- (6004799503160661 # 18014398509481984))
  /\ round_double (Num (2 ^ (-1075))) = Num 0
  /\ round_double (Num (3 * 2 ^ (-1075))) = Num (1 # 2 ^ 1073)
  /\ round_double (Num (2 ^ 1024)) = PInf
  /\ double_add (round_double (Num 0.1)) (round_double (Num 0.2))
     = Num (1351079888211149 # 4503599627370496).
Proof. repeat split; vm_compute; reflexivity. Qed.

(** ** Numbers *)

Module JsNumFacts.
Import JsNum.

(** Case analysis on every rational comparison in sight, then linear
    arithmetic. *)
Ltac qcases :=
  repeat match goal with
    | |- context [(?x ?= ?y)%Q] => destruct (Qcompare_spec x y)
    | H : context [(?x ?= ?y)%Q] |- _ => destruct (Qcompare_spec x y)
    end;
  try discriminate; try reflexivity; try lra.

Ltac num_cases :=
  unfold gt, lt, le, eq, max, sub, is_nan in *; simpl in *;
  repeat match goal with
    | s : bool |- _ => destruct s; simpl in *
    end;
  try discriminate; try reflexivity; try tauto; qcases.

Lemma gt_Num (x y : Q) : gt (Num x) (Num y) = true <-> (y < x)%Q.
Proof.
  unfold gt; simpl.
  destruct (Qcompare_spec x y); split; intros; try discriminate;
    try reflexivity; lra.
Qed.

Lemma le_Num (x y : Q) : le (Num x) (Num y) = true <-> (x <= y)%Q.
Proof.
  unfold le; simpl.
  destruct (Qcompare_spec x y); split; intros; try discriminate;
    try reflexivity; lra.
Qed.

Lemma gt_not_le (a b : num) : gt a b = true -> le a b = false.
Proof. destruct a, b; num_cases. Qed.

Lemma gt_negb_le (a b : num) :
  is_nan a = false -> is_nan b = false -> gt a b = negb (le a b).
Proof. destruct a, b; num_cases. Qed.

Lemma le_trans (a b c : num) : le a b = true -> le b c = true -> le a c = true.
Proof. destruct a, b, c; num_cases. Qed.

(** The comparator [b - a] is positive only if [a <= b]. *)
Lemma sub_pos_le (a b : num) : gt (sub b a) (Num 0) = true -> le a b = true.
Proof. destruct a, b; num_cases. Qed.

(** On numbers other than NaN, a comparator [b - a] that is not
    positive (NaN included: [Infinity - Infinity]) means [b <= a]. *)
Lemma sub_not_pos_le (a b : num) :
  is_nan a = false -> is_nan b = false ->
  gt (sub b a) (Num 0) = false -> le b a = true.
Proof. destruct a, b; num_cases. Qed.

Lemma le_gt_trans (a b c : num) : le a b = true -> gt a c = true -> gt b c = true.
Proof. destruct a, b, c; num_cases. Qed.

Lemma add_nan_r (a : num) : add a NaN = NaN.
Proof. destruct a; reflexivity. Qed.

Lemma mul_nan_r (a : num) : mul a NaN = NaN.
Proof. destruct a; reflexivity. Qed.

End JsNumFacts.

(** ** Sorting by a numeric key, descending *)

Section SortByKey.
Context {A : Type} (key : A -> num).

Lemma js_insert_perm (x : A) (l : list A) :
  Permutation (x :: l) (js_insert (key_desc key) x l).
Proof.
  induction l as [|y l IH]; simpl.
  - reflexivity.
  - destruct (JsNum.gt _ _).
    + rewrite Permutation_swap. now apply perm_skip.
    + reflexivity.
Qed.

Lemma js_sort_perm (l : list A) : Permutation l (js_sort (key_desc key) l).
Proof.
  induction l as [|x l IH]; simpl.
  - reflexivity.
  - rewrite <- js_insert_perm. now apply perm_skip.
Qed.

Lemma js_sort_In (x : A) (l : list A) : In x (js_sort (key_desc key) l) <-> In x l.
Proof.
  split; apply Permutation_in; [symmetry|]; apply js_sort_perm.
Qed.

Lemma js_insert_sorted (x : A) (l : list A) :
  JsNum.is_nan (key x) = false -> no_nan key l ->
  StronglySorted (desc key) l ->
  StronglySorted (desc key) (js_insert (key_desc key) x l).
Proof.
  intros Hx Hl Hs. induction Hs as [|y l Hs IH Hy]; simpl.
  - repeat constructor.
  - inversion Hl as [|? ? Hyn Hln]; subst.
    destruct (JsNum.gt (key_desc key x y) (Num 0)) eqn:E.
    + constructor; [now apply IH|].
      assert (Hxy : desc key y x) by (apply JsNumFacts.sub_pos_le; exact E).
      rewrite <- (js_insert_perm x l). constructor; assumption.
    + assert (Hxy : desc key x y)
        by (apply JsNumFacts.sub_not_pos_le; assumption).
      constructor; [now constructor|].
      constructor; [assumption|].
      eapply List.Forall_impl; [|exact Hy].
      intros z Hz. unfold desc in *. eapply JsNumFacts.le_trans; eassumption.
Qed.

Lemma js_sort_sorted (l : list A) :
  no_nan key l -> StronglySorted (desc key) (js_sort (key_desc key) l).
Proof.
  induction l as [|x l IH]; intros Hl; simpl.
  - constructor.
  - inversion Hl; subst. apply js_insert_sorted; auto.
    unfold no_nan. rewrite <- (js_sort_perm l). assumption.
Qed.

(** In a descending list the entries with a positive key form a prefix,
    so cutting to [n] entries and dropping the others commute. *)
Lemma sorted_filter_firstn (l : list A) (n : nat) :
  StronglySorted (desc key) l ->
  List.filter (fun r => JsNum.gt (key r) (Num 0)) (firstn n l)
  = firstn n (List.filter (fun r => JsNum.gt (key r) (Num 0)) l).
Proof.
  intros Hs. revert n. induction Hs as [|x l Hs IH Hx]; intros [|n]; simpl;
    try reflexivity.
  destruct (JsNum.gt (key x) (Num 0)) eqn:E; simpl.
  - f_equal. apply IH.
  - assert (Hnone : forall m,
               List.filter (fun r => JsNum.gt (key r) (Num 0)) m = [] <->
               List.Forall (fun r => JsNum.gt (key r) (Num 0) = false) m).
    { induction m as [|z m IHm]; simpl.
      - split; constructor.
      - destruct (JsNum.gt (key z) (Num 0)) eqn:Ez; split; intros Hm;
          try discriminate.
        + inversion Hm; congruence.
        + constructor; [assumption | now apply IHm].
        + inversion Hm; now apply IHm. }
    assert (Hall : List.Forall (fun r => JsNum.gt (key r) (Num 0) = false) l).
    { eapply List.Forall_impl; [|exact Hx]. intros z Hz. unfold desc in Hz.
      destruct (JsNum.gt (key z) (Num 0)) eqn:Ez; [|reflexivity].
      rewrite <- E. symmetry. eapply JsNumFacts.le_gt_trans; eassumption. }
    rewrite (proj2 (Hnone l) Hall).
    rewrite (proj2 (Hnone (firstn n l))).
    * now destruct n.
    * apply List.Forall_forall. intros z Hz.
      rewrite List.Forall_forall in Hall. apply Hall.
      rewrite <- (firstn_skipn n l). apply in_or_app. now left.
Qed.
End SortByKey.

(** ** Cosine similarity on vectors of different lengths *)

Section CosineFacts.
Context `{Runtime}.



(** Once the dot product and the norm of [b] are NaN they stay NaN. *)
Lemma cosine_fold_nan (a b : list num) (idxs : list nat) normA :
  exists normA',
    fold_left (cosine_step a b) idxs (NaN, normA, NaN) = (NaN, normA', NaN).
Proof.
  revert normA. induction idxs as [|i idxs IH]; intros normA; simpl.
  - now exists normA.
  - apply IH.
Qed.

Lemma cosine_fold_past_end (a b : list num) (idxs : list nat) st :
  (exists i, In i idxs /\ length b <= i) ->
  exists normA, fold_left (cosine_step a b) idxs st = (NaN, normA, NaN).
Proof.
  revert st. induction idxs as [|i idxs IH]; intros st [j [Hj Hlen]].
  - destruct Hj.
  - simpl. destruct (Nat.le_gt_cases (length b) i) as [Hi|Hi].
    + destruct st as [[dot normA] normB]. simpl.
      unfold js_get at 2 4 5. rewrite (nth_overflow b NaN Hi).
      rewrite JsNumFacts.mul_nan_r, !JsNumFacts.add_nan_r.
      apply cosine_fold_nan.
    + apply IH. exists j. split; [|exact Hlen].
      destruct Hj as [->|Hj]; [lia | exact Hj].
Qed.

(** Against a shorter vector the cosine is NaN, or 0 when the norm of
    [a] is 0: never positive. *)
Lemma cosine_shorter (a b : list num) :
  length b < length a -> JsNum.gt (cosine a b) (Num 0) = false.
Proof.
  intros Hlen. unfold cosine.
  destruct (cosine_fold_past_end a b (seq 0 (length a)) (Num 0, Num 0, Num 0))
    as [normA ->].
  - exists (length b). split; [apply in_seq; lia | lia].
  - destruct (JsNum.eq normA (Num 0)); reflexivity.
Qed.

Lemma cosine_fold_finite (a b : list num) (idxs : list nat) (d na nb : Q) :
  (forall i, In i idxs -> finite (js_get a i) /\ finite (js_get b i)) ->
  (0 <= na)%Q -> (0 <= nb)%Q ->
  exists d' na' nb',
    fold_left (cosine_step a b) idxs (Num d, Num na, Num nb)
    = (Num d', Num na', Num nb')
    /\ (0 <= na')%Q /\ (0 <= nb')%Q.
Proof.
  revert d na nb. induction idxs as [|i idxs IH]; intros d na nb Hfin Hna Hnb.
  - exists d, na, nb. simpl. auto.
  - destruct (Hfin i (or_introl eq_refl)) as [Ha Hb]. simpl.
    destruct (js_get a i) as [| |x]; try contradiction.
    destruct (js_get b i) as [| |y]; try contradiction. simpl.
    apply IH.
    + intros j Hj. apply Hfin. now right.
    + pose proof (Qmult_le_0_compat x x). nra.
    + pose proof (Qmult_le_0_compat y y). nra.
Qed.

(** Against a vector that covers the indices of [a], with finite
    components on both sides and a square root that is positive on
    positive numbers, the cosine is a finite number. *)
Lemma cosine_finite (a b : list num) :
  (forall x, (0 < x)%Q -> (0 < Math_sqrt x)%Q) ->
  length a <= length b ->
  List.Forall finite a -> List.Forall finite b ->
  finite (cosine a b).
Proof.
  intros Hsqrt Hlen Ha Hb. unfold cosine.
  destruct (cosine_fold_finite a b (seq 0 (length a)) 0 0 0)
    as (d & na & nb & -> & Hna & Hnb); try lra.
  { intros i Hi. apply in_seq in Hi. unfold js_get.
    rewrite List.Forall_forall in Ha, Hb.
    split; [apply Ha | apply Hb]; apply nth_In; lia. }
  destruct (JsNum.eq (Num na) (Num 0)) eqn:Ea; [exact I|].
  destruct (JsNum.eq (Num nb) (Num 0)) eqn:Eb; [exact I|]. simpl.
  unfold JsNum.eq in Ea, Eb. simpl in Ea, Eb.
  destruct (Qcompare_spec na 0) as [|?|Hpa]; try discriminate; try lra.
  destruct (Qcompare_spec nb 0) as [|?|Hpb]; try discriminate; try lra.
  pose proof (Hsqrt na Hpa) as Hsa. pose proof (Hsqrt nb Hpb) as Hsb.
  destruct (Qeq_bool (Math_sqrt na * Math_sqrt nb) 0) eqn:Ez.
  - apply Qeq_bool_eq in Ez. nra.
  - cbn [JsNum.mul JsNum.div]. rewrite Ez. exact I.
Qed.
End CosineFacts.

(** ** Shape of the result of [search] *)

Section SearchFacts.
Context `{Runtime}.

Lemma candidates_of_incl (accept : option string) (all : list VectorRecord) r :
  In r (candidates_of accept all) -> In r all.
Proof.
  unfold candidates_of. destruct accept as [af|]; [|auto].
  destruct (JsString.truthy af); [|auto].
  destruct (0 <? _)%nat; [|auto].
  intros Hr. apply List.filter_In in Hr. tauto.
Qed.

Lemma search_In (q : list num) (topN : nat) (accept : option string)
    (all : list VectorRecord) (res : SearchResult) :
  In res (search q topN accept all) ->
  In (record res) (candidates_of accept all)
  /\ score res = cosine q (vector (record res))
  /\ JsNum.gt (score res) (Num 0) = true.
Proof.
  unfold search. intros Hres. apply List.filter_In in Hres as [Hres Hpos].
  assert (Hin : In res (js_sort (key_desc score)
                          (map (scored q) (candidates_of accept all)))).
  { rewrite <- (firstn_skipn topN). apply in_or_app. left. exact Hres. }
  apply js_sort_In, in_map_iff in Hin as [r [<- Hr]].
  simpl. auto.
Qed.
End SearchFacts.

(** ** C1: stored vectors whose length differs from the query's *)




(** ** C3: cut to [topN], then drop the scores that are not positive *)

(** C3, as stated, fails when a candidate's cosine is NaN.  The store
    holds [a/passport.jpg], whose stored vector is shorter than the
    query, and [docs/resume.pdf]; [getAll()] returns them in this order,
    that of their keys.  Every comparison of the two is NaN, so they
    compare equal and the stable sort keeps the NaN entry in front; the
    cut to one entry keeps it and the filter then drops it, while a
    record of score 1 was available. *)
Lemma search_differs_from_specified_on_nan :
  key_order [stale_first_record; fresh_record]
  /\ @cosine sample_runtime query_2d (vector stale_first_record) = NaN
  /\ by_score_desc (@scored sample_runtime query_2d stale_first_record)
                   (@scored sample_runtime query_2d fresh_record) = NaN
  /\ by_score_desc (@scored sample_runtime query_2d fresh_record)
                   (@scored sample_runtime query_2d stale_first_record) = NaN
  /\ @search sample_runtime query_2d 1 None [stale_first_record; fresh_record] = []
  /\ @search_as_specified sample_runtime query_2d 1 None
       [stale_first_record; fresh_record]
     = [{| record := stale_first_record; score := NaN |}]
  /\ firstn 1
       (List.filter (fun r => JsNum.gt (score r) (Num 0))
          (js_sort by_score_desc
             (map (@scored sample_runtime query_2d)
                [stale_first_record; fresh_record])))
     = [{| record := fresh_record; score := Num 1 |}].
Proof.
  split.
  - repeat constructor.
  - repeat split; vm_compute; reflexivity.
Qed.

(** C3 (amended): when no candidate's cosine score is NaN, [search]
    returns exactly the candidates sorted descending by score, without
    those of score [<= 0], cut to the top [N]; the comparator then does
    sort the candidates in descending order. *)
Theorem search_matches_specified `{Runtime} (q : list num) (topN : nat)
    (accept : option string) (all : list VectorRecord) :
  List.Forall (fun r => JsNum.is_nan (cosine q (vector r)) = false)
    (candidates_of accept all) ->
  search q topN accept all = search_as_specified q topN accept all
  /\ StronglySorted (desc score)
       (js_sort by_score_desc (map (scored q) (candidates_of accept all))).
Proof.
  intros Hnan.
  assert (Hsorted : StronglySorted (desc score)
            (js_sort by_score_desc (map (scored q) (candidates_of accept all)))).
  { apply (js_sort_sorted score). apply List.Forall_forall. intros res Hres.
    apply in_map_iff in Hres as [r [<- Hr]]. simpl.
    rewrite List.Forall_forall in Hnan. now apply Hnan. }
  split; [|exact Hsorted]. unfold search, search_as_specified.
  set (cands := map (scored q) (candidates_of accept all)).
  assert (Hn : no_nan score cands).
  { unfold no_nan, cands. apply List.Forall_forall. intros res Hres.
    apply in_map_iff in Hres as [r [<- Hr]]. simpl.
    rewrite List.Forall_forall in Hnan. now apply Hnan. }
  change by_score_desc with (key_desc score).
  rewrite (sorted_filter_firstn score) by (apply js_sort_sorted; exact Hn).
  f_equal. apply List.filter_ext_in. intros res Hres.
  apply js_sort_In in Hres.
  apply JsNumFacts.gt_negb_le; [|reflexivity].
  unfold no_nan in Hn. rewrite List.Forall_forall in Hn. now apply Hn.
Qed.

(** The theorem at two records vectorized against vocabularies that
    cover the query. *)
Lemma search_matches_specified_witness :
  List.Forall
    (fun r => JsNum.is_nan (@cosine sample_runtime query_2d (vector r)) = false)
    (@candidates_of (Some "application/pdf"%string)
       [fresh_record; stale_long_record])
  /\ @search sample_runtime query_2d 1 (Some "application/pdf"%string)
       [fresh_record; stale_long_record]
     = @search_as_specified sample_runtime query_2d 1
         (Some "application/pdf"%string) [fresh_record; stale_long_record].
Proof.
  assert (Hn : List.Forall
                 (fun r => JsNum.is_nan
                             (@cosine sample_runtime query_2d (vector r)) = false)
                 (@candidates_of (Some "application/pdf"%string)
                    [fresh_record; stale_long_record]))
    by (repeat constructor).
  split; [exact Hn|].
  exact (proj1 (@search_matches_specified sample_runtime query_2d 1 _ _ Hn)).
Defined.

(** ** C2: vectorizing an empty token list *)

Lemma tokenize_empty : tokenize EmptyString = [].
Proof. reflexivity. Qed.

Lemma norm_of_zeros (n : nat) (x : Q) :
  exists y, (y == x)%Q /\
    fold_left (fun norm v => JsNum.add norm (JsNum.mul v v)) (repeat (Num 0) n) (Num x)
    = Num y.
Proof.
  revert x. induction n as [|n IH]; intros x; simpl.
  - exists x. split; reflexivity.
  - destruct (IH (x + 0 * 0)%Q) as [y [Hy ->]].
    exists y. split; [rewrite Hy; ring | reflexivity].
Qed.

(** C2, as stated, fails: with a vocabulary of two terms the empty token
    list, and [tokenize] of the empty string in particular, is vectorized
    to a vector of length two. *)
Lemma vectorize_empty_tokens_not_empty :
  size (vocabulary two_term_vocab) = 2%nat
  /\ @vectorize sample_runtime two_term_vocab (tokenize EmptyString)
     = [Num 0; Num 0]
  /\ @vectorize sample_runtime two_term_vocab (tokenize EmptyString) <> [].
Proof.
  split; [vm_compute; reflexivity|].
  split; [vm_compute; reflexivity | vm_compute; discriminate].
Qed.

(** C2 (amended): for every vocabulary model, [vectorize] of an empty
    token list, that of [tokenize] of the empty string in particular, is the
    all-zero vector whose length is the vocabulary size; it is zero-length
    only for the empty vocabulary. *)
Theorem vectorize_empty_tokens `{Runtime} (V : Vocab) :
  tokenize EmptyString = []
  /\ length (vectorize V []) = size (vocabulary V)
  /\ List.Forall (fun x => JsNum.equiv x (Num 0)) (vectorize V []).
Proof.
  split; [reflexivity|].
  unfold vectorize.
  destruct (Nat.eqb_spec (size (vocabulary V)) 0) as [E|E].
  - rewrite E. split; [reflexivity | constructor].
  - simpl fold_left at 2.
    destruct (norm_of_zeros (size (vocabulary V)) 0) as [y [Hy Hfold]].
    cbn [term_frequency fold_left map app]. rewrite Hfold.
    assert (Hsqrt : nsqrt (Num y) = Num (Math_sqrt y)).
    { unfold nsqrt. destruct (Qcompare_spec y 0); [reflexivity | lra | reflexivity]. }
    rewrite Hsqrt.
    destruct (JsNum.gt (Num (Math_sqrt y)) (Num 0)) eqn:Hpos.
    + apply JsNumFacts.gt_Num in Hpos. split.
      * now rewrite length_map, repeat_length.
      * apply List.Forall_forall. intros x Hx.
        apply in_map_iff in Hx as [v [<- Hv]].
        apply repeat_spec in Hv. subst v. simpl.
        destruct (Qeq_bool (Math_sqrt y) 0) eqn:Ez.
        -- apply Qeq_bool_eq in Ez. lra.
        -- simpl. field. lra.
    + split; [apply repeat_length|].
      apply List.Forall_forall. intros x Hx. apply repeat_spec in Hx.
      subst x. simpl. reflexivity.
Qed.

(** ** C5: the four weight profiles *)

(** C5: each of the four weight profiles sums to 1 (so lies within 0.01 of
    1.0), and in the two profiles chosen when the content signal is not
    useful the content weight [tfidf] is 0. *)
Theorem weight_profiles_sum_to_one (useful hasHistory : bool) :
  (weight_sum (weights useful hasHistory) == 1)%Q
  /\ (0.99 <= weight_sum (weights useful hasHistory) <= 1.01)%Q
  /\ (w_tfidf (weights false hasHistory) == 0)%Q.
Proof.
  destruct useful, hasHistory; repeat split; vm_compute; congruence.
Qed.

(** ** C8: keyword overlap is the overlap coefficient *)

Lemma count_matches_intersection (X Y : gset string) :
  count_matches X Y = size (X ∩ Y).
Proof.
  unfold count_matches, size, set_size. simpl.
  apply Permutation_length, NoDup_Permutation.
  - apply NoDup_ListNoDup, List.NoDup_filter, NoDup_ListNoDup, NoDup_elements.
  - apply NoDup_elements.
  - intros t. rewrite list_elem_of_In, List.filter_In, <- list_elem_of_In.
    rewrite !elem_of_elements, elem_of_intersection, bool_decide_eq_true.
    reflexivity.
Qed.

Lemma div_counts (m n : nat) :
  (0 < n)%nat ->
  JsNum.div (JsNum.of_nat m) (JsNum.of_nat n)
  = Num (inject_Z (Z.of_nat m) / inject_Z (Z.of_nat n)).
Proof.
  intros Hn. unfold JsNum.div, JsNum.of_nat.
  destruct (Qeq_bool (inject_Z (Z.of_nat n)) 0) eqn:E; [|reflexivity].
  apply Qeq_bool_eq in E. unfold Qeq in E. simpl in E. lia.
Qed.

Lemma computePathNameScore_overlap `{Runtime} (filePath context : string) :
  computePathNameScore filePath context
  = overlap_coefficient (list_to_set (tokenizeFiltered (spaced_path filePath)))
                        (list_to_set (tokenizeFiltered context)).
Proof.
  unfold computePathNameScore, overlap_coefficient.
  set (A := list_to_set _ : gset string). set (B := list_to_set _ : gset string).
  destruct (Nat.eqb_spec (size A) 0) as [|HA]; [reflexivity|].
  destruct (Nat.eqb_spec (size B) 0) as [|HB]; [reflexivity|]. simpl.
  rewrite count_matches_intersection. apply div_counts. lia.
Qed.

Lemma computeContentOverlap_overlap `{Runtime} (preview context : string) :
  computeContentOverlap preview context
  = overlap_coefficient (list_to_set (tokenizeFiltered preview))
                        (list_to_set (tokenizeFiltered context)).
Proof.
  unfold computeContentOverlap, overlap_coefficient.
  set (A := list_to_set _ : gset string). set (B := list_to_set _ : gset string).
  destruct (Nat.eqb_spec (size A) 0) as [|HA]; [reflexivity|].
  destruct (Nat.eqb_spec (size B) 0) as [|HB]; [reflexivity|]. simpl.
  rewrite count_matches_intersection, (comm_L (∩) B A).
  apply div_counts. lia.
Qed.

(** C8: the path/name score is the overlap coefficient of the filtered
    tokens of the path (separators spaced out) and of the query text, and
    the content-preview score that of the filtered tokens of the preview
    and of the query text; both are 0 when either set is empty. *)
Theorem overlap_scores_are_overlap_coefficients `{Runtime}
    (filePath preview context : string) :
  computePathNameScore filePath context
  = overlap_coefficient (list_to_set (tokenizeFiltered (spaced_path filePath)))
                        (list_to_set (tokenizeFiltered context))
  /\ computeContentOverlap preview context
     = overlap_coefficient (list_to_set (tokenizeFiltered preview))
                           (list_to_set (tokenizeFiltered context)).
Proof.
  split; [apply computePathNameScore_overlap | apply computeContentOverlap_overlap].
Qed.

(** ** C9: an accept filter that matches nothing is ignored *)



(** ** C10: the fallback to every stored record *)

Lemma tfidfUseful_false_of_le `{Runtime} (results : list SearchResult) :
  JsNum.le (maxTfidf results) (Num 0.05) = true -> tfidfUseful results = false.
Proof.
  intros Hle. unfold tfidfUseful.
  destruct (JsNum.gt _ _) eqn:E; [|reflexivity].
  apply JsNumFacts.gt_not_le in E. congruence.
Qed.

Lemma low_signal_not_useful `{Runtime} (V : Vocab) (all : list VectorRecord)
    (req : MatchRequest) :
  low_signal V all req -> allRecords V all req = fallback_records all.
Proof.
  intros Hlow. unfold allRecords.
  assert (Hu : tfidfUseful (tfidfResults V all req) = false).
  { destruct Hlow as [Hle|Hq].
    - now apply tfidfUseful_false_of_le.
    - unfold tfidfResults. rewrite Hq. reflexivity. }
  now rewrite Hu.
Qed.

Lemma handleMatch_fallback `{Runtime} (V : Vocab) (all : list VectorRecord)
    (history : list UploadHistoryEntry) (now : Z) (req : MatchRequest) :
  low_signal V all req ->
  handleMatch V all history now req
  = map to_item
      (top_ranked (map (blend false history now (context req))
                       (fallback_records all))).
Proof.
  intros Hlow. unfold handleMatch.
  rewrite (low_signal_not_useful V all req Hlow).
  assert (Hu : tfidfUseful (tfidfResults V all req) = false).
  { destruct Hlow as [Hle|Hq].
    - now apply tfidfUseful_false_of_le.
    - unfold tfidfResults. rewrite Hq. reflexivity. }
  now rewrite Hu.
Qed.

(** C10: when the largest cosine score among the search results is at
    most 0.05 (none found counts as 0), or the query vector is empty, the
    blended candidates are the stored records, every one of them and in
    the order of [getAll()], each with content score 0, and the answer of
    [handleMatch] is the ranking of those: neither the accept filter nor
    the cut to 15 search results takes part in it, and another accept
    filter that also leaves the signal low gives the same answer. *)
Theorem handleMatch_low_signal_fallback `{Runtime} (V : Vocab)
    (all : list VectorRecord) (history : list UploadHistoryEntry) (now : Z)
    (req : MatchRequest) :
  low_signal V all req ->
  allRecords V all req = map (fun r => {| record := r; score := Num 0 |}) all
  /\ map record (allRecords V all req) = all
  /\ List.Forall (fun c => score c = Num 0) (allRecords V all req)
  /\ handleMatch V all history now req
     = map to_item
         (top_ranked
            (map (fun r => blend false history now (context req)
                             {| record := r; score := Num 0 |})
                 all))
  /\ forall accept',
       low_signal V all {| context := context req; accept := accept' |} ->
       handleMatch V all history now {| context := context req; accept := accept' |}
       = handleMatch V all history now req.
Proof.
  intros Hlow.
  assert (Hall : allRecords V all req
                 = map (fun r => {| record := r; score := Num 0 |}) all)
    by exact (low_signal_not_useful V all req Hlow).
  split; [exact Hall|]. split; [|split; [|split]].
  - rewrite Hall, map_map. simpl. apply map_id.
  - rewrite Hall. apply List.Forall_forall. intros c Hc.
    apply in_map_iff in Hc as [r [<- _]]. reflexivity.
  - rewrite (handleMatch_fallback V all history now req Hlow).
    unfold fallback_records. now rewrite map_map.
  - intros accept' Hlow'.
    rewrite (handleMatch_fallback V all history now req Hlow).
    now rewrite (handleMatch_fallback V all history now _ Hlow').
Qed.

(** The theorem at a request for images that shares no term with the
    vocabulary, one day after the last upload: the three stored records
    are the candidates and all three are returned, the two PDF files
    among them. *)
Lemma handleMatch_low_signal_fallback_witness :
  key_order ordered_corpus
  /\ @low_signal sample_runtime sample_vocab ordered_corpus unrelated_request
  /\ map record (@allRecords sample_runtime sample_vocab ordered_corpus
                   unrelated_request)
     = ordered_corpus
  /\ map item_id
       (@handleMatch sample_runtime sample_vocab ordered_corpus sample_history
          950400000 unrelated_request)
     = ["docs/resume.pdf"; "img/passport.jpg"; "docs/taxes.pdf"]%string.
Proof.
  assert (Hlow : @low_signal sample_runtime sample_vocab ordered_corpus
                   unrelated_request)
    by (left; vm_compute; reflexivity).
  split; [repeat constructor|]. split; [exact Hlow|]. split.
  - exact (proj1 (proj2 (@handleMatch_low_signal_fallback sample_runtime
                           sample_vocab ordered_corpus sample_history 950400000
                           unrelated_request Hlow))).
  - vm_compute. reflexivity.
Defined.

(** ** C6: the history boost *)

Lemma historyMap_snoc (history : list UploadHistoryEntry) (h : UploadHistoryEntry) :
  historyMap (history ++ [h])
  = match historyMap history !! fileId h with
    | None => <[fileId h := (1%nat, timestamp h)]> (historyMap history)
    | Some (count, lastTs) =>
        <[fileId h := (S count, Z.max lastTs (timestamp h))]> (historyMap history)
    end.
Proof. unfold historyMap. now rewrite fold_left_app. Qed.

(** [historyMap] holds, for each file id, the number of its rows and the
    most recent of their timestamps. *)
Lemma historyMap_lookup (history : list UploadHistoryEntry) (rid : string) :
  historyMap history !! rid
  = match matching_timestamps history rid with
    | [] => None
    | t :: rest => Some (length (t :: rest), fold_left Z.max rest t)
    end.
Proof.
  induction history as [|h history IH] using rev_ind.
  - reflexivity.
  - rewrite historyMap_snoc. unfold matching_timestamps in *.
    rewrite List.filter_app, map_app. simpl.
    destruct (String.eqb_spec (fileId h) rid) as [->|Hne].
    + rewrite IH. simpl.
      destruct (map timestamp (List.filter _ history)) as [|t rest].
      * now rewrite lookup_insert_eq.
      * rewrite lookup_insert_eq. simpl. rewrite fold_left_app. simpl.
        rewrite length_app. simpl. do 2 f_equal. lia.
    + simpl. rewrite app_nil_r.
      destruct (historyMap history !! fileId h) as [[count lastTs]|];
        now rewrite lookup_insert_ne.
Qed.

Lemma latest_is_max (ts : list Z) (lastTs : Z) :
  latest ts = Some lastTs ->
  In lastTs ts /\ List.Forall (fun t => (t <= lastTs)%Z) ts.
Proof.
  destruct ts as [|t rest]; [discriminate|]. simpl. intros [= <-].
  revert t. induction rest as [|u rest IH]; intros t; simpl.
  - split; [now left | repeat constructor; lia].
  - destruct (IH (Z.max t u)) as [Hin Hall]. inversion Hall as [|? ? Hm Hrest]; subst.
    split.
    + destruct Hin as [Hin|Hin]; [|now right; right].
      destruct (Z.max_spec t u) as [[_ E]|[_ E]]; [right; left | left]; congruence.
    + constructor; [lia|]. constructor; [lia | exact Hrest].
Qed.

Lemma inject_Z_sub (a b : Z) : (inject_Z (a - b) == inject_Z a + - inject_Z b)%Q.
Proof. unfold Z.sub. now rewrite inject_Z_plus, inject_Z_opp. Qed.

Ltac days_arith :=
  unfold elapsed_days, Qdiv in *;
  change (inject_Z ONE_DAY) with (86400000 # 1)%Q in *;
  change (/ (86400000 # 1))%Q with (1 # 86400000)%Q in *;
  change (/ 90)%Q with (1 # 90)%Q in *.

Lemma decayedBoost_value (now lastTs : Z) :
  exists b, decayedBoost now lastTs = Num b /\ (b == history_decay now lastTs)%Q.
Proof.
  unfold decayedBoost, history_decay, JsNum.of_Z. simpl JsNum.sub.
  change (inject_Z ONE_DAY) with (86400000 # 1)%Q.
  cbn [JsNum.div]. simpl Qeq_bool. cbn iota. simpl JsNum.sub.
  unfold JsNum.max. simpl JsNum.cmp.
  pose proof (inject_Z_sub now lastTs) as Hs.
  destruct (Q.max_spec 0.1 (1 - elapsed_days now lastTs / 90)) as [[H1 H2]|[H1 H2]];
    destruct (Qcompare_spec 0.1
                (1.0 + - ((inject_Z now + - inject_Z lastTs) / (86400000 # 1) / 90)))
      as [E|E|E];
    eexists; (split; [reflexivity|]); days_arith; lra.
Qed.

Lemma history_decay_floor (now lastTs : Z) : (0.1 <= history_decay now lastTs)%Q.
Proof. apply Q.le_max_l. Qed.

Lemma history_decay_le_1 (now lastTs : Z) :
  (lastTs <= now)%Z -> (history_decay now lastTs <= 1)%Q.
Proof.
  intros Hle. unfold history_decay.
  assert (0 <= inject_Z (now - lastTs))%Q
    by (change 0%Q with (inject_Z 0); rewrite <- Zle_Qle; lia).
  apply Q.max_lub; [lra|]. days_arith. lra.
Qed.




(** The rows [handleMatch] fetches: the first 50 of the page host. *)
Lemma pageHistory_rows (store : list UploadHistoryEntry) (pageHost : string) :
  pageHistory store pageHost
  = if JsString.truthy pageHost
    then firstn HISTORY_LIMIT (rows_of_host store pageHost)
    else [].
Proof. reflexivity. Qed.

Lemma pageHistory_length (store : list UploadHistoryEntry) (pageHost : string) :
  (length (pageHistory store pageHost) <= HISTORY_LIMIT)%nat.
Proof.
  rewrite pageHistory_rows. destruct (JsString.truthy pageHost).
  - apply firstn_le_length.
  - simpl. lia.
Qed.




(** ** C7: the folder-frequency boosts of one history *)

Lemma fold_left_add_sum (l : list nat) (a : nat) :
  fold_left Nat.add l a = (a + sum_list l)%nat.
Proof.
  revert a. induction l as [|x l IH]; intros a; simpl.
  - lia.
  - rewrite IH. lia.
Qed.

Lemma sum_values_bump (m : gmap string nat) (k : string) :
  sum_values (<[k := (default 0 (m !! k) + 1)%nat]> m) = S (sum_values m).
Proof.
  unfold sum_values. destruct (m !! k) as [c|] eqn:E; simpl.
  - rewrite <- insert_delete_eq.
    rewrite (map_to_list_insert (delete k m) k (c + 1)%nat)
      by apply lookup_delete_eq.
    rewrite <- (map_to_list_delete m k c E). simpl. unfold Datatypes.id. lia.
  - rewrite (map_to_list_insert m k 1%nat E). reflexivity.
Qed.

Lemma folderFreq_snoc (history : list UploadHistoryEntry) (h : UploadHistoryEntry) :
  folderFreq (history ++ [h])
  = <[folderOf (fileId h) :=
        (default 0 (folderFreq history !! folderOf (fileId h)) + 1)%nat]>
      (folderFreq history).
Proof. unfold folderFreq. now rewrite fold_left_app. Qed.

(** Every upload is counted in exactly one folder. *)
Lemma totalFolderUploads_length (history : list UploadHistoryEntry) :
  totalFolderUploads history = length history.
Proof.
  unfold totalFolderUploads. rewrite fold_left_add_sum. simpl.
  change (sum_values (folderFreq history) = length history).
  induction history as [|h history IH] using rev_ind.
  - reflexivity.
  - rewrite folderFreq_snoc, sum_values_bump, IH, length_app. simpl. lia.
Qed.

Lemma folderFreq_is_Some (history : list UploadHistoryEntry) (f : string) :
  is_Some (folderFreq history !! f)
  <-> exists h, In h history /\ folderOf (fileId h) = f.
Proof.
  induction history as [|h history IH] using rev_ind.
  - unfold folderFreq. simpl. rewrite lookup_empty. split.
    + intros [x Hx]. discriminate.
    + intros [h [[] _]].
  - rewrite folderFreq_snoc.
    destruct (decide (folderOf (fileId h) = f)) as [<-|Hne].
    + rewrite lookup_insert_eq. split; [|eauto].
      intros _. exists h. split; [apply in_or_app; right; now left | reflexivity].
    + rewrite lookup_insert_ne by exact Hne. rewrite IH. split.
      * intros [h' [Hin Hf]]. exists h'. split; [apply in_or_app; now left | exact Hf].
      * intros [h' [Hin Hf]]. apply in_app_or in Hin as [Hin|[<-|[]]].
        -- now exists h'.
        -- congruence.
Qed.

Lemma history_folders_spec (history : list UploadHistoryEntry) :
  List.NoDup (history_folders history)
  /\ forall f, In f (history_folders history)
               <-> exists h, In h history /\ folderOf (fileId h) = f.
Proof.
  unfold history_folders. split.
  - apply NoDup_ListNoDup. apply (NoDup_fst_map_to_list (folderFreq history)).
  - intros f. rewrite <- folderFreq_is_Some, in_map_iff. split.
    + intros [[f' c] [<- Hin]]. exists c. simpl.
      now apply elem_of_map_to_list, list_elem_of_In.
    + intros [c Hc]. exists (f, c). split; [reflexivity|].
      now apply list_elem_of_In, elem_of_map_to_list.
Qed.

Lemma folder_boosts_fold (history : list UploadHistoryEntry)
    (l : list (string * nat)) (a : Q) :
  (0 < totalFolderUploads history)%nat ->
  (forall f c, In (f, c) l -> folderFreq history !! f = Some c) ->
  exists b,
    fold_left JsNum.add (map (folderBoostOf history) (map fst l)) (Num a) = Num b
    /\ (b == a + inject_Z (Z.of_nat (sum_list (map snd l)))
                 / inject_Z (Z.of_nat (totalFolderUploads history)))%Q.
Proof.
  intros Hpos. revert a. induction l as [|[f c] l IH]; intros a Hl; simpl.
  - exists a. split; [reflexivity|]. unfold Qdiv. change (inject_Z 0) with 0%Q. ring.
  - assert (Hf : folderBoostOf history f
                 = Num (inject_Z (Z.of_nat c)
                        / inject_Z (Z.of_nat (totalFolderUploads history)))).
    { unfold folderBoostOf. destruct (Nat.ltb_spec 0 (totalFolderUploads history));
        [|lia].
      rewrite (Hl f c) by now left. simpl. now apply div_counts. }
    rewrite Hf. simpl.
    destruct (IH (a + inject_Z (Z.of_nat c)
                      / inject_Z (Z.of_nat (totalFolderUploads history)))%Q)
      as [b [Hb Hbv]].
    { intros f' c' Hin. apply Hl. now right. }
    exists b. split; [exact Hb|]. rewrite Hbv. unfold Datatypes.id.
    rewrite Nat2Z.inj_add, inject_Z_plus.
    assert (Hnz : ~ (inject_Z (Z.of_nat (totalFolderUploads history)) == 0)%Q).
    { unfold Qeq. simpl. lia. }
    field. exact Hnz.
Qed.

Lemma folderFreq_le_total (history : list UploadHistoryEntry) (f : string) :
  (default 0 (folderFreq history !! f) <= totalFolderUploads history)%nat.
Proof.
  unfold totalFolderUploads. rewrite fold_left_add_sum. simpl.
  destruct (folderFreq history !! f) as [c|] eqn:E; simpl; [|lia].
  rewrite <- (map_to_list_delete _ _ _ E). simpl. unfold Datatypes.id. lia.
Qed.

Lemma folderFreq_pos (history : list UploadHistoryEntry) (f : string) (c : nat) :
  folderFreq history !! f = Some c -> (1 <= c)%nat.
Proof.
  revert c. induction history as [|h history IH] using rev_ind; intros c.
  - unfold folderFreq. simpl. now rewrite lookup_empty.
  - rewrite folderFreq_snoc.
    destruct (decide (folderOf (fileId h) = f)) as [<-|Hne].
    + rewrite lookup_insert_eq. intros [= <-]. lia.
    + rewrite lookup_insert_ne by exact Hne. apply IH.
Qed.

(** The sum of the exact quotients of a non-empty history. *)
Lemma folder_boosts_exact_sum (history : list UploadHistoryEntry) :
  history <> [] ->
  JsNum.equiv
    (sum_nums (map (folderBoostOf history) (history_folders history)))
    (Num 1).
Proof.
  intros Hne.
  assert (Hpos : (0 < totalFolderUploads history)%nat).
  { rewrite totalFolderUploads_length. destruct history; [congruence | simpl; lia]. }
  destruct (folder_boosts_fold history (map_to_list (folderFreq history)) 0 Hpos)
    as [b [Hb Hbv]].
  { intros f c Hin. now apply elem_of_map_to_list, list_elem_of_In. }
  unfold sum_nums, history_folders. rewrite Hb. simpl. rewrite Hbv.
  pose proof (fold_left_add_sum (map snd (map_to_list (folderFreq history))) 0) as Hs.
  fold (totalFolderUploads history) in Hs. simpl in Hs. rewrite <- Hs.
  assert (Hnz : ~ (inject_Z (Z.of_nat (totalFolderUploads history)) == 0)%Q).
  { unfold Qeq. simpl. lia. }
  field. exact Hnz.
Qed.

(** *** Rounding to a double *)

Lemma round_half_even_error (x : Q) :
  (- (1 # 2) <= inject_Z (round_half_even x) - x <= 1 # 2)%Q.
Proof.
  unfold round_half_even.
  pose proof (Qfloor_le x) as Hlo. pose proof (Qlt_floor x) as Hhi.
  rewrite inject_Z_plus in Hhi. change (inject_Z 1) with 1%Q in Hhi.
  destruct (Qcompare_spec (x - inject_Z (Qfloor x)) (1 # 2)) as [Heq|Hlt|Hgt].
  - destruct (Z.even (Qfloor x)).
    + lra.
    + rewrite inject_Z_plus. change (inject_Z 1) with 1%Q. lra.
  - lra.
  - rewrite inject_Z_plus. change (inject_Z 1) with 1%Q. lra.
Qed.

Lemma two_ne_0 : ~ (2 == 0)%Q.
Proof. discriminate. Qed.

Lemma pow2_pos (e : Z) : (0 < 2 ^ e)%Q.
Proof. apply Qpower_0_lt. reflexivity. Qed.

Lemma pow2_nat (k : Z) : (0 <= k)%Z -> (2 ^ k == inject_Z (2 ^ k))%Q.
Proof. intros Hk. now rewrite Zpower_Qpower. Qed.

Lemma binade_spec (q : Q) :
  (0 < q)%Q -> (2 ^ binade q <= q)%Q /\ (q < 2 ^ (binade q + 1))%Q.
Proof.
  intros Hq. unfold binade.
  set (n := Qnum q). set (d := Zpos (Qden q)).
  assert (Hn : (0 < n)%Z) by (unfold Qlt in Hq; simpl in Hq; subst n; lia).
  assert (Hd : (0 < d)%Z) by (subst d; lia).
  destruct (Z.log2_spec n Hn) as [Hn1 Hn2].
  destruct (Z.log2_spec d Hd) as [Hd1 Hd2].
  pose proof (Z.log2_nonneg n) as Hln. pose proof (Z.log2_nonneg d) as Hld.
  assert (Hqd : (q == inject_Z n / inject_Z d)%Q).
  { subst n d. destruct q as [x y]. simpl. apply Qmake_Qdiv. }
  assert (Hdq : (0 < inject_Z d)%Q)
    by (change 0%Q with (inject_Z 0); now rewrite <- Zlt_Qlt).
  destruct (Qle_bool (2 ^ (Z.log2 n - Z.log2 d)) q) eqn:E.
  - apply Qle_bool_iff in E. split; [exact E|].
    replace (Z.log2 n - Z.log2 d + 1)%Z
      with (Z.succ (Z.log2 n) - Z.log2 d)%Z by lia.
    rewrite Qpower_minus by exact two_ne_0.
    rewrite !pow2_nat by lia. rewrite Hqd.
    apply Qlt_shift_div_l.
    + change 0%Q with (inject_Z 0). rewrite <- Zlt_Qlt. lia.
    + unfold Qdiv.
      rewrite <- Qmult_assoc, (Qmult_comm (/ inject_Z d)), Qmult_assoc.
      apply Qlt_shift_div_r; [exact Hdq|].
      rewrite <- !inject_Z_mult, <- Zlt_Qlt. nia.
  - assert (Hlt : ~ (2 ^ (Z.log2 n - Z.log2 d) <= q)%Q).
    { intros Hle. apply Qle_bool_iff in Hle. congruence. }
    split.
    + replace (Z.log2 n - Z.log2 d - 1)%Z
        with (Z.log2 n - Z.succ (Z.log2 d))%Z by lia.
      rewrite Qpower_minus by exact two_ne_0.
      rewrite !pow2_nat by lia. rewrite Hqd.
      apply Qle_shift_div_r.
      * change 0%Q with (inject_Z 0). rewrite <- Zlt_Qlt. lia.
      * unfold Qdiv.
        rewrite <- Qmult_assoc, (Qmult_comm (/ inject_Z d)), Qmult_assoc.
        apply Qle_shift_div_l; [exact Hdq|].
        rewrite <- !inject_Z_mult, <- Zle_Qle. nia.
    + replace (Z.log2 n - Z.log2 d - 1 + 1)%Z
        with (Z.log2 n - Z.log2 d)%Z by lia.
      lra.
Qed.

(** A rational between [2^-1022] and 1 is rounded to a double within the
    relative error [2^-53]. *)
Lemma round_double_error (q : Q) :
  (2 ^ (-1022) <= q)%Q -> (q <= 1)%Q ->
  exists r, round_double (Num q) = Num r
            /\ (Qabs (r - q) <= unit_roundoff * q)%Q.
Proof.
  intros Hlo Hhi.
  assert (Hq : (0 < q)%Q).
  { pose proof (pow2_pos (-1022)). lra. }
  destruct (binade_spec q Hq) as [Hb1 Hb2].
  assert (Hnormal : (-1022 <= binade q)%Z).
  { destruct (Z_le_gt_dec (-1022) (binade q)) as [|Hsub]; [assumption|].
    exfalso.
    assert (Hle : (2 ^ (binade q + 1) <= 2 ^ (-1022))%Q).
    { apply Qpower_le_compat_l; [lia | discriminate]. }
    lra. }
  unfold round_double.
  destruct (Qcompare_spec q 0) as [Heq|Hlt|_]; [lra | lra |].
  unfold round_pos. rewrite Z.max_l by exact Hnormal.
  set (u := (2 ^ (binade q - 52))%Q).
  assert (Hu : (u == 2 ^ binade q * (1 # 4503599627370496))%Q).
  { subst u. unfold Z.sub. rewrite Qpower_plus by exact two_ne_0. reflexivity. }
  assert (Hupos : (0 < u)%Q) by apply pow2_pos.
  pose proof (round_half_even_error (q / u)) as Herr.
  set (m := inject_Z (round_half_even (q / u))) in *.
  assert (Hx : (q / u * u == q)%Q) by (field; lra).
  set (x := (q / u)%Q) in *.
  assert (H1 : (0 <= (m - x + (1 # 2)) * u)%Q) by (apply Qmult_le_0_compat; lra).
  assert (H2 : (0 <= ((1 # 2) - (m - x)) * u)%Q) by (apply Qmult_le_0_compat; lra).
  assert (Hr : (Qabs (m * u - q) <= unit_roundoff * q)%Q).
  { apply Qabs_Qle_condition. unfold unit_roundoff.
    change (2 ^ (-53))%Q with (1 # 9007199254740992)%Q.
    split; nra. }
  assert (Hsmall : (m * u <= 2)%Q).
  { apply Qabs_Qle_condition in Hr. unfold unit_roundoff in Hr.
    change (2 ^ (-53))%Q with (1 # 9007199254740992)%Q in Hr. nra. }
  destruct (Qle_bool (2 ^ 1024) (Qred (m * u))) eqn:E.
  - apply Qle_bool_iff in E. rewrite Qred_correct in E.
    assert (Hbig : (2 < 2 ^ 1024)%Q) by reflexivity.
    lra.
  - exists (Qred (m * u)). split; [reflexivity|]. now rewrite Qred_correct.
Qed.

(** The doubles computed for the folders of [l], summed as real numbers,
    lie within [2^-53] times the exact sum of the quotients. *)
Lemma folder_boosts_double_fold (history : list UploadHistoryEntry)
    (l : list (string * nat)) (a : Q) :
  (0 < totalFolderUploads history <= HISTORY_LIMIT)%nat ->
  (forall f c, In (f, c) l -> folderFreq history !! f = Some c) ->
  exists b,
    fold_left JsNum.add (map (folderBoostDouble history) (map fst l)) (Num a)
    = Num b
    /\ (Qabs (b - (a + inject_Z (Z.of_nat (sum_list (map snd l)))
                       / inject_Z (Z.of_nat (totalFolderUploads history))))
        <= unit_roundoff
           * (inject_Z (Z.of_nat (sum_list (map snd l)))
              / inject_Z (Z.of_nat (totalFolderUploads history))))%Q.
Proof.
  intros [Hpos Hmax]. unfold HISTORY_LIMIT in Hmax.
  set (t := totalFolderUploads history) in *.
  assert (Ht : (0 < inject_Z (Z.of_nat t))%Q)
    by (change 0%Q with (inject_Z 0); rewrite <- Zlt_Qlt; lia).
  assert (Ht50 : (inject_Z (Z.of_nat t) <= 50)%Q)
    by (change 50%Q with (inject_Z 50); rewrite <- Zle_Qle; lia).
  revert a. induction l as [|[f c] l IH]; intros a Hl.
  - exists a. split; [reflexivity|]. cbn [map sum_list sum_list_with].
    unfold Qdiv. change (inject_Z (Z.of_nat 0)) with 0%Q.
    apply Qabs_Qle_condition. split; lra.
  - cbn [map fst snd fold_left sum_list sum_list_with].
    pose proof (Hl f c (or_introl eq_refl)) as Hc.
    pose proof (folderFreq_pos history f c Hc) as Hc1.
    pose proof (folderFreq_le_total history f) as Hct.
    rewrite Hc in Hct. simpl in Hct. fold t in Hct.
    assert (Hq : folderBoostDouble history f
                 = round_double (Num (inject_Z (Z.of_nat c) / inject_Z (Z.of_nat t)))).
    { unfold folderBoostDouble, double_div. fold t.
      destruct (Nat.ltb_spec 0 t); [|lia].
      rewrite Hc. simpl default. now rewrite div_counts. }
    set (q := (inject_Z (Z.of_nat c) / inject_Z (Z.of_nat t))%Q) in *.
    assert (Hc1q : (1 <= inject_Z (Z.of_nat c))%Q)
      by (change 1%Q with (inject_Z 1); rewrite <- Zle_Qle; lia).
    assert (Hctq : (inject_Z (Z.of_nat c) <= inject_Z (Z.of_nat t))%Q)
      by (rewrite <- Zle_Qle; lia).
    assert (Hqlo : ((1 # 50) <= q)%Q).
    { subst q. apply Qle_shift_div_l; [exact Ht | lra]. }
    assert (Hqhi : (q <= 1)%Q).
    { subst q. apply Qle_shift_div_r; [exact Ht | lra]. }
    assert (Htiny : (2 ^ (-1022) <= 1 # 50)%Q) by (vm_compute; discriminate).
    destruct (round_double_error q) as [r [Hr Hrv]]; [lra | exact Hqhi |].
    rewrite Hq, Hr. cbn [JsNum.add].
    destruct (IH (a + r)%Q) as [b [Hb Hbv]].
    { intros f' c' Hin. apply Hl. now right. }
    exists b. split; [exact Hb|].
    unfold Datatypes.id.
    set (S := inject_Z (Z.of_nat (sum_list (map snd l)))) in *.
    assert (Hsum : (inject_Z (Z.of_nat (c + sum_list (map snd l)))
                    / inject_Z (Z.of_nat t)
                    == q + S / inject_Z (Z.of_nat t))%Q).
    { subst q S. rewrite Nat2Z.inj_add, inject_Z_plus. field. lra. }
    rewrite Hsum.
    apply Qabs_Qle_condition in Hrv. apply Qabs_Qle_condition in Hbv.
    apply Qabs_Qle_condition.
    unfold unit_roundoff in *.
    change (2 ^ (-53))%Q with (1 # 9007199254740992)%Q in *.
    set (X := (S / inject_Z (Z.of_nat t))%Q) in *.
    split; lra.
Qed.

(** C7, as stated, fails: the boosts are doubles.  For six uploads from
    six folders each boost is the double nearest to 1/6, and the six do
    not sum to 1: added as doubles they give [1 - 2^-53], which prints as
    0.9999999999999999, and their sum as real numbers is not 1 either. *)
Lemma folder_boosts_doubles_do_not_sum_to_one :
  pageHistory six_folder_history "jobs.example.com" = six_folder_history
  /\ length (history_folders six_folder_history) = 6%nat
  /\ map (folderBoostDouble six_folder_history)
       (history_folders six_folder_history)
     = repeat (Num (6004799503160661 # 36028797018963968)) 6
  /\ sum_doubles
       (map (folderBoostDouble six_folder_history)
          (history_folders six_folder_history))
     = Num (9007199254740991 # 9007199254740992)
  /\ ~ JsNum.equiv
         (sum_doubles
            (map (folderBoostDouble six_folder_history)
               (history_folders six_folder_history)))
         (Num 1)
  /\ ~ JsNum.equiv
         (sum_nums
            (map (folderBoostDouble six_folder_history)
               (history_folders six_folder_history)))
         (Num 1).
Proof.
  split; [reflexivity|]. split; [vm_compute; reflexivity|].
  split; [vm_compute; reflexivity|].
  split; [vm_compute; reflexivity|].
  split; vm_compute; discriminate.
Qed.

(** C7 (amended): over the rows [handleMatch] fetches for a host, the
    quotients [count / total] of the distinct folders sum to 1, and the
    doubles the code computes for them sum, as real numbers, to 1 within
    [2^-53]; when no row is fetched every folder boost is 0. *)
Theorem folder_boosts_sum_to_one (store : list UploadHistoryEntry)
    (pageHost : string) :
  let history := pageHistory store pageHost in
  let folders := history_folders history in
  (List.NoDup folders
   /\ forall f, In f folders <-> exists h, In h history /\ folderOf (fileId h) = f)
  /\ (history <> [] ->
      JsNum.equiv (sum_nums (map (folderBoostOf history) folders)) (Num 1)
      /\ exists s,
           sum_nums (map (folderBoostDouble history) folders) = Num s
           /\ (Qabs (s - 1) <= unit_roundoff)%Q)
  /\ (history = [] ->
      forall candidatePath,
        folderBoost history candidatePath = Num 0
        /\ folderBoostDouble history (folderOf candidatePath) = Num 0).
Proof.
  intros history folders.
  split; [apply history_folders_spec|]. split.
  - intros Hne. split; [now apply folder_boosts_exact_sum|].
    assert (Hlen : (0 < totalFolderUploads history <= HISTORY_LIMIT)%nat).
    { rewrite totalFolderUploads_length. split.
      - destruct history; [congruence | simpl; lia].
      - apply pageHistory_length. }
    destruct (folder_boosts_double_fold history (map_to_list (folderFreq history))
                0 Hlen) as [b [Hb Hbv]].
    { intros f c Hin. now apply elem_of_map_to_list, list_elem_of_In. }
    exists b. split; [exact Hb|].
    pose proof (fold_left_add_sum (map snd (map_to_list (folderFreq history))) 0)
      as Hs.
    fold (totalFolderUploads history) in Hs. simpl in Hs. rewrite <- Hs in Hbv.
    assert (Hone : (inject_Z (Z.of_nat (totalFolderUploads history))
                    / inject_Z (Z.of_nat (totalFolderUploads history)) == 1)%Q).
    { field. unfold Qeq. simpl. lia. }
    rewrite Hone in Hbv.
    apply Qabs_Qle_condition in Hbv. apply Qabs_Qle_condition.
    split; lra.
  - intros Hnil candidatePath. rewrite Hnil. split; reflexivity.
Qed.

(** The theorem at a store of three rows from two folders. *)
Lemma folder_boosts_sum_to_one_witness :
  pageHistory sample_history "jobs.example.com" <> []
  /\ JsNum.equiv
       (sum_nums (map (folderBoostOf (pageHistory sample_history "jobs.example.com"))
                      (history_folders
                         (pageHistory sample_history "jobs.example.com"))))
       (Num 1)
  /\ exists s,
       sum_nums
         (map (folderBoostDouble (pageHistory sample_history "jobs.example.com"))
              (history_folders (pageHistory sample_history "jobs.example.com")))
       = Num s
       /\ (Qabs (s - 1) <= unit_roundoff)%Q.
Proof.
  assert (Hne : pageHistory sample_history "jobs.example.com" <> [])
    by discriminate.
  split; [exact Hne|].
  exact (proj1 (proj2 (folder_boosts_sum_to_one sample_history
                         "jobs.example.com")) Hne).
Defined.

(** ** C4: the answer of [handleMatch] *)

Lemma nonneg_Num (q : Q) : nonneg (Num q) <-> (0 <= q)%Q.
Proof. apply JsNumFacts.le_Num. Qed.

Lemma nonneg_not_nan (a : num) : nonneg a -> JsNum.is_nan a = false.
Proof. destruct a; [discriminate | reflexivity | reflexivity]. Qed.

Lemma nonneg_add (a b : num) : nonneg a -> nonneg b -> nonneg (JsNum.add a b).
Proof.
  unfold nonneg. destruct a as [|[]|x], b as [|[]|y]; simpl; try discriminate;
    try reflexivity.
  rewrite !JsNumFacts.le_Num. lra.
Qed.

Lemma nonneg_mul_weight (x w : Q) :
  (0 <= x)%Q -> (0 <= w)%Q -> nonneg (JsNum.mul (Num x) (Num w)).
Proof. intros Hx Hw. apply nonneg_Num. now apply Qmult_le_0_compat. Qed.

Lemma nonneg_mul_positive (a : num) (w : Q) :
  JsNum.gt a (Num 0) = true -> (0 < w)%Q -> nonneg (JsNum.mul a (Num w)).
Proof.
  intros Ha Hw. destruct a as [|[]|x]; try discriminate.
  - unfold nonneg. simpl. unfold JsNum.scale_inf.
    destruct (Qcompare_spec w 0); try lra. reflexivity.
  - apply JsNumFacts.gt_Num in Ha. apply nonneg_mul_weight; lra.
Qed.

Lemma weights_nonneg (useful hasHistory : bool) :
  (0 <= w_tfidf (weights useful hasHistory))%Q
  /\ (0 <= w_history (weights useful hasHistory))%Q
  /\ (0 <= w_path (weights useful hasHistory))%Q
  /\ (0 <= w_content (weights useful hasHistory))%Q
  /\ (0 <= w_pathMemory (weights useful hasHistory))%Q
  /\ (0 < w_tfidf (weights true hasHistory))%Q.
Proof.
  destruct useful, hasHistory; repeat split; vm_compute; congruence.
Qed.

Lemma ratio_nonneg (m n : nat) :
  (0 <= inject_Z (Z.of_nat m) / inject_Z (Z.of_nat n))%Q.
Proof.
  assert (Hz : forall k : nat, (0 <= inject_Z (Z.of_nat k))%Q).
  { intros k. change 0%Q with (inject_Z 0). rewrite <- Zle_Qle. lia. }
  unfold Qdiv. apply Qmult_le_0_compat; [|apply Qinv_le_0_compat]; apply Hz.
Qed.

Lemma overlap_coefficient_nonneg (A B : gset string) :
  exists x, overlap_coefficient A B = Num x /\ (0 <= x)%Q.
Proof.
  unfold overlap_coefficient. destruct (_ || _).
  - exists 0%Q. split; [reflexivity | lra].
  - eexists. split; [reflexivity | apply ratio_nonneg].
Qed.

Lemma historyBoost_nonneg (history : list UploadHistoryEntry) (now : Z)
    (rid : string) :
  exists b, historyBoost history now rid = Num b /\ (0 <= b)%Q.
Proof.
  unfold historyBoost. destruct (historyMap history !! rid) as [[count lastTs]|].
  - destruct (decayedBoost_value now lastTs) as [b [Hb Hbv]].
    exists b. split; [exact Hb|].
    pose proof (history_decay_floor now lastTs). lra.
  - exists 0%Q. split; [reflexivity | lra].
Qed.

Lemma folderBoost_nonneg (history : list UploadHistoryEntry) (p : string) :
  exists y, folderBoost history p = Num y /\ (0 <= y)%Q.
Proof.
  unfold folderBoost, folderBoostOf.
  destruct (Nat.ltb_spec 0 (totalFolderUploads history)) as [Hpos|_].
  - rewrite div_counts by exact Hpos. eexists. split; [reflexivity|].
    apply ratio_nonneg.
  - exists 0%Q. split; [reflexivity | lra].
Qed.

Section RankFacts.
Context `{Runtime}.

(** The blended score is never NaN: it is 0 or more for a candidate whose
    content score is positive under a useful TF-IDF signal, or 0
    otherwise. *)
Lemma blend_nonneg (useful : bool) (history : list UploadHistoryEntry)
    (now : Z) (context : string) (r : SearchResult) :
  (if useful then JsNum.gt (score r) (Num 0) = true else score r = Num 0) ->
  nonneg (finalScore (blend useful history now context r)).
Proof.
  intros Hscore. unfold blend. cbn [finalScore].
  destruct (historyBoost_nonneg history now (id (record r))) as [b [-> Hb]].
  destruct (folderBoost_nonneg history (path (record r))) as [y [-> Hy]].
  rewrite computePathNameScore_overlap, computeContentOverlap_overlap.
  destruct (overlap_coefficient_nonneg
              (list_to_set (tokenizeFiltered (spaced_path (path (record r)))))
              (list_to_set (tokenizeFiltered context))) as [p [-> Hp]].
  destruct (overlap_coefficient_nonneg
              (list_to_set (tokenizeFiltered (textPreview (record r))))
              (list_to_set (tokenizeFiltered context))) as [c [-> Hc]].
  set (w := weights useful (JsNum.gt (Num b) (Num 0))).
  destruct (weights_nonneg useful (JsNum.gt (Num b) (Num 0)))
    as (Hw1 & Hw2 & Hw3 & Hw4 & Hw5 & Hw6).
  fold w in Hw1, Hw2, Hw3, Hw4, Hw5.
  repeat apply nonneg_add; try (apply nonneg_mul_weight; assumption).
  destruct useful.
  - apply nonneg_mul_positive; assumption.
  - rewrite Hscore. apply nonneg_mul_weight; [lra | assumption].
Qed.

Lemma allRecords_scores (V : Vocab) (all : list VectorRecord) (req : MatchRequest)
    (r : SearchResult) :
  In r (allRecords V all req) ->
  if tfidfUseful (tfidfResults V all req)
  then JsNum.gt (score r) (Num 0) = true
  else score r = Num 0.
Proof.
  unfold allRecords. destruct (tfidfUseful (tfidfResults V all req)) eqn:Hu.
  - unfold tfidfResults. destruct (0 <? _)%nat; [|intros []].
    intros Hr. now apply search_In in Hr.
  - unfold fallback_records. intros Hr. apply in_map_iff in Hr as [x [<- _]].
    reflexivity.
Qed.
End RankFacts.

Lemma StronglySorted_firstn {A : Type} (R : A -> A -> Prop) (l : list A) (n : nat) :
  StronglySorted R l -> StronglySorted R (firstn n l).
Proof.
  intros Hs. revert n. induction Hs as [|x l Hs IH Hx]; intros [|n]; simpl;
    try constructor.
  - apply IH.
  - apply List.Forall_forall. intros y Hy. rewrite List.Forall_forall in Hx.
    apply Hx. rewrite <- (firstn_skipn n l). apply in_or_app. now left.
Qed.

Lemma StronglySorted_filter {A : Type} (R : A -> A -> Prop) (f : A -> bool)
    (l : list A) :
  StronglySorted R l -> StronglySorted R (List.filter f l).
Proof.
  induction 1 as [|x l Hs IH Hx]; simpl; [constructor|].
  destruct (f x); [|exact IH]. constructor; [exact IH|].
  apply List.Forall_forall. intros y Hy. apply List.filter_In in Hy as [Hy _].
  rewrite List.Forall_forall in Hx. now apply Hx.
Qed.

Lemma StronglySorted_map {A B : Type} (R : B -> B -> Prop) (f : A -> B)
    (l : list A) :
  StronglySorted (fun x y => R (f x) (f y)) l -> StronglySorted R (map f l).
Proof.
  induction 1 as [|x l Hs IH Hx]; simpl; constructor; [exact IH|].
  apply List.Forall_forall. intros y Hy. apply in_map_iff in Hy as [z [<- Hz]].
  rewrite List.Forall_forall in Hx. now apply Hx.
Qed.

(** C4: the result list of [handleMatch] is sorted by final score,
    non-increasing; every returned score is positive, none is [<= 0]; and
    there are at most 5 results. *)
Theorem handleMatch_results_ranked `{Runtime} (V : Vocab)
    (all : list VectorRecord) (history : list UploadHistoryEntry) (now : Z)
    (req : MatchRequest) :
  let results := handleMatch V all history now req in
  StronglySorted
    (fun a b => JsNum.le (item_score b) (item_score a) = true) results
  /\ List.Forall
       (fun a => JsNum.gt (item_score a) (Num 0) = true
                 /\ JsNum.le (item_score a) (Num 0) = false) results
  /\ (length results <= 5)%nat.
Proof.
  intros results. subst results. unfold handleMatch, top_ranked.
  set (useful := tfidfUseful (tfidfResults V all req)).
  set (ranked := map (blend useful history now (context req)) (allRecords V all req)).
  assert (Hn : no_nan finalScore ranked).
  { unfold no_nan, ranked. apply List.Forall_forall. intros x Hx.
    apply in_map_iff in Hx as [r [<- Hr]].
    apply nonneg_not_nan, blend_nonneg. now apply allRecords_scores. }
  split; [|split].
  - apply StronglySorted_map, StronglySorted_filter, StronglySorted_firstn.
    change by_final_desc with (key_desc finalScore).
    apply (js_sort_sorted finalScore ranked Hn).
  - apply List.Forall_forall. intros a Ha.
    apply in_map_iff in Ha as [r [<- Hr]]. apply List.filter_In in Hr as [_ Hpos].
    simpl. split; [exact Hpos | now apply JsNumFacts.gt_not_le].
  - rewrite length_map.
    etransitivity; [apply List.filter_length_le | apply firstn_le_length].
Qed.

(** * Further properties *)

(** ** Sub-multisets of a record list *)

Lemma filter_submseteq {A : Type} (f : A -> bool) (l : list A) :
  List.filter f l ⊆+ l.
Proof.
  induction l as [|x l IH]; simpl.
  - constructor.
  - destruct (f x); [now apply submseteq_skip | now apply submseteq_cons].
Qed.

Lemma submseteq_ListNoDup {A : Type} (l k : list A) :
  l ⊆+ k -> List.NoDup k -> List.NoDup l.
Proof.
  intros Hsub Hk. apply submseteq_Permutation in Hsub as [k' Hperm].
  apply NoDup_ListNoDup. apply NoDup_ListNoDup in Hk.
  rewrite Hperm in Hk. now apply NoDup_app in Hk as [? _].
Qed.

Lemma submseteq_In {A : Type} (l k : list A) (x : A) :
  l ⊆+ k -> In x l -> In x k.
Proof.
  intros Hsub Hx. apply list_elem_of_In. apply list_elem_of_In in Hx.
  eapply elem_of_submseteq; eassumption.
Qed.

Lemma candidates_of_submseteq (accept : option string) (all : list VectorRecord) :
  candidates_of accept all ⊆+ all.
Proof.
  unfold candidates_of. destruct accept as [af|]; [|reflexivity].
  destruct (JsString.truthy af); [|reflexivity].
  destruct (0 <? _)%nat; [apply filter_submseteq | reflexivity].
Qed.

(** What survives the sort, the cut and the filter is a sub-multiset of
    what went in. *)
Lemma ranked_submseteq {A : Type} (key : A -> num) (n : nat) (l : list A) :
  List.filter (fun r => JsNum.gt (key r) (Num 0))
    (firstn n (js_sort (key_desc key) l)) ⊆+ l.
Proof.
  etransitivity; [apply filter_submseteq|].
  etransitivity; [apply submseteq_take|].
  apply Permutation_submseteq. symmetry. apply js_sort_perm.
Qed.

Section SearchBounds.
Context `{Runtime}.

Lemma search_records_submseteq (q : list num) (topN : nat)
    (accept : option string) (all : list VectorRecord) :
  map record (search q topN accept all) ⊆+ all.
Proof.
  unfold search. change by_score_desc with (key_desc score).
  etransitivity.
  - apply (fmap_submseteq record). apply ranked_submseteq.
  - change (map record (map (scored q) (candidates_of accept all)) ⊆+ all).
    rewrite map_map. simpl. rewrite map_id. apply candidates_of_submseteq.
Qed.

(** X1: [search] returns at most [topN] results; they are stored records,
    none taken twice, each with its cosine as score, and that score is
    positive. *)
Theorem search_results_bounded (q : list num) (topN : nat)
    (accept : option string) (all : list VectorRecord) :
  (length (search q topN accept all) <= topN)%nat
  /\ map record (search q topN accept all) ⊆+ all
  /\ List.Forall
       (fun res => In (record res) all
                   /\ score res = cosine q (vector (record res))
                   /\ JsNum.gt (score res) (Num 0) = true)
       (search q topN accept all).
Proof.
  split; [|split].
  - unfold search. etransitivity; [apply List.filter_length_le|].
    apply firstn_le_length.
  - apply search_records_submseteq.
  - apply List.Forall_forall. intros res Hres.
    apply search_In in Hres as (Hc & Hs & Hp).
    split; [|split]; auto. now apply candidates_of_incl in Hc.
Qed.
End SearchBounds.

(** ** Cosine against a zero vector, and the common component *)

Section CosineMore.
Context `{Runtime}.

Lemma js_get_in (a : list num) (i : nat) (P : num -> Prop) :
  (i < length a)%nat -> List.Forall P a -> P (js_get a i).
Proof.
  intros Hi Ha. rewrite List.Forall_forall in Ha. apply Ha.
  unfold js_get. now apply nth_In.
Qed.

Lemma is_zero_Num (x : num) : is_zero x -> exists q, x = Num q /\ (q == 0)%Q.
Proof. destruct x as [| |q]; simpl; try contradiction. intros Hq. now exists q. Qed.

(** A norm accumulated over zero components stays 0. *)
Lemma cosine_fold_normA_zero (a b : list num) (idxs : list nat) dot (x : Q) normB :
  (forall i, In i idxs -> is_zero (js_get a i)) -> (x == 0)%Q ->
  exists dot' x' normB',
    fold_left (cosine_step a b) idxs (dot, Num x, normB) = (dot', Num x', normB')
    /\ (x' == 0)%Q.
Proof.
  revert dot x normB. induction idxs as [|i idxs IH]; intros dot x normB Hz Hx.
  - exists dot, x, normB. auto.
  - simpl. destruct (is_zero_Num _ (Hz i (or_introl eq_refl))) as [q [-> Hq]].
    simpl. apply IH.
    + intros j Hj. apply Hz. now right.
    + rewrite Hx, Hq. ring.
Qed.

Lemma cosine_fold_normB_zero (a b : list num) (idxs : list nat) dot normA (x : Q) :
  (forall i, In i idxs -> is_zero (js_get b i)) -> (x == 0)%Q ->
  exists dot' normA' x',
    fold_left (cosine_step a b) idxs (dot, normA, Num x) = (dot', normA', Num x')
    /\ (x' == 0)%Q.
Proof.
  revert dot normA x. induction idxs as [|i idxs IH]; intros dot normA x Hz Hx.
  - exists dot, normA, x. auto.
  - simpl. destruct (is_zero_Num _ (Hz i (or_introl eq_refl))) as [q [-> Hq]].
    simpl. apply IH.
    + intros j Hj. apply Hz. now right.
    + rewrite Hx, Hq. ring.
Qed.

Lemma eq_zero_Num (x : Q) : (x == 0)%Q -> JsNum.eq (Num x) (Num 0) = true.
Proof.
  intros Hx. unfold JsNum.eq. simpl.
  destruct (Qcompare_spec x 0); [reflexivity | lra | lra].
Qed.

Lemma cosine_zero_left (a b : list num) :
  List.Forall is_zero a -> cosine a b = Num 0.
Proof.
  intros Ha. unfold cosine.
  destruct (cosine_fold_normA_zero a b (seq 0 (length a)) (Num 0) 0 (Num 0))
    as (dot & x & normB & -> & Hx); [|reflexivity|].
  - intros i Hi. apply in_seq in Hi. apply js_get_in; [lia | exact Ha].
  - now rewrite eq_zero_Num.
Qed.

Lemma cosine_zero_right (a b : list num) :
  (length a <= length b)%nat -> List.Forall is_zero b -> cosine a b = Num 0.
Proof.
  intros Hlen Hb. unfold cosine.
  destruct (cosine_fold_normB_zero a b (seq 0 (length a)) (Num 0) (Num 0) 0)
    as (dot & normA & x & -> & Hx); [|reflexivity|].
  - intros i Hi. apply in_seq in Hi. apply js_get_in; [lia | exact Hb].
  - rewrite (eq_zero_Num x Hx). now rewrite orb_true_r.
Qed.

(** X2: the cosine is 0 when the first vector is all zeros, whatever the
    second one holds, and when the second one is all zeros and not
    shorter than the first. *)
Theorem cosine_of_zero_vector (a b : list num) :
  (List.Forall is_zero a -> cosine a b = Num 0)
  /\ ((length a <= length b)%nat -> List.Forall is_zero b -> cosine a b = Num 0).
Proof. split; [apply cosine_zero_left | apply cosine_zero_right]. Qed.

(** A query of zeros finds nothing. *)
Lemma search_zero_query (q : list num) (topN : nat) (accept : option string)
    (all : list VectorRecord) :
  List.Forall is_zero q -> search q topN accept all = [].
Proof.
  intros Hq. destruct (search q topN accept all) as [|res l] eqn:E; [reflexivity|].
  assert (Hin : In res (search q topN accept all)) by (rewrite E; now left).
  apply search_In in Hin as (_ & Hs & Hp).
  rewrite Hs, (cosine_zero_left q _ Hq) in Hp. discriminate.
Qed.

(** Without an index where both vectors are non-zero the dot product
    stays where it is. *)
Lemma cosine_fold_common (a b : list num) (idxs : list nat) (d na nb : Q) :
  (forall i, In i idxs -> finite (js_get a i) /\ finite (js_get b i)) ->
  exists d' na' nb',
    fold_left (cosine_step a b) idxs (Num d, Num na, Num nb)
    = (Num d', Num na', Num nb')
    /\ ((d' == d)%Q
        \/ exists i, In i idxs /\ ~ is_zero (js_get a i) /\ ~ is_zero (js_get b i)).
Proof.
  revert d na nb. induction idxs as [|i idxs IH]; intros d na nb Hfin.
  - exists d, na, nb. split; [reflexivity | left; reflexivity].
  - destruct (Hfin i (or_introl eq_refl)) as [Ha Hb]. simpl.
    destruct (js_get a i) as [| |x] eqn:Ea; try contradiction.
    destruct (js_get b i) as [| |y] eqn:Eb; try contradiction. simpl.
    destruct (IH (d + x * y)%Q (na + x * x)%Q (nb + y * y)%Q)
      as (d' & na' & nb' & Hfold & Hd).
    { intros j Hj. apply Hfin. now right. }
    exists d', na', nb'. split; [exact Hfold|].
    destruct Hd as [Hd|(j & Hj & Hja & Hjb)].
    + destruct (Qeq_dec x 0) as [Hx|Hx].
      * left. rewrite Hd, Hx. ring.
      * destruct (Qeq_dec y 0) as [Hy|Hy].
        -- left. rewrite Hd, Hy. ring.
        -- right. exists i. rewrite Ea, Eb. simpl. auto.
    + right. exists j. auto.
Qed.

Lemma cosine_positive_common (a b : list num) :
  List.Forall finite a -> List.Forall finite b ->
  JsNum.gt (cosine a b) (Num 0) = true ->
  exists i, (i < length a)%nat /\ (i < length b)%nat
            /\ ~ is_zero (js_get a i) /\ ~ is_zero (js_get b i).
Proof.
  intros Ha Hb Hpos.
  destruct (Nat.le_gt_cases (length a) (length b)) as [Hlen|Hlen];
    [|now rewrite cosine_shorter in Hpos].
  unfold cosine in Hpos.
  destruct (cosine_fold_common a b (seq 0 (length a)) 0 0 0)
    as (d & na & nb & Hfold & Hd).
  { intros i Hi. apply in_seq in Hi. split; apply js_get_in; auto; lia. }
  rewrite Hfold in Hpos. destruct Hd as [Hd|(i & Hi & Hia & Hib)].
  - exfalso. destruct (_ || _); [discriminate|].
    destruct (JsNum.mul (nsqrt (Num na)) (nsqrt (Num nb))) as [| |y];
      simpl in Hpos; try discriminate.
    destruct (Qeq_bool y 0) eqn:Ey.
    + destruct (Qcompare_spec d 0); try discriminate; lra.
    + apply JsNumFacts.gt_Num in Hpos. rewrite Hd in Hpos.
      unfold Qdiv in Hpos. lra.
  - apply in_seq in Hi. exists i. repeat split; auto; lia.
Qed.

(** X3: when the query and a stored vector hold finite numbers only, the
    record is returned by [search] only if some index carries a non-zero
    component in both. *)
Theorem search_result_shares_component (q : list num) (topN : nat)
    (accept : option string) (all : list VectorRecord) (res : SearchResult) :
  In res (search q topN accept all) ->
  List.Forall finite q -> List.Forall finite (vector (record res)) ->
  exists i, (i < length q)%nat /\ (i < length (vector (record res)))%nat
            /\ ~ is_zero (js_get q i)
            /\ ~ is_zero (js_get (vector (record res)) i).
Proof.
  intros Hres Hq Hv. apply search_In in Hres as (_ & Hs & Hp).
  rewrite Hs in Hp. now apply cosine_positive_common.
Qed.
End CosineMore.

(** The theorem at a zero query against a stored vector, and at a query
    against a stored vector of zeros. *)
Lemma cosine_of_zero_vector_witness :
  @cosine sample_runtime [Num 0; Num 0] [Num 3; NaN; Num 4] = Num 0
  /\ @cosine sample_runtime [Num 3; Num 4] [Num 0; Num 0; Num 0] = Num 0.
Proof.
  assert (Hz2 : List.Forall is_zero [Num 0; Num 0])
    by (repeat constructor; reflexivity).
  assert (Hz3 : List.Forall is_zero [Num 0; Num 0; Num 0])
    by (repeat constructor; reflexivity).
  split.
  - exact (proj1 (@cosine_of_zero_vector sample_runtime _ _) Hz2).
  - refine (proj2 (@cosine_of_zero_vector sample_runtime _ _) _ Hz3).
    simpl. lia.
Defined.

(** The theorem at the query [query_2d] and the record vectorized against
    the same vocabulary. *)
Lemma search_result_shares_component_witness :
  In {| record := fresh_record; score := Num 1 |}
     (@search sample_runtime query_2d 5 None [fresh_record])
  /\ exists i, (i < length query_2d)%nat /\ (i < length (vector fresh_record))%nat
               /\ ~ is_zero (js_get query_2d i)
               /\ ~ is_zero (js_get (vector fresh_record) i).
Proof.
  assert (Hin : In {| record := fresh_record; score := Num 1 |}
                   (@search sample_runtime query_2d 5 None [fresh_record]))
    by (left; vm_compute; reflexivity).
  split; [exact Hin|].
  apply (@search_result_shares_component sample_runtime query_2d 5 None
           [fresh_record] _ Hin); repeat constructor.
Defined.

(** ** Dense search *)

Section DenseFacts.
Context `{Runtime}.

Lemma denseSearch_In (q : list num) (topN : nat) (accept : option string)
    (all : list VectorRecord) (res : SearchResult) :
  In res (denseSearch q topN accept all) ->
  In (record res) (List.filter has_dense all)
  /\ score res = cosine q (default [] (denseVector (record res)))
  /\ JsNum.gt (score res) (Num 0) = true.
Proof.
  unfold denseSearch. destruct (length _ =? 0)%nat; [intros []|].
  intros Hres. apply List.filter_In in Hres as [Hres Hpos].
  assert (Hin : In res (js_sort (key_desc score)
                          (map (dense_scored q)
                               (candidates_of accept (List.filter has_dense all))))).
  { rewrite <- (firstn_skipn topN). apply in_or_app. left. exact Hres. }
  apply js_sort_In, in_map_iff in Hin as [r [<- Hr]].
  simpl. split; [|auto]. now apply candidates_of_incl in Hr.
Qed.

(** X4: [denseSearch] returns nothing when no stored record carries a
    dense vector; otherwise at most [topN] results, each a stored record
    with a non-empty dense vector, none taken twice, scored by the cosine
    of the query and that dense vector, the score being positive.  The
    sparse vector of a record plays no part. *)
Theorem denseSearch_results (q : list num) (topN : nat)
    (accept : option string) (all : list VectorRecord) :
  (List.Forall (fun r => has_dense r = false) all ->
   denseSearch q topN accept all = [])
  /\ (length (denseSearch q topN accept all) <= topN)%nat
  /\ map record (denseSearch q topN accept all) ⊆+ List.filter has_dense all
  /\ List.Forall
       (fun res =>
          exists d, denseVector (record res) = Some d
                    /\ (0 < length d)%nat
                    /\ In (record res) all
                    /\ score res = cosine q d
                    /\ JsNum.gt (score res) (Num 0) = true)
       (denseSearch q topN accept all).
Proof.
  split; [|split; [|split]].
  - intros Hnone. unfold denseSearch.
    assert (E : List.filter has_dense all = []).
    { induction Hnone as [|r l Hr _ IH]; simpl; [reflexivity|]. now rewrite Hr. }
    now rewrite E.
  - unfold denseSearch. destruct (length _ =? 0)%nat; [simpl; lia|].
    etransitivity; [apply List.filter_length_le | apply firstn_le_length].
  - unfold denseSearch. destruct (length _ =? 0)%nat; [apply submseteq_nil_l|].
    change by_score_desc with (key_desc score).
    etransitivity.
    + apply (fmap_submseteq record). apply ranked_submseteq.
    + change (map record (map (dense_scored q)
                (candidates_of accept (List.filter has_dense all)))
              ⊆+ List.filter has_dense all).
      rewrite map_map. simpl. rewrite map_id. apply candidates_of_submseteq.
  - apply List.Forall_forall. intros res Hres.
    apply denseSearch_In in Hres as (Hin & Hs & Hp).
    apply List.filter_In in Hin as [Hin Hd]. unfold has_dense in Hd.
    destruct (denseVector (record res)) as [d|] eqn:E; [|discriminate].
    exists d. apply Nat.ltb_lt in Hd. auto.
Qed.

End DenseFacts.

(** The theorem at a store without any dense vector. *)
Lemma denseSearch_results_witness :
  List.Forall (fun r => has_dense r = false) [fresh_record; stale_long_record]
  /\ @denseSearch sample_runtime [Num 1; Num 0; Num 0] 5 None
       [fresh_record; stale_long_record] = [].
Proof.
  assert (Hnone : List.Forall (fun r => has_dense r = false)
                    [fresh_record; stale_long_record])
    by (repeat constructor).
  split; [exact Hnone|].
  exact (proj1 (@denseSearch_results sample_runtime [Num 1; Num 0; Num 0] 5 None
                  [fresh_record; stale_long_record]) Hnone).
Defined.


(** ** Path memory *)

Lemma filter_ne_id (p : string) (l : list string) :
  ~ In p l -> List.filter (fun x => negb (String.eqb x p)) l = l.
Proof.
  induction l as [|y l IH]; simpl; [reflexivity|]. intros Hn.
  destruct (String.eqb_spec y p) as [->|_]; simpl.
  - exfalso. apply Hn. now left.
  - f_equal. apply IH. intros Hin. apply Hn. now right.
Qed.

(** On a list without duplicates, removing the element at [indexOf]
    removes the path altogether. *)
Lemma splice_indexOf (p : string) (l : list string) :
  List.NoDup l ->
  match indexOf p l with Some idx => delete idx l | None => l end
  = List.filter (fun x => negb (String.eqb x p)) l.
Proof.
  induction 1 as [|y l Hy Hl IH]; simpl; [reflexivity|].
  destruct (String.eqb_spec y p) as [->|Hne]; simpl.
  - symmetry. now apply filter_ne_id.
  - destruct (indexOf p l) as [idx|]; simpl; now rewrite <- IH.
Qed.

Lemma splice_indexOf_submseteq (p : string) (l : list string) :
  match indexOf p l with Some idx => delete idx l | None => l end ⊆+ l.
Proof. destruct (indexOf p l); [apply submseteq_delete | reflexivity]. Qed.

Lemma splice_indexOf_not_In (p : string) (l : list string) :
  List.NoDup l ->
  ~ In p match indexOf p l with Some idx => delete idx l | None => l end.
Proof.
  intros Hl. rewrite (splice_indexOf p l Hl). intros Hin.
  apply List.filter_In in Hin as [_ Hne].
  now rewrite String.eqb_refl in Hne.
Qed.

Lemma cap_20 (l : list string) :
  (if (20 <? length l)%nat then firstn 20 l else l) = firstn 20 l.
Proof.
  destruct (Nat.ltb_spec 20 (length l)); [reflexivity|].
  symmetry. now apply firstn_all2.
Qed.

(** The list that [saveUsedPath] reads for a host. *)
Lemma member_paths (memory : gmap string (list string)) (host : string) :
  saveUsedPath_rejects memory host = false ->
  exists old,
    getUsedPaths memory host = Some old
    /\ old = default [] (memory !! host)
    /\ forall filePath,
         saveUsedPath memory host filePath
         = <[host := firstn 20
                       (filePath ::
                        match indexOf filePath old with
                        | Some idx => delete idx old
                        | None => old
                        end)]> memory.
Proof.
  unfold saveUsedPath_rejects, getUsedPaths, saveUsedPath, member.
  destruct (memory !! host) as [old|]; [|destruct (inherited host)];
    intros Hrej; try discriminate.
  - exists old. split; [reflexivity|]. split; [reflexivity|].
    intros filePath. now rewrite cap_20.
  - exists []. split; [reflexivity|]. split; [reflexivity|].
    intros filePath. reflexivity.
Qed.

Lemma rejects_after_save (memory : gmap string (list string))
    (host filePath : string) :
  saveUsedPath_rejects memory host = false ->
  saveUsedPath_rejects (saveUsedPath memory host filePath) host = false.
Proof.
  intros Hrej. destruct (member_paths memory host Hrej) as (old & _ & _ & Hsave).
  rewrite Hsave. unfold saveUsedPath_rejects, member.
  now rewrite lookup_insert_eq.
Qed.

(** X5: [saveUsedPath] throws exactly for a host that is the name of a
    member inherited from [Object.prototype] and has no list of its own;
    it then writes nothing, and [getUsedPaths] of such a host is no list.
    For every other host, the list read after [saveUsedPath] starts with
    the saved path and has at most 20 entries; saving the same path again
    changes nothing; and when the former list had no duplicate, the new
    one is the saved path followed by the former paths other than it, in
    their order, cut to 20.  The lists of the other hosts are never
    changed. *)
Theorem saveUsedPath_most_recent_first (memory : gmap string (list string))
    (host filePath : string) :
  (saveUsedPath_rejects memory host = true
   <-> inherited host = true /\ memory !! host = None)
  /\ (forall other, other <> host ->
        getUsedPaths (saveUsedPath memory host filePath) other
        = getUsedPaths memory other)
  /\ (saveUsedPath_rejects memory host = true ->
      saveUsedPath memory host filePath = memory
      /\ getUsedPaths memory host = None)
  /\ (saveUsedPath_rejects memory host = false ->
      exists old paths,
        getUsedPaths memory host = Some old
        /\ getUsedPaths (saveUsedPath memory host filePath) host = Some paths
        /\ hd_error paths = Some filePath
        /\ (length paths <= 20)%nat
        /\ saveUsedPath (saveUsedPath memory host filePath) host filePath
           = saveUsedPath memory host filePath
        /\ (List.NoDup old ->
            paths = firstn 20
                      (filePath ::
                       List.filter (fun x => negb (String.eqb x filePath)) old))).
Proof.
  split; [|split; [|split]].
  - unfold saveUsedPath_rejects, member.
    destruct (memory !! host); [|destruct (inherited host)];
      split; try discriminate; try tauto; intros [? ?]; discriminate.
  - intros other Hne. unfold getUsedPaths, saveUsedPath, member at 1 3.
    destruct (member memory host); try reflexivity;
      now rewrite lookup_insert_ne by congruence.
  - unfold saveUsedPath_rejects, saveUsedPath, getUsedPaths.
    destruct (member memory host); try discriminate. auto.
  - intros Hrej. destruct (member_paths memory host Hrej) as (old & Hold & _ & Hsave).
    exists old. eexists. split; [exact Hold|].
    assert (Hnew : getUsedPaths (saveUsedPath memory host filePath) host
                   = Some (firstn 20
                             (filePath ::
                              match indexOf filePath old with
                              | Some idx => delete idx old
                              | None => old
                              end))).
    { rewrite Hsave. unfold getUsedPaths, member. now rewrite lookup_insert_eq. }
    split; [exact Hnew|]. split; [reflexivity|]. split; [apply firstn_le_length|].
    split.
    + pose proof (rejects_after_save memory host filePath Hrej) as Hrej'.
      destruct (member_paths _ host Hrej') as (old' & Hold' & _ & Hsave').
      rewrite Hsave'. rewrite Hnew in Hold'. injection Hold' as <-.
      rewrite Hsave, insert_insert_eq. f_equal.
      cbn [firstn indexOf]. rewrite String.eqb_refl. cbn [delete list_delete].
      cbn [firstn]. f_equal. apply firstn_firstn.
    + intros Hnd. now rewrite (splice_indexOf filePath _ Hnd).
Qed.

(** The theorem at a memory that holds the saved path in second place,
    and at the host [constructor]. *)
Lemma saveUsedPath_most_recent_first_witness :
  saveUsedPath_rejects sample_memory "jobs.example.com" = false
  /\ getUsedPaths (saveUsedPath sample_memory "jobs.example.com" "docs/cv.pdf")
       "jobs.example.com"
     = Some ["docs/cv.pdf"; "docs/resume.pdf"]%string
  /\ saveUsedPath_rejects sample_memory "constructor" = true
  /\ saveUsedPath sample_memory "constructor" "docs/cv.pdf" = sample_memory.
Proof.
  assert (Hok : saveUsedPath_rejects sample_memory "jobs.example.com" = false)
    by (vm_compute; reflexivity).
  assert (Hrej : saveUsedPath_rejects sample_memory "constructor" = true)
    by (vm_compute; reflexivity).
  split; [exact Hok|]. split; [|split; [exact Hrej|]].
  - destruct (saveUsedPath_most_recent_first sample_memory "jobs.example.com"
                "docs/cv.pdf") as (_ & _ & _ & Hlist).
    destruct (Hlist Hok) as (old & paths & Hold & Hnew & _ & _ & _ & Heq).
    rewrite Hnew. f_equal.
    assert (E : old = ["docs/resume.pdf"; "docs/cv.pdf"]%string).
    { assert (Hc : getUsedPaths sample_memory "jobs.example.com"
                   = Some ["docs/resume.pdf"; "docs/cv.pdf"]%string)
        by (vm_compute; reflexivity).
      congruence. }
    subst old. rewrite Heq; [reflexivity|].
    repeat constructor; simpl; intuition discriminate.
  - exact (proj1 (proj1 (proj2 (proj2 (saveUsedPath_most_recent_first
                    sample_memory "constructor" "docs/cv.pdf"))) Hrej)).
Defined.

(** X6: [saveUsedPath] keeps every remembered list free of duplicates and
    within 20 entries, as the empty memory is. *)
Theorem saveUsedPath_keeps_memory_ok (memory : gmap string (list string))
    (host filePath : string) :
  path_memory_ok memory ->
  path_memory_ok (saveUsedPath memory host filePath) /\ path_memory_ok ∅.
Proof.
  intros Hok. split; [|intros h l Hl; now rewrite lookup_empty in Hl].
  destruct (saveUsedPath_rejects memory host) eqn:Hrej.
  { unfold saveUsedPath_rejects in Hrej. unfold saveUsedPath.
    destruct (member memory host); try discriminate. exact Hok. }
  destruct (member_paths memory host Hrej) as (old & _ & Hdef & Hsave).
  rewrite Hsave. intros h l Hl. destruct (decide (h = host)) as [->|Hne].
  - rewrite lookup_insert_eq in Hl.
    assert (E : l = firstn 20
                      (filePath ::
                       match indexOf filePath old with
                       | Some idx => delete idx old
                       | None => old
                       end)) by congruence.
    rewrite E. clear E Hl.
    split; [|apply firstn_le_length].
    assert (Hold : List.NoDup old).
    { subst old. destruct (memory !! host) as [old|] eqn:Eo; simpl.
      - now apply (Hok host old).
      - constructor. }
    eapply submseteq_ListNoDup; [apply submseteq_take|].
    constructor; [now apply splice_indexOf_not_In|].
    eapply submseteq_ListNoDup; [apply splice_indexOf_submseteq | exact Hold].
  - rewrite lookup_insert_ne in Hl by congruence.
    now apply (Hok h l).
Qed.

(** The theorem at the sample memory. *)
Lemma saveUsedPath_keeps_memory_ok_witness :
  path_memory_ok sample_memory
  /\ path_memory_ok (saveUsedPath sample_memory "jobs.example.com" "docs/cv.pdf").
Proof.
  assert (Hok : path_memory_ok sample_memory).
  { intros h l Hl. unfold sample_memory in Hl.
    destruct (decide (h = "jobs.example.com"%string)) as [->|Hne].
    - rewrite lookup_insert_eq in Hl. injection Hl as <-.
      split; [|simpl; lia].
      repeat constructor; simpl; intuition discriminate.
    - rewrite lookup_insert_ne, lookup_empty in Hl by congruence. discriminate. }
  split; [exact Hok|].
  exact (proj1 (saveUsedPath_keeps_memory_ok sample_memory "jobs.example.com"
                  "docs/cv.pdf" Hok)).
Defined.

(** ** Upload history store *)

Lemma firstn_app_full {A : Type} (n : nat) (l k : list A) :
  (n <= length l)%nat -> firstn n (l ++ k) = firstn n l.
Proof.
  intros Hn. rewrite firstn_app.
  replace (n - length l)%nat with 0%nat by lia. simpl. apply app_nil_r.
Qed.

Lemma getHistoryByHost_positive (store : list UploadHistoryEntry)
    (host : string) (limit : nat) :
  (0 < limit)%nat ->
  getHistoryByHost store host limit = firstn limit (rows_of_host store host).
Proof.
  intros Hpos. unfold getHistoryByHost, rows_of_host.
  destruct (Nat.eqb_spec limit 0); [lia | reflexivity].
Qed.


Lemma getHistoryByHost_add_full (store : list UploadHistoryEntry)
    (entry : UploadHistoryEntry) (host : string) (limit : nat) :
  (0 < limit)%nat ->
  (limit <= length (rows_of_host store host))%nat ->
  getHistoryByHost (addUploadHistory entry store) host limit
  = getHistoryByHost store host limit.
Proof.
  intros Hpos Hfull. rewrite !getHistoryByHost_positive by exact Hpos.
  unfold rows_of_host, addUploadHistory.
  rewrite List.filter_app. now apply firstn_app_full.
Qed.



(** X8: once a host has 50 history rows, an upload recorded later leaves
    the rows [handleMatch] ranks with unchanged, hence its answer too. *)
Theorem handleMatch_ignores_uploads_past_limit `{Runtime} (V : Vocab)
    (all : list VectorRecord) (store : list UploadHistoryEntry)
    (entry : UploadHistoryEntry) (pageHost : string) (now : Z)
    (req : MatchRequest) :
  (HISTORY_LIMIT <= length (rows_of_host store pageHost))%nat ->
  pageHistory (addUploadHistory entry store) pageHost = pageHistory store pageHost
  /\ handleMatch V all (pageHistory (addUploadHistory entry store) pageHost) now req
     = handleMatch V all (pageHistory store pageHost) now req.
Proof.
  intros Hfull.
  assert (E : pageHistory (addUploadHistory entry store) pageHost
              = pageHistory store pageHost).
  { unfold pageHistory. destruct (JsString.truthy pageHost); [|reflexivity].
    apply getHistoryByHost_add_full; [unfold HISTORY_LIMIT; lia | exact Hfull]. }
  split; [exact E | now rewrite E].
Qed.

(** The theorem at the store of fifty rows and the sample corpus. *)
Lemma handleMatch_ignores_uploads_past_limit_witness :
  (HISTORY_LIMIT <= length (rows_of_host full_history "jobs.example.com"))%nat
  /\ @handleMatch sample_runtime sample_vocab sample_corpus
       (pageHistory
          (addUploadHistory (mk_entry "img/passport.jpg" 172800000) full_history)
          "jobs.example.com") 950400000 resume_request
     = @handleMatch sample_runtime sample_vocab sample_corpus
         (pageHistory full_history "jobs.example.com") 950400000 resume_request.
Proof.
  assert (Hfull : (HISTORY_LIMIT
                   <= length (rows_of_host full_history "jobs.example.com"))%nat)
    by (vm_compute; lia).
  split; [exact Hfull|].
  exact (proj2 (@handleMatch_ignores_uploads_past_limit sample_runtime
                  sample_vocab sample_corpus full_history
                  (mk_entry "img/passport.jpg" 172800000) "jobs.example.com"
                  950400000 resume_request Hfull)).
Defined.

(** ** The answer of [handleMatch]: where it comes from, how large *)

Lemma historyCountOf_rows (history : list UploadHistoryEntry) (rid : string) :
  historyCountOf history rid
  = length (List.filter (fun h => String.eqb (fileId h) rid) history).
Proof.
  unfold historyCountOf. rewrite historyMap_lookup. unfold matching_timestamps.
  rewrite <- (length_map timestamp).
  now destruct (map timestamp _).
Qed.

Lemma historyBoost_unit (history : list UploadHistoryEntry) (now : Z)
    (rid : string) :
  List.Forall (fun h => (timestamp h <= now)%Z) history ->
  exists b, historyBoost history now rid = Num b /\ (0 <= b <= 1)%Q.
Proof.
  intros Hpast. unfold historyBoost. rewrite historyMap_lookup.
  destruct (matching_timestamps history rid) as [|t rest] eqn:E.
  - exists 0%Q. split; [reflexivity | lra].
  - destruct (latest_is_max (t :: rest) _ eq_refl) as [Hin _].
    rewrite <- E in Hin. unfold matching_timestamps in Hin.
    apply in_map_iff in Hin as [h [Hts Hh]].
    apply List.filter_In in Hh as [Hh _].
    rewrite List.Forall_forall in Hpast. specialize (Hpast h Hh).
    rewrite Hts in Hpast.
    destruct (decayedBoost_value now (fold_left Z.max rest t)) as [b [-> Hb]].
    exists b. split; [reflexivity|].
    pose proof (history_decay_floor now (fold_left Z.max rest t)).
    pose proof (history_decay_le_1 now (fold_left Z.max rest t) Hpast). lra.
Qed.

Lemma overlap_coefficient_unit (A B : gset string) :
  exists x, overlap_coefficient A B = Num x /\ (0 <= x <= 1)%Q.
Proof.
  unfold overlap_coefficient.
  destruct (Nat.eqb_spec (size A) 0) as [|HA].
  { exists 0%Q. split; [reflexivity | lra]. }
  destruct (Nat.eqb_spec (size B) 0) as [|HB].
  { exists 0%Q. split; [reflexivity | lra]. }
  simpl. eexists. split; [reflexivity|]. split; [apply ratio_nonneg|].
  assert (Hle : (size (A ∩ B) <= Nat.min (size A) (size B))%nat).
  { apply Nat.min_glb; apply subseteq_size;
      [apply intersection_subseteq_l | apply intersection_subseteq_r]. }
  apply Qle_shift_div_r.
  - change 0%Q with (inject_Z 0). rewrite <- Zlt_Qlt. lia.
  - rewrite Qmult_1_l, <- Zle_Qle. lia.
Qed.

Lemma folderBoost_unit (history : list UploadHistoryEntry) (p : string) :
  exists y, folderBoost history p = Num y /\ (0 <= y <= 1)%Q.
Proof.
  unfold folderBoost, folderBoostOf.
  destruct (Nat.ltb_spec 0 (totalFolderUploads history)) as [Hpos|_].
  - rewrite div_counts by exact Hpos. eexists. split; [reflexivity|].
    split; [apply ratio_nonneg|].
    pose proof (folderFreq_le_total history (folderOf p)) as Hle.
    apply Qle_shift_div_r.
    + change 0%Q with (inject_Z 0). rewrite <- Zlt_Qlt. lia.
    + rewrite Qmult_1_l, <- Zle_Qle. lia.
  - exists 0%Q. split; [reflexivity | lra].
Qed.

Section AnswerFacts.
Context `{Runtime}.

Lemma search_nil (q : list num) (topN : nat) (accept : option string) :
  search q topN accept [] = [].
Proof.
  pose proof (search_records_submseteq q topN accept []) as Hsub.
  apply submseteq_nil_r in Hsub. now destruct (search q topN accept []).
Qed.

Lemma allRecords_submseteq (V : Vocab) (all : list VectorRecord)
    (req : MatchRequest) :
  map record (allRecords V all req) ⊆+ all.
Proof.
  unfold allRecords. destruct (tfidfUseful _).
  - unfold tfidfResults. destruct (0 <? _)%nat;
      [apply search_records_submseteq | apply submseteq_nil_l].
  - unfold fallback_records. rewrite map_map. simpl. now rewrite map_id.
Qed.

Lemma handleMatch_In (V : Vocab) (all : list VectorRecord)
    (history : list UploadHistoryEntry) (now : Z) (req : MatchRequest)
    (item : MatchResultItem) :
  In item (handleMatch V all history now req) ->
  exists r, In r (allRecords V all req)
            /\ item = to_item (blend (tfidfUseful (tfidfResults V all req))
                                     history now (context req) r)
            /\ JsNum.gt (item_score item) (Num 0) = true.
Proof.
  unfold handleMatch, top_ranked. intros Hitem.
  apply in_map_iff in Hitem as [x [<- Hx]].
  apply List.filter_In in Hx as [Hx Hpos].
  assert (Hin : In x (js_sort (key_desc finalScore)
                        (map (blend (tfidfUseful (tfidfResults V all req))
                                    history now (context req))
                             (allRecords V all req)))).
  { rewrite <- (firstn_skipn 5). apply in_or_app. left. exact Hx. }
  apply js_sort_In, in_map_iff in Hin as [r [<- Hr]].
  exists r. auto.
Qed.

(** X9: every result of [handleMatch] is a stored record, no stored record
    is returned more often than it is stored, and nothing is returned
    from an empty store; a result carries the id, name, path and type of
    its record, and as history count the number of history rows of that
    file. *)
Theorem handleMatch_results_from_store (V : Vocab) (all : list VectorRecord)
    (history : list UploadHistoryEntry) (now : Z) (req : MatchRequest) :
  map item_id (handleMatch V all history now req) ⊆+ map id all
  /\ (all = [] -> handleMatch V all history now req = [])
  /\ List.Forall
       (fun item =>
          exists r, In r all
                    /\ item_id item = id r /\ item_name item = name r
                    /\ item_path item = path r /\ item_type item = type r
                    /\ item_historyCount item
                       = length (List.filter
                                   (fun h => String.eqb (fileId h) (id r)) history))
       (handleMatch V all history now req).
Proof.
  assert (Hsub : map item_id (handleMatch V all history now req) ⊆+ map id all).
  { unfold handleMatch, top_ranked. rewrite map_map. simpl.
    change by_final_desc with (key_desc finalScore).
    etransitivity.
    - apply (fmap_submseteq (fun r => id (ranked_record r))).
      apply ranked_submseteq.
    - change (map (fun r => id (ranked_record r))
                (map (blend (tfidfUseful (tfidfResults V all req)) history now
                        (context req)) (allRecords V all req))
              ⊆+ map id all).
      rewrite map_map. simpl. rewrite <- (map_map record id).
      apply (fmap_submseteq id), allRecords_submseteq. }
  split; [exact Hsub|]. split.
  - intros ->. simpl in Hsub. apply submseteq_nil_r in Hsub.
    now destruct (handleMatch V [] history now req).
  - apply List.Forall_forall. intros item Hitem.
    apply handleMatch_In in Hitem as (r & Hr & -> & _).
    exists (record r). simpl. repeat split; try reflexivity.
    + eapply submseteq_In; [apply allRecords_submseteq|].
      exact (in_map record _ _ Hr).
    + apply historyCountOf_rows.
Qed.

(** X10: in the fallback ranking, when no history row is dated after
    [now], every returned score is at most 1. *)
Theorem handleMatch_fallback_score_at_most_one (V : Vocab)
    (all : list VectorRecord) (history : list UploadHistoryEntry) (now : Z)
    (req : MatchRequest) :
  low_signal V all req ->
  List.Forall (fun h => (timestamp h <= now)%Z) history ->
  List.Forall (fun item => JsNum.le (item_score item) (Num 1) = true)
    (handleMatch V all history now req).
Proof.
  intros Hlow Hpast. apply List.Forall_forall. intros item Hitem.
  apply handleMatch_In in Hitem as (r & Hr & -> & _).
  rewrite (low_signal_not_useful V all req Hlow) in Hr.
  assert (Hu : tfidfUseful (tfidfResults V all req) = false).
  { destruct Hlow as [Hle|Hq].
    - now apply tfidfUseful_false_of_le.
    - unfold tfidfResults. rewrite Hq. reflexivity. }
  rewrite Hu. unfold fallback_records in Hr.
  apply in_map_iff in Hr as [x [<- _]]. unfold to_item, blend. simpl.
  destruct (historyBoost_unit history now (id x) Hpast) as [b [-> Hb]].
  destruct (folderBoost_unit history (path x)) as [y [-> Hy]].
  rewrite computePathNameScore_overlap, computeContentOverlap_overlap.
  destruct (overlap_coefficient_unit
              (list_to_set (tokenizeFiltered (spaced_path (path x))))
              (list_to_set (tokenizeFiltered (context req)))) as [p [-> Hp]].
  destruct (overlap_coefficient_unit
              (list_to_set (tokenizeFiltered (textPreview x)))
              (list_to_set (tokenizeFiltered (context req)))) as [c [-> Hc]].
  destruct (JsNum.gt (Num b) (Num 0)); simpl; apply JsNumFacts.le_Num; lra.
Qed.
End AnswerFacts.

(** The bound at a request that shares no term with the vocabulary, one
    day after the last upload. *)
Lemma handleMatch_fallback_score_at_most_one_witness :
  @low_signal sample_runtime sample_vocab sample_corpus unrelated_request
  /\ List.Forall (fun h => (timestamp h <= 950400000)%Z) sample_history
  /\ List.Forall (fun item => JsNum.le (item_score item) (Num 1) = true)
       (@handleMatch sample_runtime sample_vocab sample_corpus sample_history
          950400000 unrelated_request).
Proof.
  assert (Hlow : @low_signal sample_runtime sample_vocab sample_corpus
                   unrelated_request)
    by (left; vm_compute; reflexivity).
  assert (Hpast : List.Forall (fun h => (timestamp h <= 950400000)%Z)
                    sample_history)
    by (repeat constructor; simpl; lia).
  split; [exact Hlow|]. split; [exact Hpast|].
  exact (@handleMatch_fallback_score_at_most_one sample_runtime sample_vocab
           sample_corpus sample_history 950400000 unrelated_request Hlow Hpast).
Defined.

(** ** Vocabulary *)

Lemma tf_bump_keys (t : string) (tf : list (string * nat)) :
  map fst (tf_bump t tf) = js_set_add t (map fst tf).
Proof.
  unfold js_set_add. induction tf as [|[k c] tf IH]; simpl; [reflexivity|].
  rewrite (String.eqb_sym t k). destruct (String.eqb k t); simpl; [reflexivity|].
  rewrite IH. destruct (existsb _ _); reflexivity.
Qed.

Lemma tf_get_bump (t u : string) (tf : list (string * nat)) :
  tf_get u (tf_bump t tf)
  = if String.eqb t u then Some (S (default 0%nat (tf_get t tf))) else tf_get u tf.
Proof.
  induction tf as [|[k c] tf IH]; simpl.
  - reflexivity.
  - destruct (String.eqb_spec k t) as [->|Hkt]; simpl.
    + destruct (String.eqb_spec t u); reflexivity.
    + rewrite IH. destruct (String.eqb_spec k u) as [->|Hku].
      * destruct (String.eqb_spec t u); [congruence | reflexivity].
      * reflexivity.
Qed.

Lemma existsb_eqb_In (t : string) (l : list string) :
  existsb (String.eqb t) l = true <-> In t l.
Proof.
  rewrite existsb_exists. split.
  - intros [x [Hx Heq]]. apply String.eqb_eq in Heq. now subst.
  - intros Hin. exists t. split; [exact Hin | apply String.eqb_refl].
Qed.

Lemma js_set_add_spec (t : string) (seen : list string) :
  List.NoDup seen ->
  List.NoDup (js_set_add t seen)
  /\ forall u, In u (js_set_add t seen) <-> u = t \/ In u seen.
Proof.
  intros Hnd. unfold js_set_add.
  destruct (existsb (String.eqb t) seen) eqn:E.
  - apply existsb_eqb_In in E. split; [exact Hnd|].
    intros u. split; [auto | intros [->|Hu]; assumption].
  - assert (Hnot : ~ In t seen).
    { intros Hin. apply existsb_eqb_In in Hin. congruence. }
    split.
    + apply NoDup_ListNoDup, NoDup_app. apply NoDup_ListNoDup in Hnd.
      split; [exact Hnd|]. split; [|apply NoDup_singleton].
      intros x Hx Hxt. apply list_elem_of_singleton in Hxt. subst x.
      apply list_elem_of_In in Hx. contradiction.
    + intros u. rewrite in_app_iff. simpl. intuition.
Qed.

Lemma fold_set_add_spec (doc seen : list string) :
  List.NoDup seen ->
  List.NoDup (fold_left (fun seen t => js_set_add t seen) doc seen)
  /\ forall u, In u (fold_left (fun seen t => js_set_add t seen) doc seen)
               <-> In u seen \/ In u doc.
Proof.
  revert seen. induction doc as [|t doc IH]; intros seen Hnd; simpl.
  - split; [exact Hnd | intuition].
  - destruct (js_set_add_spec t seen Hnd) as [Hnd' Hin'].
    destruct (IH _ Hnd') as [Hnd'' Hin'']. split; [exact Hnd''|].
    intros u. rewrite Hin'', Hin'. intuition.
Qed.

Lemma set_of_list_spec (doc : list string) :
  List.NoDup (set_of_list doc) /\ forall u, In u (set_of_list doc) <-> In u doc.
Proof.
  destruct (fold_set_add_spec doc [] (List.NoDup_nil _)) as [Hnd Hin].
  split; [exact Hnd|]. intros u. unfold set_of_list. rewrite Hin. simpl. intuition.
Qed.

Lemma existsb_set_of_list (u : string) (doc : list string) :
  existsb (String.eqb u) (set_of_list doc) = existsb (String.eqb u) doc.
Proof.
  apply eq_true_iff_eq. rewrite !existsb_eqb_In. apply set_of_list_spec.
Qed.

Lemma tf_get_bump_all (s : list string) (df : list (string * nat)) (u : string) :
  List.NoDup s ->
  tf_get u (fold_left (fun df term => tf_bump term df) s df)
  = if existsb (String.eqb u) s
    then Some (S (default 0%nat (tf_get u df))) else tf_get u df.
Proof.
  revert df. induction s as [|t s IH]; intros df Hnd; simpl; [reflexivity|].
  apply List.NoDup_cons_iff in Hnd as [Hnot Hnd]. rewrite (IH _ Hnd).
  rewrite tf_get_bump, (String.eqb_sym u t).
  destruct (String.eqb_spec t u) as [->|Htu]; simpl; [|reflexivity].
  destruct (existsb (String.eqb u) s) eqn:E; [|reflexivity].
  apply existsb_eqb_In in E. contradiction.
Qed.

Lemma bump_all_keys (s : list string) (df : list (string * nat)) :
  List.NoDup (map fst df) ->
  List.NoDup (map fst (fold_left (fun df term => tf_bump term df) s df)).
Proof.
  revert df. induction s as [|t s IH]; intros df Hnd; simpl; [exact Hnd|].
  apply IH. rewrite tf_bump_keys. now apply js_set_add_spec.
Qed.

Lemma document_frequency_snoc (docs : list (list string)) (doc : list string) :
  document_frequency (docs ++ [doc])
  = fold_left (fun df term => tf_bump term df) (set_of_list doc)
      (document_frequency docs).
Proof. unfold document_frequency. now rewrite fold_left_app. Qed.

Lemma doc_count_snoc (u : string) (docs : list (list string)) (doc : list string) :
  doc_count u (docs ++ [doc])
  = (doc_count u docs + if existsb (String.eqb u) doc then 1 else 0)%nat.
Proof.
  unfold doc_count. rewrite List.filter_app, length_app. simpl.
  now destruct (existsb _ doc).
Qed.

Lemma document_frequency_keys (docs : list (list string)) :
  List.NoDup (map fst (document_frequency docs)).
Proof.
  induction docs as [|doc docs IH] using rev_ind.
  - constructor.
  - rewrite document_frequency_snoc. now apply bump_all_keys.
Qed.

Lemma tf_get_document_frequency (docs : list (list string)) (u : string) :
  tf_get u (document_frequency docs)
  = if (doc_count u docs =? 0)%nat then None else Some (doc_count u docs).
Proof.
  induction docs as [|doc docs IH] using rev_ind; [reflexivity|].
  rewrite document_frequency_snoc, doc_count_snoc.
  rewrite tf_get_bump_all by apply set_of_list_spec.
  rewrite existsb_set_of_list, IH.
  destruct (existsb (String.eqb u) doc).
  - destruct (Nat.eqb_spec (doc_count u docs) 0) as [->|Hne]; simpl.
    + reflexivity.
    + destruct (Nat.eqb_spec (doc_count u docs + 1) 0); [lia|].
      f_equal. lia.
  - rewrite Nat.add_0_r. reflexivity.
Qed.

Lemma doc_count_pos (u : string) (docs : list (list string)) :
  (0 < doc_count u docs)%nat <-> exists doc, In doc docs /\ In u doc.
Proof.
  unfold doc_count. split.
  - intros Hpos.
    destruct (List.filter _ docs) as [|doc l] eqn:E; [simpl in Hpos; lia|].
    assert (Hin : In doc (List.filter (fun doc => existsb (String.eqb u) doc) docs))
      by (rewrite E; now left).
    apply List.filter_In in Hin as [Hin Hu]. apply existsb_eqb_In in Hu.
    now exists doc.
  - intros [doc [Hin Hu]].
    assert (Hf : In doc (List.filter (fun doc => existsb (String.eqb u) doc) docs)).
    { apply List.filter_In. split; [exact Hin | now apply existsb_eqb_In]. }
    destruct (List.filter _ docs); [contradiction | simpl; lia].
Qed.

Lemma tf_get_In (t : string) (c : nat) (tf : list (string * nat)) :
  List.NoDup (map fst tf) -> (tf_get t tf = Some c <-> In (t, c) tf).
Proof.
  induction tf as [|[k c'] tf IH]; simpl; intros Hnd.
  - split; [discriminate | contradiction].
  - apply List.NoDup_cons_iff in Hnd as [Hnot Hnd].
    destruct (String.eqb_spec k t) as [->|Hkt].
    + split.
      * intros [= ->]. now left.
      * intros [[= ->]|Hin]; [reflexivity|].
        exfalso. apply Hnot. now apply (in_map fst) in Hin.
    + rewrite (IH Hnd). split; [auto | intros [[= ? ?]|Hin]; [congruence | exact Hin]].
Qed.

Section VocabularyFacts.
Context (Math_log : Q -> Q).

Lemma vocab_fold_snoc (N : nat) (l : list (string * nat)) (e : string * nat) :
  fold_left (vocab_step Math_log N) (l ++ [e]) (empty_vocab, 0%nat)
  = vocab_step Math_log N
      (fold_left (vocab_step Math_log N) l (empty_vocab, 0%nat)) e.
Proof. now rewrite fold_left_app. Qed.

(** The state of the second loop of [buildVocabulary] after the entries
    [l] of [df]. *)
Lemma vocab_fold_spec (N : nat) (l : list (string * nat)) :
  List.NoDup (map fst l) ->
  let st := fold_left (vocab_step Math_log N) l (empty_vocab, 0%nat) in
  snd st = length l
  /\ size (vocabulary (fst st)) = length l
  /\ (forall t i, vocabulary (fst st) !! t = Some i <-> map fst l !! i = Some t)
  /\ (forall t x, idfValues (fst st) !! t = Some x
                  <-> exists c, In (t, c) l /\ x = idf_of Math_log N c).
Proof.
  induction l as [|[k c] l IH] using rev_ind; intros Hnd st.
  - subst st. simpl. split; [reflexivity|]. split; [apply map_size_empty|].
    split; intros t x.
    + rewrite lookup_empty. split; discriminate.
    + rewrite lookup_empty. split; [discriminate | intros [? [[] _]]].
  - rewrite map_app in Hnd. simpl in Hnd.
    apply NoDup_ListNoDup, NoDup_app in Hnd as (Hnd & Hfresh & _).
    apply NoDup_ListNoDup in Hnd.
    assert (Hk : ~ In k (map fst l)).
    { intros Hin. apply list_elem_of_In in Hin.
      apply (Hfresh k Hin). now left. }
    destruct (IH Hnd) as (Hidx & Hsize & Hvoc & Hidf). clear IH.
    subst st. rewrite vocab_fold_snoc.
    set (st := fold_left (vocab_step Math_log N) l (empty_vocab, 0%nat)) in *.
    unfold vocab_step. cbn [fst snd vocabulary idfValues].
    rewrite length_app. simpl.
    assert (Hnone : vocabulary (fst st) !! k = None).
    { destruct (vocabulary (fst st) !! k) as [i|] eqn:E; [|reflexivity].
      apply Hvoc in E. exfalso. apply Hk, list_elem_of_In.
      eapply list_elem_of_lookup_2. exact E. }
    split; [lia|]. split; [rewrite map_size_insert_None by exact Hnone; lia|].
    split.
    + intros t i. rewrite lookup_insert_Some, map_app, Hvoc. simpl. split.
      * intros [[<- <-]|[Hne Hl]].
        -- rewrite Hidx, lookup_app_r by (rewrite length_map; lia).
           rewrite length_map, Nat.sub_diag. reflexivity.
        -- rewrite lookup_app_l; [exact Hl|].
           now apply lookup_lt_Some in Hl.
      * intros Hl. apply lookup_app_Some in Hl as [Hl|[Hge Hl]].
        -- right. split; [|exact Hl]. intros <-.
           apply Hk, list_elem_of_In. eapply list_elem_of_lookup_2. exact Hl.
        -- left. rewrite length_map in Hge, Hl.
           destruct (i - length l)%nat as [|n] eqn:E; [|destruct n; discriminate].
           simpl in Hl. injection Hl as <-. split; [reflexivity | lia].
    + intros t x. rewrite lookup_insert_Some, Hidf. split.
      * intros [[<- <-]|[Hne [c' [Hin ->]]]].
        -- exists c. split; [apply in_or_app; right; now left | reflexivity].
        -- exists c'. split; [apply in_or_app; now left | reflexivity].
      * intros [c' [Hin ->]]. apply in_app_or in Hin as [Hin|[[= <- <-]|[]]].
        -- right. split.
           ++ intros <-. apply Hk. now apply (in_map fst) in Hin.
           ++ now exists c'.
        -- now left.
Qed.

Lemma buildVocabulary_lookup (docs : list (list string)) (t : string) (i : nat) :
  vocabulary (buildVocabulary Math_log docs) !! t = Some i
  <-> map fst (document_frequency docs) !! i = Some t.
Proof.
  apply (vocab_fold_spec (length docs) (document_frequency docs)
           (document_frequency_keys docs)).
Qed.

Lemma buildVocabulary_size (docs : list (list string)) :
  size (vocabulary (buildVocabulary Math_log docs))
  = length (document_frequency docs).
Proof.
  apply (vocab_fold_spec (length docs) (document_frequency docs)
           (document_frequency_keys docs)).
Qed.

Lemma buildVocabulary_in_range (docs : list (list string)) :
  vocab_in_range (buildVocabulary Math_log docs).
Proof.
  intros t i Hi. rewrite buildVocabulary_size.
  apply buildVocabulary_lookup, lookup_lt_Some in Hi.
  now rewrite length_map in Hi.
Qed.

Lemma buildVocabulary_idf_lookup (docs : list (list string)) (t : string) :
  idfValues (buildVocabulary Math_log docs) !! t
  = if (doc_count t docs =? 0)%nat then None
    else Some (idf_of Math_log (length docs) (doc_count t docs)).
Proof.
  pose proof (vocab_fold_spec (length docs) (document_frequency docs)
                (document_frequency_keys docs)) as (_ & _ & _ & Hidf).
  pose proof (tf_get_document_frequency docs t) as Hget.
  fold (buildVocabulary Math_log docs) in Hidf.
  destruct (Nat.eqb_spec (doc_count t docs) 0) as [Hz|Hnz].
  - destruct (idfValues (buildVocabulary Math_log docs) !! t) as [x|] eqn:E;
      [|reflexivity].
    apply Hidf in E as [c [Hin _]].
    apply tf_get_In in Hin; [congruence | apply document_frequency_keys].
  - apply Hidf. exists (doc_count t docs). split; [|reflexivity].
    apply tf_get_In; [apply document_frequency_keys | exact Hget].
Qed.

Lemma buildVocabulary_finite (docs : list (list string)) :
  vocab_finite (buildVocabulary Math_log docs).
Proof.
  intros t x Hx. rewrite buildVocabulary_idf_lookup in Hx.
  destruct (doc_count t docs =? 0)%nat; [discriminate|].
  injection Hx as <-. exact I.
Qed.

(** X11: [buildVocabulary] numbers the distinct terms of the corpus: a term
    has an index exactly when it occurs in a document, the indices are
    below the vocabulary size, no two terms share an index and every
    number below the size is the index of a term. *)
Theorem buildVocabulary_numbers_terms (docs : list (list string)) :
  let V := buildVocabulary Math_log docs in
  (forall t, is_Some (vocabulary V !! t) <-> exists doc, In doc docs /\ In t doc)
  /\ vocab_in_range V
  /\ (forall t u i, vocabulary V !! t = Some i -> vocabulary V !! u = Some i -> t = u)
  /\ (forall i, (i < size (vocabulary V))%nat ->
                exists t, vocabulary V !! t = Some i).
Proof.
  intros V. subst V. split; [|split; [apply buildVocabulary_in_range|split]].
  - intros t. rewrite <- doc_count_pos.
    pose proof (tf_get_document_frequency docs t) as Hget.
    pose proof (document_frequency_keys docs) as Hnd. split.
    + intros [i Hi]. apply buildVocabulary_lookup in Hi.
      apply list_elem_of_lookup_2, list_elem_of_In, in_map_iff in Hi
        as [[k c] [Hk Hin]].
      simpl in Hk. subst k. apply tf_get_In in Hin; [|exact Hnd].
      rewrite Hin in Hget.
      destruct (Nat.eqb_spec (doc_count t docs) 0); [discriminate | lia].
    + intros Hpos.
      destruct (Nat.eqb_spec (doc_count t docs) 0) as [|_]; [lia|].
      apply tf_get_In in Hget; [|exact Hnd].
      apply (in_map fst), list_elem_of_In, list_elem_of_lookup_1 in Hget
        as [i Hi].
      exists i. now apply buildVocabulary_lookup.
  - intros t u i Ht Hu. apply buildVocabulary_lookup in Ht, Hu. congruence.
  - intros i Hi. rewrite buildVocabulary_size in Hi.
    destruct (lookup_lt_is_Some_2 (map fst (document_frequency docs)) i)
      as [t Ht]; [now rewrite length_map|].
    exists t. now apply buildVocabulary_lookup.
Qed.

(** X12: the IDF that [buildVocabulary] stores for a term is
    [log((N + 1) / (n + 1)) + 1], with [N] the number of documents and
    [n] the number of documents in which the term occurs, however often
    it occurs in each; it stores none for a term of no document, and [n]
    never exceeds [N]. *)
Theorem buildVocabulary_idf (docs : list (list string)) (t : string) :
  idfValues (buildVocabulary Math_log docs) !! t
  = (if (doc_count t docs =? 0)%nat then None
     else Some (Num (Math_log (inject_Z (Z.of_nat (length docs + 1))
                               / inject_Z (Z.of_nat (doc_count t docs + 1)))
                     + 1)%Q))
  /\ (doc_count t docs <= length docs)%nat.
Proof.
  split; [apply buildVocabulary_idf_lookup | apply List.filter_length_le].
Qed.
End VocabularyFacts.

(** ** Vectorizer *)

Lemma term_frequency_keys_from (tokens : list string) (tf : list (string * nat)) :
  map fst (fold_left (fun tf t => tf_bump t tf) tokens tf)
  = fold_left (fun seen t => js_set_add t seen) tokens (map fst tf).
Proof.
  revert tf. induction tokens as [|t tokens IH]; intros tf; simpl; [reflexivity|].
  now rewrite IH, tf_bump_keys.
Qed.

Lemma term_frequency_keys (tokens : list string) :
  map fst (term_frequency tokens) = set_of_list tokens.
Proof. apply (term_frequency_keys_from tokens []). Qed.

Lemma max_fold_Num (xs : list num) (a : Q) :
  List.Forall finite xs ->
  exists m, fold_left JsNum.max xs (Num a) = Num m /\ (a <= m)%Q.
Proof.
  revert a. induction xs as [|x xs IH]; intros a Hfin; simpl.
  - exists a. split; [reflexivity | lra].
  - apply List.Forall_cons_iff in Hfin as [Hx Hfin].
    destruct x as [| |q]; try contradiction.
    unfold JsNum.max at 2. simpl.
    destruct (Qcompare_spec a q) as [Heq|Hlt|Hgt].
    + destruct (IH a Hfin) as [m [-> Hm]]. now exists m.
    + destruct (IH q Hfin) as [m [-> Hm]]. exists m. split; [reflexivity | lra].
    + destruct (IH a Hfin) as [m [-> Hm]]. now exists m.
Qed.

Lemma maxTf_value (tf : list (string * nat)) :
  exists m,
    JsNum.Math_max (map (fun e => JsNum.of_nat (snd e)) tf ++ [Num 1]) = Num m
    /\ (1 <= m)%Q.
Proof.
  unfold JsNum.Math_max. rewrite fold_left_app. simpl.
  assert (Hinner : fold_left JsNum.max (map (fun e => JsNum.of_nat (snd e)) tf) NInf
                   = NInf
                   \/ exists m, fold_left JsNum.max
                                  (map (fun e => JsNum.of_nat (snd e)) tf) NInf
                                = Num m).
  { destruct tf as [|e tf]; [now left|]. right. simpl.
    destruct (max_fold_Num (map (fun e => JsNum.of_nat (snd e)) tf)
                (inject_Z (Z.of_nat (snd e)))) as [m [Hm _]].
    - apply List.Forall_forall. intros x Hx.
      apply in_map_iff in Hx as [? [<- _]]. exact I.
    - exists m. exact Hm. }
  destruct Hinner as [->|[m ->]].
  - exists 1%Q. split; [reflexivity | lra].
  - unfold JsNum.max. simpl.
    destruct (Qcompare_spec m 1); eexists; (split; [reflexivity | lra]).
Qed.

Lemma norm_fold_finite (vec : list num) (y : Q) :
  List.Forall finite vec -> (0 <= y)%Q ->
  exists y',
    fold_left (fun norm v => JsNum.add norm (JsNum.mul v v)) vec (Num y) = Num y'
    /\ (0 <= y')%Q.
Proof.
  revert y. induction vec as [|v vec IH]; intros y Hfin Hy; simpl.
  - now exists y.
  - apply List.Forall_cons_iff in Hfin as [Hv Hfin].
    destruct v as [| |q]; try contradiction. simpl.
    apply IH; [exact Hfin | nra].
Qed.

Lemma or_else_finite (x : num) : finite x \/ x = NaN -> finite (JsNum.or_else x (Num 1)).
Proof.
  intros [Hx| ->]; [|exact I].
  destruct x as [| |q]; try contradiction. simpl. now destruct (Qeq_bool q 0).
Qed.

Section VectorizeFacts.
Context `{Runtime}.

(** The loop of [vectorize] that writes the weights keeps the length of
    the vector when the indices are in range, and writes finite numbers
    when the IDF values are finite. *)
Lemma vectorize_fold_inv (V : Vocab) (m : Q) (tf : list (string * nat))
    (vec : list num) :
  vocab_in_range V -> (1 <= m)%Q ->
  length vec = size (vocabulary V) ->
  let vec' :=
    fold_left
      (fun vec (e : string * nat) =>
         match vocabulary V !! fst e with
         | Some idx =>
             js_set vec idx
               (JsNum.mul (JsNum.div (JsNum.of_nat (snd e)) (Num m))
                  (JsNum.or_else (default NaN (idfValues V !! fst e)) (Num 1)))
         | None => vec
         end)
      tf vec in
  length vec' = size (vocabulary V)
  /\ (vocab_finite V -> List.Forall finite vec -> List.Forall finite vec').
Proof.
  intros Hrange Hm. revert vec.
  induction tf as [|[t c] tf IH]; intros vec Hlen; simpl.
  - split; [exact Hlen | auto].
  - destruct (vocabulary V !! t) as [idx|] eqn:Et; [|now apply IH].
    assert (Hidx : (idx < length vec)%nat)
      by (rewrite Hlen; exact (Hrange t idx Et)).
    assert (Hset : forall v, js_set vec idx v = <[idx := v]> vec).
    { intros v. unfold js_set.
      destruct (Nat.ltb_spec idx (length vec)); [reflexivity | lia]. }
    rewrite Hset.
    destruct (IH (<[idx := JsNum.mul
                            (JsNum.div (JsNum.of_nat c) (Num m))
                            (JsNum.or_else (default NaN (idfValues V !! t)) (Num 1))]>
                    vec)) as [Hlen' Hfin'].
    { now rewrite length_insert. }
    split; [exact Hlen'|]. intros HV Hfin. apply Hfin'; [exact HV|].
    apply List.Forall_forall. intros x Hx. apply list_elem_of_In in Hx.
    apply list_elem_of_lookup_1 in Hx as [j Hj].
    destruct (Nat.eq_dec idx j) as [<-|Hne].
    + rewrite list_lookup_insert_eq in Hj by exact Hidx. injection Hj as <-.
      assert (Hidf : finite (JsNum.or_else (default NaN (idfValues V !! t)) (Num 1))).
      { apply or_else_finite. destruct (idfValues V !! t) as [x|] eqn:Ex; simpl.
        - left. exact (HV t x Ex).
        - now right. }
      destruct (JsNum.or_else _ _) as [| |w]; try contradiction.
      unfold JsNum.of_nat. simpl.
      destruct (Qeq_bool m 0) eqn:Ez; [apply Qeq_bool_eq in Ez; lra | exact I].
    + rewrite list_lookup_insert_ne in Hj by exact Hne.
      rewrite List.Forall_forall in Hfin. apply Hfin, list_elem_of_In.
      eapply list_elem_of_lookup_2. exact Hj.
Qed.

Lemma normalize_length (vec : list num) (norm : num) :
  length (if JsNum.gt norm (Num 0)
          then map (fun v => JsNum.div v norm) vec else vec)
  = length vec.
Proof. destruct (JsNum.gt _ _); [apply length_map | reflexivity]. Qed.

Lemma vectorize_length (V : Vocab) (tokens : list string) :
  vocab_in_range V -> length (vectorize V tokens) = size (vocabulary V).
Proof.
  intros Hrange. unfold vectorize.
  destruct (Nat.eqb_spec (size (vocabulary V)) 0) as [E|E]; [now rewrite E|].
  destruct (maxTf_value (term_frequency tokens)) as [m [-> Hm]].
  rewrite normalize_length.
  apply (vectorize_fold_inv V m (term_frequency tokens)
           (repeat (Num 0) (size (vocabulary V))) Hrange Hm).
  apply repeat_length.
Qed.

Lemma vectorize_finite (V : Vocab) (tokens : list string) :
  vocab_in_range V -> vocab_finite V -> List.Forall finite (vectorize V tokens).
Proof.
  intros Hrange HV. unfold vectorize.
  destruct (Nat.eqb_spec (size (vocabulary V)) 0) as [E|E]; [constructor|].
  destruct (maxTf_value (term_frequency tokens)) as [m [-> Hm]].
  destruct (vectorize_fold_inv V m (term_frequency tokens)
              (repeat (Num 0) (size (vocabulary V))) Hrange Hm
              (repeat_length _ _)) as [_ Hfin].
  specialize (Hfin HV).
  match type of Hfin with
  | _ -> List.Forall finite ?v => set (vec := v) in *
  end.
  assert (Hvec : List.Forall finite vec).
  { apply Hfin, List.Forall_forall. intros x Hx.
    apply repeat_spec in Hx. now subst x. }
  destruct (norm_fold_finite vec 0 Hvec) as [y [-> Hy]]; [lra|].
  assert (Hsqrt : nsqrt (Num y) = Num (Math_sqrt y)).
  { unfold nsqrt. destruct (Qcompare_spec y 0); [reflexivity | lra | reflexivity]. }
  rewrite Hsqrt.
  destruct (JsNum.gt (Num (Math_sqrt y)) (Num 0)) eqn:Hpos; [|exact Hvec].
  apply JsNumFacts.gt_Num in Hpos.
  apply List.Forall_forall. intros x Hx. apply in_map_iff in Hx as [v [<- Hv]].
  rewrite List.Forall_forall in Hvec. specialize (Hvec v Hv).
  destruct v as [| |q]; try contradiction. simpl.
  destruct (Qeq_bool (Math_sqrt y) 0) eqn:Ez;
    [apply Qeq_bool_eq in Ez; lra | exact I].
Qed.
End VectorizeFacts.

Section VectorizerTheorems.
Context `{Runtime}.

(** X13: against a vocabulary made by [buildVocabulary], [vectorize] gives
    every token list a vector with one component per vocabulary term,
    each of them a finite number. *)
Theorem vectorize_after_buildVocabulary (Math_log : Q -> Q)
    (docs : list (list string)) (tokens : list string) :
  let V := buildVocabulary Math_log docs in
  length (vectorize V tokens) = size (vocabulary V)
  /\ List.Forall finite (vectorize V tokens).
Proof.
  intros V. split.
  - apply vectorize_length, buildVocabulary_in_range.
  - apply vectorize_finite;
      [apply buildVocabulary_in_range | apply buildVocabulary_finite].
Qed.

Lemma vectorize_fold_untouched (V : Vocab) (maxTf : num)
    (tf : list (string * nat)) (vec : list num) :
  (forall t, In t (map fst tf) -> vocabulary V !! t = None) ->
  fold_left
    (fun vec (e : string * nat) =>
       match vocabulary V !! fst e with
       | Some idx =>
           js_set vec idx
             (JsNum.mul (JsNum.div (JsNum.of_nat (snd e)) maxTf)
                (JsNum.or_else (default NaN (idfValues V !! fst e)) (Num 1)))
       | None => vec
       end)
    tf vec
  = vec.
Proof.
  revert vec. induction tf as [|[t c] tf IH]; intros vec Hnone; simpl;
    [reflexivity|].
  rewrite (Hnone t) by now left. apply IH. intros u Hu. apply Hnone. now right.
Qed.

Lemma vectorize_unknown (V : Vocab) (tokens : list string) :
  (forall t, In t tokens -> vocabulary V !! t = None) ->
  vectorize V tokens = vectorize V [].
Proof.
  intros Hnone. unfold vectorize.
  destruct (size (vocabulary V) =? 0)%nat; [reflexivity|].
  rewrite vectorize_fold_untouched; [reflexivity|].
  intros t Ht. rewrite term_frequency_keys in Ht.
  apply Hnone. now apply set_of_list_spec.
Qed.

Lemma vectorize_nil_zero (V : Vocab) : List.Forall is_zero (vectorize V []).
Proof.
  unfold vectorize.
  destruct (size (vocabulary V) =? 0)%nat; [constructor|].
  simpl fold_left at 2. cbn [term_frequency fold_left map app].
  destruct (norm_of_zeros (size (vocabulary V)) 0) as [y [Hy ->]].
  assert (Hzero : List.Forall is_zero (repeat (Num 0) (size (vocabulary V)))).
  { apply List.Forall_forall. intros x Hx. apply repeat_spec in Hx.
    subst x. reflexivity. }
  destruct (JsNum.gt _ _) eqn:Hpos; [|exact Hzero].
  assert (Hsqrt : nsqrt (Num y) = Num (Math_sqrt y)).
  { unfold nsqrt. destruct (Qcompare_spec y 0); [reflexivity | lra | reflexivity]. }
  rewrite Hsqrt in *. apply JsNumFacts.gt_Num in Hpos.
  apply List.Forall_forall. intros x Hx. apply in_map_iff in Hx as [v [<- Hv]].
  apply repeat_spec in Hv. subst v. unfold is_zero. simpl.
  destruct (Qeq_bool (Math_sqrt y) 0) eqn:Ez.
  - apply Qeq_bool_eq in Ez. lra.
  - simpl. field. lra.
Qed.

(** X14: a request whose context has no token of the vocabulary gets the
    all-zero query vector; the TF-IDF search then returns nothing and
    [handleMatch] answers with the fallback ranking over every stored
    record. *)
Theorem handleMatch_unknown_context (V : Vocab) (all : list VectorRecord)
    (history : list UploadHistoryEntry) (now : Z) (req : MatchRequest) :
  (forall t, In t (tokenize (context req)) -> vocabulary V !! t = None) ->
  List.Forall is_zero (vectorize V (tokenize (context req)))
  /\ tfidfResults V all req = []
  /\ handleMatch V all history now req
     = map to_item
         (top_ranked (map (blend false history now (context req))
                          (fallback_records all))).
Proof.
  intros Hnone.
  assert (Hzero : List.Forall is_zero (vectorize V (tokenize (context req)))).
  { rewrite (vectorize_unknown V _ Hnone). apply vectorize_nil_zero. }
  assert (Hres : tfidfResults V all req = []).
  { unfold tfidfResults. destruct (0 <? _)%nat; [|reflexivity].
    now apply search_zero_query. }
  split; [exact Hzero|]. split; [exact Hres|].
  apply handleMatch_fallback. left. rewrite Hres. reflexivity.
Qed.
End VectorizerTheorems.

(** The theorem at a request that shares no term with the vocabulary. *)
Lemma handleMatch_unknown_context_witness :
  (forall t, In t (tokenize (context unrelated_request)) ->
             vocabulary sample_vocab !! t = None)
  /\ @tfidfResults sample_runtime sample_vocab sample_corpus unrelated_request = []
  /\ @handleMatch sample_runtime sample_vocab sample_corpus sample_history
       950400000 unrelated_request
     = map to_item
         (top_ranked
            (map (@blend sample_runtime false sample_history 950400000
                    (context unrelated_request))
                 (fallback_records sample_corpus))).
Proof.
  assert (Hnone : forall t, In t (tokenize (context unrelated_request)) ->
                            vocabulary sample_vocab !! t = None).
  { intros t [<-|[<-|[]]]; vm_compute; reflexivity. }
  split; [exact Hnone|].
  exact (proj2 (@handleMatch_unknown_context sample_runtime sample_vocab
                  sample_corpus sample_history 950400000 unrelated_request
                  Hnone)).
Defined.

(** ** Index build *)

Lemma Qsqrt_pos (x : Q) : (0 < x)%Q -> (0 < Qsqrt x)%Q.
Proof.
  intros Hx. unfold Qsqrt. rewrite Qred_correct.
  assert (Hnum : (0 < Qnum x)%Z).
  { unfold Qlt in Hx. simpl in Hx. lia. }
  assert (Hs : (0 < 2 ^ 60)%Z) by (apply Z.pow_pos_nonneg; lia).
  assert (Hroot : (0 < Z.sqrt (Qnum x * Z.pos (Qden x) * 2 ^ 60 * 2 ^ 60))%Z).
  { apply Z.sqrt_pos. repeat apply Z.mul_pos_pos; try assumption; lia. }
  unfold Qlt. simpl. lia.
Qed.

Lemma combine_seq_In {A : Type} (l : list A) (k i : nat) (x : A) :
  In (i, x) (combine (seq k (length l)) l) -> In x l.
Proof. apply in_combine_r. Qed.

Lemma In_combine_seq {A : Type} (l : list A) (k : nat) (x : A) :
  In x l -> exists i, In (i, x) (combine (seq k (length l)) l).
Proof.
  revert k. induction l as [|y l IH]; intros k; simpl; [intros []|].
  intros [->|Hin].
  - exists k. now left.
  - destruct (IH (S k) Hin) as [i Hi]. exists i. now right.
Qed.

Lemma fold_upsert_spec (mk : nat * FileEntry -> VectorRecord)
    (l : list (nat * FileEntry)) (store0 : gmap string VectorRecord) :
  let store := fold_left (fun s e => upsert (mk e) s) l store0 in
  (forall p, is_Some (store !! p)
             <-> is_Some (store0 !! p) \/ exists e, In e l /\ id (mk e) = p)
  /\ (forall p r, store !! p = Some r ->
                  store0 !! p = Some r \/ exists e, In e l /\ r = mk e /\ id r = p).
Proof.
  revert store0. induction l as [|e l IH]; intros store0; simpl.
  - split.
    + intros p. split; [auto | intros [Hs|[e [[] _]]]; exact Hs].
    + auto.
  - destruct (IH (upsert (mk e) store0)) as [Hdom Hval]. split.
    + intros p. rewrite Hdom. unfold upsert. rewrite lookup_insert_is_Some. split.
      * intros [[Heq|[_ Hs]]|[e' [Hin Hid]]].
        -- right. exists e. auto.
        -- now left.
        -- right. exists e'. auto.
      * intros [Hs|[e' [[<-|Hin] Hid]]].
        -- left. destruct (decide (id (mk e) = p)); [now left | now right].
        -- left. now left.
        -- right. now exists e'.
    + intros p r Hr. apply Hval in Hr as [Hr|[e' [Hin [-> Hid]]]].
      * unfold upsert in Hr. apply lookup_insert_Some in Hr as [[Hid <-]|[_ Hr]].
        -- right. exists e. auto.
        -- now left.
      * right. exists e'. auto.
Qed.

Section BuildIndexFacts.
Context `{Runtime}.
Context (Math_log : Q -> Q).
Context (batchEmbed : list string -> string -> option (list (list num))).

Lemma handleBuildIndex_lookup (config : XUploadConfig) (files : list FileEntry)
    (p : string) (r : VectorRecord) :
  snd (handleBuildIndex Math_log batchEmbed config files) !! p = Some r ->
  exists i f,
    In f files /\ f_path f = p
    /\ r = indexed_record (fst (handleBuildIndex Math_log batchEmbed config files))
             (denseVectorsOf batchEmbed config files) i f.
Proof.
  unfold handleBuildIndex. cbn [fst snd]. intros Hr.
  apply (fold_upsert_spec
           (fun e => indexed_record
                       (buildVocabulary Math_log
                          (map (fun f => tokenize (f_text f)) files))
                       (denseVectorsOf batchEmbed config files) (fst e) (snd e)))
    in Hr as [Hr|[[i f] [Hin [-> Hid]]]].
  - rewrite lookup_empty in Hr. discriminate.
  - exists i, f. simpl in *. split; [|auto]. now apply combine_seq_In in Hin.
Qed.

(** X15: [handleBuildIndex] leaves one record for each distinct path of
    [files], stored under that path; the record copies the metadata of a
    file of that path, keeps the first 500 characters of its text, and its
    vector is the TF-IDF vector of the text under the vocabulary built
    from all the files: one finite component per vocabulary term. *)
Theorem handleBuildIndex_store (config : XUploadConfig) (files : list FileEntry) :
  let V := fst (handleBuildIndex Math_log batchEmbed config files) in
  let store := snd (handleBuildIndex Math_log batchEmbed config files) in
  V = buildVocabulary Math_log (map (fun f => tokenize (f_text f)) files)
  /\ (forall p, is_Some (store !! p) <-> exists f, In f files /\ f_path f = p)
  /\ (forall p r, store !! p = Some r ->
        id r = p /\ path r = p
        /\ (exists f, In f files /\ f_path f = p
                      /\ name r = f_name f /\ type r = f_type f
                      /\ size_bytes r = f_size f
                      /\ lastModified r = f_lastModified f
                      /\ textPreview r = slice0 500 (f_text f)
                      /\ vector r = vectorize V (tokenize (f_text f)))
        /\ length (vector r) = size (vocabulary V)
        /\ List.Forall finite (vector r)).
Proof.
  intros V store. split; [reflexivity|]. split.
  - intros p. subst store. unfold handleBuildIndex. cbn [snd].
    rewrite (proj1 (fold_upsert_spec
                      (fun e => indexed_record
                                  (buildVocabulary Math_log
                                     (map (fun f => tokenize (f_text f)) files))
                                  (denseVectorsOf batchEmbed config files)
                                  (fst e) (snd e)) _ ∅)).
    split.
    + intros [[x Hx]|[[i f] [Hin Hid]]].
      * rewrite lookup_empty in Hx. discriminate.
      * exists f. split; [now apply combine_seq_In in Hin | exact Hid].
    + intros [f [Hin Hp]]. right.
      destruct (In_combine_seq files 0 f Hin) as [i Hi].
      exists (i, f). split; [exact Hi | exact Hp].
  - intros p r Hr. apply handleBuildIndex_lookup in Hr as (i & f & Hin & Hp & ->).
    fold V. cbn [id path name type size_bytes lastModified textPreview vector
                 indexed_record].
    split; [exact Hp|]. split; [exact Hp|]. split.
    + exists f. repeat split; auto.
    + subst V. unfold handleBuildIndex. cbn [fst]. split.
      * apply vectorize_length, buildVocabulary_in_range.
      * apply vectorize_finite;
          [apply buildVocabulary_in_range | apply buildVocabulary_finite].
Qed.

(** X16: after [handleBuildIndex], if the square root of a positive number
    is positive, the cosine of any query vectorized under the built
    vocabulary with any stored vector is a finite number: the scores
    that [search] sorts are never NaN. *)
Theorem built_index_scores_finite (config : XUploadConfig)
    (files : list FileEntry) :
  (forall x, (0 < x)%Q -> (0 < Math_sqrt x)%Q) ->
  let V := fst (handleBuildIndex Math_log batchEmbed config files) in
  List.Forall
    (fun r => forall tokens,
       finite (cosine (vectorize V tokens) (vector r))
       /\ JsNum.is_nan (score (scored (vectorize V tokens) r)) = false)
    (getAll (snd (handleBuildIndex Math_log batchEmbed config files))).
Proof.
  intros Hsqrt V. apply List.Forall_forall. intros r Hr. unfold getAll in Hr.
  apply list_elem_of_In, list_elem_of_fmap in Hr as [[p r'] [-> Hr]].
  apply elem_of_map_to_list in Hr. simpl.
  apply handleBuildIndex_lookup in Hr as (i & f & _ & _ & ->).
  intros tokens. fold V. cbn [vector indexed_record].
  assert (Hrange : vocab_in_range V) by apply buildVocabulary_in_range.
  assert (Hfin : vocab_finite V) by apply buildVocabulary_finite.
  assert (Hc : finite (cosine (vectorize V tokens)
                         (vectorize V (tokenize (f_text f))))).
  { apply cosine_finite; [exact Hsqrt | | |].
    - rewrite !vectorize_length by exact Hrange. reflexivity.
    - now apply vectorize_finite.
    - now apply vectorize_finite. }
  split; [exact Hc|].
  destruct (cosine _ _); [contradiction | reflexivity | reflexivity].
Qed.

(** X17: when the build runs without an API key, in TF-IDF mode, or the
    embedding service fails, no stored record has a dense vector, and
    [denseSearch] over the store returns nothing for every query. *)
Theorem handleBuildIndex_without_embeddings (config : XUploadConfig)
    (files : list FileEntry) :
  JsString.truthy (apiKey config) = false \/ mode config = mode_tfidf
  \/ batchEmbed (map (fun f => slice0 2000 (f_text f)) files) (apiKey config) = None ->
  let all := getAll (snd (handleBuildIndex Math_log batchEmbed config files)) in
  List.Forall (fun r => denseVector r = None) all
  /\ forall q topN accept, denseSearch q topN accept all = [].
Proof.
  intros Hoff all.
  assert (Hdv : denseVectorsOf batchEmbed config files = repeat None (length files)).
  { unfold denseVectorsOf. destruct Hoff as [Hk|[Hm|Hb]].
    - now rewrite Hk.
    - rewrite Hm, andb_false_r. reflexivity.
    - rewrite Hb. now destruct (_ && _). }
  assert (Hnone : List.Forall (fun r => denseVector r = None) all).
  { apply List.Forall_forall. intros r Hr. subst all. unfold getAll in Hr.
    apply list_elem_of_In, list_elem_of_fmap in Hr as [[p r'] [-> Hr]].
    apply elem_of_map_to_list in Hr. simpl.
    apply handleBuildIndex_lookup in Hr as (i & f & _ & _ & ->).
    cbn [denseVector indexed_record]. rewrite Hdv.
    destruct (repeat None (length files) !! i) as [o|] eqn:E; [|reflexivity].
    apply list_elem_of_lookup_2, list_elem_of_In, repeat_spec in E. now subst o. }
  split; [exact Hnone|]. intros q topN accept. unfold denseSearch.
  assert (E : List.filter has_dense all = []).
  { induction Hnone as [|r l Hr _ IH]; simpl; [reflexivity|].
    unfold has_dense at 1. now rewrite Hr. }
  now rewrite E.
Qed.
End BuildIndexFacts.

(** The scores at an index of two files, under the reference runtime. *)
Lemma built_index_scores_finite_witness :
  (forall x, (0 < x)%Q -> (0 < Qsqrt x)%Q)
  /\ List.Forall
       (fun r => forall tokens,
          finite (@cosine sample_runtime
                    (@vectorize sample_runtime
                       (fst (@handleBuildIndex sample_runtime sample_log
                               sample_batchEmbed keyed_config sample_files))
                       tokens)
                    (vector r))
          /\ JsNum.is_nan
               (score (@scored sample_runtime
                         (@vectorize sample_runtime
                            (fst (@handleBuildIndex sample_runtime sample_log
                                    sample_batchEmbed keyed_config sample_files))
                            tokens) r)) = false)
       (getAll (snd (@handleBuildIndex sample_runtime sample_log
                       sample_batchEmbed keyed_config sample_files))).
Proof.
  split; [exact Qsqrt_pos|].
  exact (@built_index_scores_finite sample_runtime sample_log sample_batchEmbed
           keyed_config sample_files Qsqrt_pos).
Defined.

(** A build without an API key. *)
Lemma handleBuildIndex_without_embeddings_witness :
  (JsString.truthy (apiKey no_key_config) = false
   \/ mode no_key_config = mode_tfidf
   \/ sample_batchEmbed (map (fun f => slice0 2000 (f_text f)) sample_files)
        (apiKey no_key_config) = None)
  /\ List.Forall (fun r => denseVector r = None)
       (getAll (snd (@handleBuildIndex sample_runtime sample_log
                       sample_batchEmbed no_key_config sample_files))).
Proof.
  assert (Hoff : JsString.truthy (apiKey no_key_config) = false
                 \/ mode no_key_config = mode_tfidf
                 \/ sample_batchEmbed
                      (map (fun f => slice0 2000 (f_text f)) sample_files)
                      (apiKey no_key_config) = None)
    by (left; reflexivity).
  split; [exact Hoff|].
  exact (proj1 (@handleBuildIndex_without_embeddings sample_runtime sample_log
                  sample_batchEmbed no_key_config sample_files Hoff)).
Defined.

(** ** Enhanced match *)

Lemma historyCounts_rows (history : list UploadHistoryEntry) (rid : string) :
  default 0%nat (historyCounts history !! rid)
  = length (List.filter (fun h => String.eqb (fileId h) rid) history).
Proof.
  induction history as [|h history IH] using rev_ind; [reflexivity|].
  unfold historyCounts in *. rewrite fold_left_app. simpl.
  rewrite List.filter_app, length_app. simpl.
  destruct (String.eqb_spec (fileId h) rid) as [->|Hne].
  - rewrite lookup_insert_eq. simpl. rewrite IH. reflexivity.
  - rewrite lookup_insert_ne by exact Hne. rewrite IH. simpl. lia.
Qed.

Lemma denseSearch_no_dense `{Runtime} (q : list num) (topN : nat)
    (accept : option string) (all : list VectorRecord) :
  List.Forall (fun r => has_dense r = false) all ->
  denseSearch q topN accept all = [].
Proof.
  intros Hnone. unfold denseSearch.
  assert (E : List.filter has_dense all = []).
  { induction Hnone as [|r l Hr _ IH]; simpl; [reflexivity|]. now rewrite Hr. }
  now rewrite E.
Qed.

Lemma denseSearch_length `{Runtime} (q : list num) (topN : nat)
    (accept : option string) (all : list VectorRecord) :
  (length (denseSearch q topN accept all) <= topN)%nat.
Proof.
  unfold denseSearch. destruct (length _ =? 0)%nat; [simpl; lia|].
  etransitivity; [apply List.filter_length_le | apply firstn_le_length].
Qed.

Section EnhancedFacts.
Context `{Runtime}.
Context (getEmbedding : string -> string -> option (list num)).
Context (describeWithVLM : string -> string -> string -> option string).

(** X18: [handleMatchEnhanced] answers exactly as [handleMatch] does on the
    same context, accept string and page when no API key is configured,
    when the embedding request fails, or when no stored record carries a
    dense vector. *)
Theorem handleMatchEnhanced_falls_back (V : Vocab) (all : list VectorRecord)
    (store : list UploadHistoryEntry) (now : Z) (config : XUploadConfig)
    (req : MatchRequestEnhanced) :
  JsString.truthy (apiKey config) = false
  \/ getEmbedding (enhancedQueryText describeWithVLM req (apiKey config))
       (apiKey config) = None
  \/ List.Forall (fun r => has_dense r = false) all ->
  handleMatchEnhanced getEmbedding describeWithVLM V all store now config req
  = handleMatch V all
      (pageHistory store (default EmptyString (enh_pageHost req))) now
      {| context := enh_context req; accept := enh_accept req |}.
Proof.
  intros Hoff. unfold handleMatchEnhanced, tfidfFallback.
  destruct (JsString.truthy (apiKey config)) eqn:Ek; simpl; [|reflexivity].
  destruct Hoff as [Hk|[He|Hd]]; [discriminate | now rewrite He |].
  destruct (getEmbedding _ _) as [queryVec|]; [|reflexivity].
  now rewrite (denseSearch_no_dense queryVec 5 (enh_accept req) all Hd).
Qed.

(** X19: when [handleMatchEnhanced] answers from the dense search, it
    returns between one and five items; each is a stored record with a
    dense vector, its score is the plain cosine of the query embedding
    and that vector (positive, with no history or path signal mixed in),
    and its history count is the number of rows of that file among the
    first 50 rows of the page host, 0 when the page has no URL. *)
Theorem handleMatchEnhanced_dense_items (V : Vocab) (all : list VectorRecord)
    (store : list UploadHistoryEntry) (now : Z) (config : XUploadConfig)
    (req : MatchRequestEnhanced) (queryVec : list num) :
  JsString.truthy (apiKey config) = true ->
  getEmbedding (enhancedQueryText describeWithVLM req (apiKey config))
    (apiKey config) = Some queryVec ->
  denseSearch queryVec 5 (enh_accept req) all <> [] ->
  let items :=
    handleMatchEnhanced getEmbedding describeWithVLM V all store now config req in
  (1 <= length items <= 5)%nat
  /\ List.Forall
       (fun item =>
          exists r d,
            In r all /\ denseVector r = Some d
            /\ item_id item = id r /\ item_name item = name r
            /\ item_path item = path r /\ item_type item = type r
            /\ item_score item = cosine queryVec d
            /\ JsNum.gt (item_score item) (Num 0) = true
            /\ item_historyCount item
               = match enh_pageHost req with
                 | Some host =>
                     length (List.filter
                               (fun h => String.eqb (fileId h) (id r))
                               (getHistoryByHost store host HISTORY_LIMIT))
                 | None => 0%nat
                 end)
       items.
Proof.
  intros Hk He Hne items. subst items. unfold handleMatchEnhanced.
  rewrite Hk, He. simpl negb. cbv iota.
  destruct (denseSearch queryVec 5 (enh_accept req) all) as [|res0 rest] eqn:Ed;
    [contradiction|].
  cbn [length Nat.eqb]. rewrite <- Ed. split.
  - rewrite length_map. split; [rewrite Ed; simpl; lia | apply denseSearch_length].
  - apply List.Forall_forall. intros item Hitem.
    apply in_map_iff in Hitem as [res [<- Hres]].
    apply denseSearch_In in Hres as (Hin & Hscore & Hpos).
    apply List.filter_In in Hin as [Hin Hdense].
    unfold has_dense in Hdense.
    destruct (denseVector (record res)) as [d|] eqn:Edv; [|discriminate].
    exists (record res), d. cbn [dense_item item_id item_name item_path item_type
                                  item_score item_historyCount].
    repeat split; try assumption; try reflexivity.
    rewrite historyCounts_rows. now destruct (enh_pageHost req).
Qed.
End EnhancedFacts.

(** An enhanced request with no API key configured. *)
Lemma handleMatchEnhanced_falls_back_witness :
  (JsString.truthy (apiKey no_key_config) = false
   \/ sample_getEmbedding
        (enhancedQueryText sample_describeWithVLM enhanced_request
           (apiKey no_key_config)) (apiKey no_key_config) = None
   \/ List.Forall (fun r => has_dense r = false) [dense_record])
  /\ @handleMatchEnhanced sample_runtime sample_getEmbedding
       sample_describeWithVLM sample_vocab [dense_record] sample_history
       950400000 no_key_config enhanced_request
     = @handleMatch sample_runtime sample_vocab [dense_record]
         (pageHistory sample_history
            (default EmptyString (enh_pageHost enhanced_request)))
         950400000
         {| context := enh_context enhanced_request;
            accept := enh_accept enhanced_request |}.
Proof.
  assert (Hoff : JsString.truthy (apiKey no_key_config) = false
                 \/ sample_getEmbedding
                      (enhancedQueryText sample_describeWithVLM enhanced_request
                         (apiKey no_key_config)) (apiKey no_key_config) = None
                 \/ List.Forall (fun r => has_dense r = false) [dense_record])
    by (left; reflexivity).
  split; [exact Hoff|].
  exact (@handleMatchEnhanced_falls_back sample_runtime sample_getEmbedding
           sample_describeWithVLM sample_vocab [dense_record] sample_history
           950400000 no_key_config enhanced_request Hoff).
Defined.

(** An enhanced request answered from one record with a dense vector. *)
Lemma handleMatchEnhanced_dense_items_witness :
  JsString.truthy (apiKey keyed_config) = true
  /\ sample_getEmbedding
       (enhancedQueryText sample_describeWithVLM enhanced_request
          (apiKey keyed_config)) (apiKey keyed_config)
     = Some [Num 3; Num 0; Num 4]
  /\ @denseSearch sample_runtime [Num 3; Num 0; Num 4] 5
       (enh_accept enhanced_request) [dense_record] <> []
  /\ (1 <= length (@handleMatchEnhanced sample_runtime sample_getEmbedding
                     sample_describeWithVLM sample_vocab [dense_record]
                     sample_history 950400000 keyed_config enhanced_request)
      <= 5)%nat.
Proof.
  assert (Hne : @denseSearch sample_runtime [Num 3; Num 0; Num 4] 5
                  (enh_accept enhanced_request) [dense_record] <> [])
    by (vm_compute; discriminate).
  split; [reflexivity|]. split; [reflexivity|]. split; [exact Hne|].
  exact (proj1 (@handleMatchEnhanced_dense_items sample_runtime
                  sample_getEmbedding sample_describeWithVLM sample_vocab
                  [dense_record] sample_history 950400000 keyed_config
                  enhanced_request [Num 3; Num 0; Num 4]
                  eq_refl eq_refl Hne)).
Defined.

(** ** Panel positioning *)

Ltac panel_cases :=
  unfold panel_top, panel_left;
  repeat match goal with
         | |- context [Qle_bool ?a ?b] =>
             let E := fresh "E" in
             destruct (Qle_bool a b) eqn:E;
             [apply Qle_bool_iff in E
             |assert (~ (a <= b)%Q)
                by (intros Hle; apply Qle_bool_iff in Hle; congruence); clear E];
             cbv iota
         | |- context [Qmin ?a ?b] =>
             let m := fresh "m" in
             let Hm := fresh "Hm" in
             destruct (Q.min_spec a b) as [[? Hm]|[? Hm]];
             set (m := Qmin a b) in *; clearbody m
         | |- context [Qmax ?a ?b] =>
             let m := fresh "m" in
             let Hm := fresh "Hm" in
             destruct (Q.max_spec a b) as [[? Hm]|[? Hm]];
             set (m := Qmax a b) in *; clearbody m
         end.

(** X20: [positionPanel] puts the left edge of the panel at 4 or more
    and at most [max(4, innerWidth - 380)], and its top edge at 8 or more,
    whatever the zone, the window and the panel are; when the panel is no
    higher than the maximal height it was given, [innerHeight - 16], and
    the zone begins inside the window, the bottom edge of the panel is
    inside the window too. *)
Theorem positionPanel_within_window
    (rect_left rect_top rect_bottom innerWidth innerHeight panelHeight : Q) :
  (4 <= panel_left rect_left innerWidth)%Q
  /\ (panel_left rect_left innerWidth <= Qmax 4 (innerWidth - 380))%Q
  /\ (8 <= panel_top rect_top rect_bottom innerHeight panelHeight)%Q
  /\ ((panelHeight <= innerHeight - 16)%Q ->
      (rect_top <= innerHeight)%Q ->
      (panel_top rect_top rect_bottom innerHeight panelHeight + panelHeight
       <= innerHeight - 2)%Q).
Proof.
  split; [|split; [|split]]; [| | |intros Hfit Hzone]; panel_cases; lra.
Qed.

(** X21: when there is room for the panel below the zone, the panel is put
    at least 6 pixels below it; when there is room only above, the whole
    panel lies above the zone.  In both cases the panel does not cover the
    zone. *)
Theorem positionPanel_clear_of_zone
    (rect_top rect_bottom innerHeight panelHeight : Q) :
  ((panelHeight <= innerHeight - rect_bottom - 8)%Q ->
   (rect_bottom + 6 <= panel_top rect_top rect_bottom innerHeight panelHeight)%Q)
  /\ (~ (panelHeight <= innerHeight - rect_bottom - 8)%Q ->
      (panelHeight <= rect_top - 8)%Q ->
      (panel_top rect_top rect_bottom innerHeight panelHeight + panelHeight
       <= rect_top)%Q).
Proof.
  split; [intros Hbelow | intros Hbelow Habove]; panel_cases; lra.
Qed.

(** A zone in the middle of a window of 1280 by 800 pixels. *)
Lemma positionPanel_within_window_witness :
  (300 <= 800 - 16)%Q /\ (200 <= 800)%Q
  /\ (4 <= panel_left 100 1280)%Q
  /\ (8 <= panel_top 200 260 800 300)%Q
  /\ (panel_top 200 260 800 300 + 300 <= 800 - 2)%Q.
Proof.
  assert (Hfit : (300 <= 800 - 16)%Q) by (vm_compute; discriminate).
  assert (Hzone : (200 <= 800)%Q) by (vm_compute; discriminate).
  split; [exact Hfit|]. split; [exact Hzone|].
  destruct (positionPanel_within_window 100 200 260 1280 800 300)
    as (Hleft & _ & Htop & Hbottom).
  split; [exact Hleft|]. split; [exact Htop|]. exact (Hbottom Hfit Hzone).
Defined.

(** The case of room above only, in a window of 800 pixels. *)
Lemma positionPanel_clear_of_zone_witness :
  ~ (300 <= 800 - 700 - 8)%Q /\ (300 <= 600 - 8)%Q
  /\ (panel_top 600 700 800 300 + 300 <= 600)%Q.
Proof.
  assert (Hbelow : ~ (300 <= 800 - 700 - 8)%Q) by (vm_compute; congruence).
  assert (Habove : (300 <= 600 - 8)%Q) by (vm_compute; discriminate).
  split; [exact Hbelow|]. split; [exact Habove|].
  exact (proj2 (positionPanel_clear_of_zone 600 700 800 300) Hbelow Habove).
Defined.

(** ** Index build and rescan of the popup *)

Lemma existingMapOf_from (l : list (string * VectorRecord))
    (m0 : gmap string VectorRecord) :
  NoDup l.*1 ->
  (forall k r, (k, r) ∈ l -> id r = k) ->
  fold_left (fun m r => <[id r := r]> m) l.*2 m0 = list_to_map l ∪ m0.
Proof.
  revert m0. induction l as [|[k r] l IH]; intros m0 Hnd Hid.
  - simpl. now rewrite (left_id_L ∅ (∪)).
  - rewrite fmap_cons in Hnd. apply NoDup_cons in Hnd as [Hk Hnd].
    cbn [fst] in Hk. rewrite fmap_cons, list_to_map_cons.
    cbn [fold_left snd]. rewrite (Hid k r) by now left.
    rewrite IH; [|exact Hnd | intros k' r' Hin; apply Hid; now right].
    rewrite <- insert_union_l. symmetry. apply insert_union_r.
    now apply not_elem_of_list_to_map_1.
Qed.

Lemma existingMapOf_getAll (store : gmap string VectorRecord) :
  store_keyed store -> existingMapOf (getAll store) = store.
Proof.
  intros Hkeyed. unfold existingMapOf, getAll.
  rewrite existingMapOf_from.
  - now rewrite list_to_map_to_list, (right_id_L ∅ (∪)).
  - apply NoDup_fst_map_to_list.
  - intros k r Hin. apply elem_of_map_to_list in Hin. now apply Hkeyed.
Qed.

Lemma fold_deleteById_lookup (ks : list string) (s : gmap string VectorRecord)
    (k : string) :
  fold_left (fun s k => deleteById k s) ks s !! k
  = if decide (k ∈ ks) then None else s !! k.
Proof.
  revert s. induction ks as [|k' ks IH]; intros s; simpl.
  - destruct (decide (k ∈ [])) as [Hin|_]; [inversion Hin | reflexivity].
  - rewrite IH. unfold deleteById.
    destruct (decide (k ∈ ks)) as [Hin|Hnin].
    + destruct (decide (k ∈ k' :: ks)) as [_|Hn]; [reflexivity|].
      exfalso. apply Hn. now right.
    + destruct (decide (k = k')) as [->|Hne].
      * rewrite lookup_delete_eq.
        destruct (decide (k' ∈ k' :: ks)) as [_|Hn]; [reflexivity|].
        exfalso. apply Hn. now left.
      * rewrite lookup_delete_ne by congruence.
        destruct (decide (k ∈ k' :: ks)) as [Hin|_]; [|reflexivity].
        apply elem_of_cons in Hin as [?|?]; contradiction.
Qed.

Lemma upsert_all_lookup (rs : list VectorRecord) (s0 : gmap string VectorRecord)
    (p : string) (r : VectorRecord) :
  upsert_all rs s0 !! p = Some r -> s0 !! p = Some r \/ (In r rs /\ id r = p).
Proof.
  unfold upsert_all. revert s0. induction rs as [|r' rs IH]; intros s0; simpl.
  - auto.
  - intros Hr. apply IH in Hr as [Hr|[Hin Hid]].
    + unfold upsert in Hr. apply lookup_insert_Some in Hr as [[Hid <-]|[_ Hr]].
      * right. auto.
      * now left.
    + right. auto.
Qed.

Lemma upsert_all_other (rs : list VectorRecord) (s0 : gmap string VectorRecord)
    (p : string) :
  (forall r, In r rs -> id r <> p) -> upsert_all rs s0 !! p = s0 !! p.
Proof.
  unfold upsert_all. revert s0. induction rs as [|r' rs IH]; intros s0 Hne; simpl.
  - reflexivity.
  - rewrite IH by (intros r Hr; apply Hne; now right).
    unfold upsert. apply lookup_insert_ne. apply Hne. now left.
Qed.

Lemma classic_or_dec (rs : list VectorRecord) (p : string) :
  (exists r, In r rs /\ id r = p) \/ (forall r, In r rs -> id r <> p).
Proof.
  induction rs as [|r' rs [[r [Hin Hid]]|Hnone]].
  - right. intros r [].
  - left. exists r. split; [now right | exact Hid].
  - destruct (decide (id r' = p)) as [Heq|Hne].
    + left. exists r'. split; [now left | exact Heq].
    + right. intros r [<-|Hin]; [exact Hne | now apply Hnone].
Qed.

Lemma upsert_all_same (rs : list VectorRecord) (s0 : gmap string VectorRecord)
    (p : string) (r0 : VectorRecord) :
  (forall r, In r rs -> id r = p -> r = r0) ->
  (exists r, In r rs /\ id r = p) ->
  upsert_all rs s0 !! p = Some r0.
Proof.
  unfold upsert_all. revert s0. induction rs as [|r' rs IH]; intros s0 Hsame Hex.
  - destruct Hex as [r [[] _]].
  - simpl. destruct (classic_or_dec rs p) as [Hlater|Hnone].
    + apply IH; [intros r Hr; apply Hsame; now right | exact Hlater].
    + fold (upsert_all rs (upsert r' s0)). rewrite upsert_all_other by exact Hnone.
      destruct Hex as [r [[<-|Hin] Hid]].
      * unfold upsert. rewrite <- Hid at 1. rewrite lookup_insert_eq.
        f_equal. apply Hsame; [now left | exact Hid].
      * exfalso. exact (Hnone r Hin Hid).
Qed.

Lemma probe_Changed (inc : bool) (M : gmap string VectorRecord) (e : DirEntry)
    (d : FileEntry) :
  probe inc M e = Changed d ->
  f_path d = e_path e
  /\ exists file text,
       e_file e = Some file /\ fi_text file = Some text /\ f_text d = text
       /\ f_name d = fi_name file /\ f_type d = fi_type file
       /\ f_size d = fi_size file /\ f_lastModified d = fi_lastModified file.
Proof.
  unfold probe. destruct (e_file e) as [file|]; [|discriminate].
  assert (Hread : match fi_text file with
                  | Some text =>
                      Changed {| f_path := e_path e; f_name := fi_name file;
                                 f_type := fi_type file; f_size := fi_size file;
                                 f_lastModified := fi_lastModified file;
                                 f_text := text |}
                  | None => Unreadable
                  end = Changed d ->
                  f_path d = e_path e
                  /\ exists file' text,
                       Some file = Some file' /\ fi_text file' = Some text
                       /\ f_text d = text
                       /\ f_name d = fi_name file' /\ f_type d = fi_type file'
                       /\ f_size d = fi_size file'
                       /\ f_lastModified d = fi_lastModified file').
  { destruct (fi_text file) as [text|] eqn:Et; [|discriminate].
    intros [= <-]. split; [reflexivity|]. exists file, text. auto 10. }
  destruct inc; [|exact Hread].
  destruct (M !! e_path e) as [existing|]; [|exact Hread].
  destruct (_ && _); [discriminate | exact Hread].
Qed.

Lemma probe_Unchanged (inc : bool) (M : gmap string VectorRecord) (e : DirEntry)
    (d : FileEntry) :
  probe inc M e = Unchanged d ->
  inc = true /\ f_path d = e_path e
  /\ exists file existing,
       e_file e = Some file /\ M !! e_path e = Some existing
       /\ size_bytes existing = fi_size file
       /\ lastModified existing = fi_lastModified file
       /\ f_text d = textPreview existing.
Proof.
  unfold probe. destruct (e_file e) as [file|]; [|discriminate].
  destruct inc; [|destruct (fi_text file); discriminate].
  destruct (M !! e_path e) as [existing|];
    [|destruct (fi_text file); discriminate].
  destruct (Z.eqb_spec (size_bytes existing) (fi_size file)) as [Hs|_];
    [|destruct (fi_text file); discriminate].
  destruct (Z.eqb_spec (lastModified existing) (fi_lastModified file)) as [Hm|_];
    [|destruct (fi_text file); discriminate].
  simpl. intros [= <-]. split; [reflexivity|]. split; [reflexivity|].
  exists file, existing. auto.
Qed.

Lemma In_docs_of (inc : bool) (M : gmap string VectorRecord)
    (entries : list DirEntry) (d : FileEntry) :
  In d (docs_of (map (probe inc M) entries))
  <-> exists e, In e entries /\ probe inc M e = Changed d.
Proof.
  unfold docs_of. rewrite <- list_elem_of_In, list_elem_of_omap. split.
  - intros [p [Hp Hd]]. apply list_elem_of_In, in_map_iff in Hp as [e [<- He]].
    exists e. split; [exact He|].
    destruct (probe inc M e); try discriminate. now injection Hd as ->.
  - intros [e [He Hp]]. exists (Changed d). split; [|reflexivity].
    apply list_elem_of_In, in_map_iff. now exists e.
Qed.

Lemma In_unchanged_of (inc : bool) (M : gmap string VectorRecord)
    (entries : list DirEntry) (d : FileEntry) :
  In d (unchanged_of (map (probe inc M) entries))
  <-> exists e, In e entries /\ probe inc M e = Unchanged d.
Proof.
  unfold unchanged_of. rewrite <- list_elem_of_In, list_elem_of_omap. split.
  - intros [p [Hp Hd]]. apply list_elem_of_In, in_map_iff in Hp as [e [<- He]].
    exists e. split; [exact He|].
    destruct (probe inc M e); try discriminate. now injection Hd as ->.
  - intros [e [He Hp]]. exists (Unchanged d). split; [|reflexivity].
    apply list_elem_of_In, in_map_iff. now exists e.
Qed.

Lemma stale_lookup (entries : list DirEntry) (store : gmap string VectorRecord)
    (k : string) (r : VectorRecord) :
  fold_left (fun s k => deleteById k s)
    (List.filter
       (fun k => negb (bool_decide
                         (k ∈ (list_to_set (map e_path entries) : gset string))))
       (map_to_list store).*1)
    store !! k = Some r
  <-> store !! k = Some r /\ In k (map e_path entries).
Proof.
  rewrite fold_deleteById_lookup.
  destruct (decide (k ∈ List.filter _ (map_to_list store).*1)) as [Hin|Hnin].
  - apply list_elem_of_In, List.filter_In in Hin as [_ Hout].
    apply negb_true_iff, bool_decide_eq_false in Hout.
    split; [discriminate|]. intros [_ Hk]. exfalso. apply Hout.
    apply elem_of_list_to_set, list_elem_of_In. exact Hk.
  - split; [|now intros [? _]]. intros Hr. split; [exact Hr|].
    destruct (decide (k ∈ (list_to_set (map e_path entries) : gset string)))
      as [Hcur|Hout].
    + now apply elem_of_list_to_set, list_elem_of_In in Hcur.
    + exfalso. apply Hnin, list_elem_of_In, List.filter_In. split.
      * apply list_elem_of_In, list_elem_of_fmap. exists (k, r).
        split; [reflexivity | now apply elem_of_map_to_list].
      * apply negb_true_iff, bool_decide_eq_false. exact Hout.
Qed.

Lemma probe_full_scan (M M' : gmap string VectorRecord) (e : DirEntry) :
  probe false M e = probe false M' e.
Proof. reflexivity. Qed.

Section PopupFacts.
Context `{Runtime}.
Context (Math_log : Q -> Q).

(** [buildIndex] on a store keyed by id: the map [existingMap] is the
    store itself. *)
Lemma buildIndex_keyed (inc : bool) (entries : list DirEntry)
    (store : gmap string VectorRecord) (V : Vocab) :
  store_keyed store ->
  buildIndex Math_log inc entries store V
  = let probes := map (probe inc store) entries in
    let docs := docs_of probes in
    let unchangedDocs := unchanged_of probes in
    let stale :=
      if inc
      then List.filter
             (fun k => negb (bool_decide
                               (k ∈ (list_to_set (map e_path entries) : gset string))))
             (map_to_list store).*1
      else [] in
    let store1 := fold_left (fun s k => deleteById k s) stale store in
    if inc && (length docs =? 0)%nat && (length stale =? 0)%nat
    then (store1, V)
    else
      let V' :=
        buildVocabulary Math_log
          (map (fun d => tokenize (f_text d)) (docs ++ unchangedDocs)) in
      let store2 := if inc then store1 else ∅ in
      let store3 := upsert_all (map (popup_record V') docs) store2 in
      (if inc && (0 <? length unchangedDocs)%nat
       then upsert_all (omap (revectorized V' store) unchangedDocs) store3
       else store3, V').
Proof.
  intros Hkeyed. unfold buildIndex. destruct inc.
  - now rewrite (existingMapOf_getAll store Hkeyed).
  - reflexivity.
Qed.

Lemma buildIndex_lookup (inc : bool) (entries : list DirEntry)
    (store : gmap string VectorRecord) (V : Vocab) (k : string)
    (r : VectorRecord) :
  store_keyed store ->
  fst (buildIndex Math_log inc entries store V) !! k = Some r ->
  (inc = true /\ store !! k = Some r /\ In k (map e_path entries))
  \/ (exists d,
        In d (docs_of (map (probe inc store) entries)) /\ f_path d = k
        /\ r = popup_record (snd (buildIndex Math_log inc entries store V)) d)
  \/ (exists d existing,
        In d (unchanged_of (map (probe inc store) entries)) /\ f_path d = k
        /\ store !! k = Some existing
        /\ r = set_vector existing
                 (vectorize (snd (buildIndex Math_log inc entries store V))
                    (tokenize (f_text d)))).
Proof.
  intros Hkeyed. rewrite (buildIndex_keyed inc entries store V Hkeyed).
  cbv zeta.
  set (docs := docs_of (map (probe inc store) entries)).
  set (unchangedDocs := unchanged_of (map (probe inc store) entries)).
  set (V' := buildVocabulary Math_log
               (map (fun d => tokenize (f_text d)) (docs ++ unchangedDocs))).
  assert (Hdocs : forall s,
             upsert_all (map (popup_record V') docs) s !! k = Some r ->
             s !! k = Some r
             \/ exists d, In d docs /\ f_path d = k /\ r = popup_record V' d).
  { intros s Hr. apply upsert_all_lookup in Hr as [Hr|[Hin Hid]]; [now left|].
    right. apply in_map_iff in Hin as [d [<- Hd]]. exists d. auto. }
  destruct inc; cbn [andb].
  - assert (Hkept : forall s, s = fold_left (fun s k => deleteById k s)
                                  (List.filter
                                     (fun k => negb (bool_decide
                                        (k ∈ (list_to_set (map e_path entries)
                                              : gset string))))
                                     (map_to_list store).*1) store ->
                        s !! k = Some r ->
                        store !! k = Some r /\ In k (map e_path entries)).
    { intros s -> Hr. now apply stale_lookup in Hr. }
    destruct ((length docs =? 0)%nat && _) eqn:Eearly; cbn [fst snd].
    + intros Hr. left. split; [reflexivity|]. now apply (Hkept _ eq_refl).
    + assert (Hstep : forall s,
                 s !! k = Some r ->
                 s = upsert_all (map (popup_record V') docs)
                       (fold_left (fun s k => deleteById k s)
                          (List.filter
                             (fun k => negb (bool_decide
                                (k ∈ (list_to_set (map e_path entries)
                                      : gset string))))
                             (map_to_list store).*1) store) ->
                 (store !! k = Some r /\ In k (map e_path entries))
                 \/ exists d, In d docs /\ f_path d = k /\ r = popup_record V' d).
      { intros s Hr ->. apply Hdocs in Hr as [Hr|Hr]; [left | now right].
        now apply (Hkept _ eq_refl). }
      destruct (0 <? length unchangedDocs)%nat.
      * intros Hr. apply upsert_all_lookup in Hr as [Hr|[Hin Hid]].
        -- apply (fun Hr => Hstep _ Hr eq_refl) in Hr as [[? ?]|?]; auto.
        -- right. right. apply list_elem_of_In, list_elem_of_omap in Hin
             as [d [Hd Hrev]].
           unfold revectorized in Hrev.
           destruct (store !! f_path d) as [existing|] eqn:Eex; [|discriminate].
           simpl in Hrev. injection Hrev as <-. simpl in Hid.
           rewrite (Hkeyed _ _ Eex) in Hid. subst k.
           exists d, existing. split; [now apply list_elem_of_In|]. auto.
      * intros Hr.
        apply (fun Hr => Hstep _ Hr eq_refl) in Hr as [[? ?]|?]; auto.
  - cbn [fst snd]. intros Hr. apply Hdocs in Hr as [Hr|Hr].
    + rewrite lookup_empty in Hr. discriminate.
    + right. now left.
Qed.
End PopupFacts.

Section PopupTheorems.
Context `{Runtime}.
Context (Math_log : Q -> Q).

Lemma docs_of_path (inc : bool) (store : gmap string VectorRecord)
    (entries : list DirEntry) (d : FileEntry) :
  In d (docs_of (map (probe inc store) entries)) ->
  exists e, In e entries /\ e_path e = f_path d /\ probe inc store e = Changed d.
Proof.
  intros Hd. apply In_docs_of in Hd as [e [He Hp]].
  exists e. split; [exact He|]. split; [|exact Hp].
  now apply probe_Changed in Hp as [-> _].
Qed.

Lemma unchanged_of_path (inc : bool) (store : gmap string VectorRecord)
    (entries : list DirEntry) (d : FileEntry) :
  In d (unchanged_of (map (probe inc store) entries)) ->
  exists e, In e entries /\ e_path e = f_path d
            /\ probe inc store e = Unchanged d.
Proof.
  intros Hd. apply In_unchanged_of in Hd as [e [He Hp]].
  exists e. split; [exact He|]. split; [|exact Hp].
  now apply probe_Unchanged in Hp as (_ & -> & _).
Qed.

(** X22: after [buildIndex], full or incremental, every stored record is
    kept under its own id and that id is the path of one of the files
    just collected: records of files that have gone are removed. *)
Theorem buildIndex_store_is_current (inc : bool) (entries : list DirEntry)
    (store : gmap string VectorRecord) (V : Vocab) :
  store_keyed store ->
  store_keyed (fst (buildIndex Math_log inc entries store V))
  /\ forall k, is_Some (fst (buildIndex Math_log inc entries store V) !! k) ->
               In k (map e_path entries).
Proof.
  intros Hkeyed.
  assert (Hall : forall k r,
             fst (buildIndex Math_log inc entries store V) !! k = Some r ->
             id r = k /\ In k (map e_path entries)).
  { intros k r Hr.
    apply (buildIndex_lookup Math_log inc entries store V k r Hkeyed) in Hr
      as [(_ & Hr & Hk)|[(d & Hd & Hp & ->)|(d & ex & Hd & Hp & Hex & ->)]].
    - split; [now apply Hkeyed | exact Hk].
    - split; [exact Hp|]. apply docs_of_path in Hd as (e & He & Hpe & _).
      rewrite <- Hp, <- Hpe. now apply in_map.
    - split; [exact (Hkeyed _ _ Hex)|].
      apply unchanged_of_path in Hd as (e & He & Hpe & _).
      rewrite <- Hp, <- Hpe. now apply in_map. }
  split.
  - intros k r Hr. now apply Hall in Hr.
  - intros k [r Hr]. now apply Hall in Hr.
Qed.

Lemma buildIndex_early_or_rebuilt (inc : bool) (entries : list DirEntry)
    (store : gmap string VectorRecord) (V : Vocab) :
  store_keyed store ->
  (inc = true
   /\ docs_of (map (probe inc store) entries) = []
   /\ (forall k, is_Some (store !! k) -> In k (map e_path entries))
   /\ buildIndex Math_log inc entries store V = (store, V))
  \/ (snd (buildIndex Math_log inc entries store V)
      = buildVocabulary Math_log
          (map (fun d => tokenize (f_text d))
             (docs_of (map (probe inc store) entries)
              ++ unchanged_of (map (probe inc store) entries)))
      /\ (inc = false
          \/ docs_of (map (probe inc store) entries) <> []
          \/ exists k, is_Some (store !! k) /\ ~ In k (map e_path entries))).
Proof.
  intros Hkeyed.
  rewrite (buildIndex_keyed Math_log inc entries store V Hkeyed). cbv zeta.
  destruct inc; cbn [andb]; [|right; split; [reflexivity | now left]].
  destruct (docs_of (map (probe true store) entries)) as [|d0 docs] eqn:Edocs;
    cbn [length Nat.eqb andb];
    [|right; split; [reflexivity | right; left; discriminate]].
  destruct (List.filter _ (map_to_list store).*1) as [|k0 stale] eqn:Estale;
    cbn [length Nat.eqb fold_left].
  - left. split; [reflexivity|]. split; [reflexivity|]. split; [|reflexivity].
    intros k [r Hr].
    assert (Hlook := proj1 (stale_lookup entries store k r)).
    rewrite Estale in Hlook. now apply Hlook.
  - right. split; [reflexivity|]. right. right.
    assert (Hin : In k0 (List.filter
                           (fun k => negb (bool_decide
                              (k ∈ (list_to_set (map e_path entries)
                                    : gset string))))
                           (map_to_list store).*1))
      by (rewrite Estale; now left).
    apply List.filter_In in Hin as [Hkey Hout].
    apply negb_true_iff, bool_decide_eq_false in Hout.
    exists k0. split.
    + apply list_elem_of_In, list_elem_of_fmap in Hkey as [[k' r] [-> Hkr]].
      apply elem_of_map_to_list in Hkr. now exists r.
    + intros Hk. apply Hout, elem_of_list_to_set, list_elem_of_In. exact Hk.
Qed.

(** X23: after [buildIndex], a stored record either is an old record of an
    incremental run kept exactly as it was, or its vector was computed
    under the vocabulary now in force: it has one finite component per
    term of that vocabulary. *)
Theorem buildIndex_vectors (inc : bool) (entries : list DirEntry)
    (store : gmap string VectorRecord) (V : Vocab) :
  store_keyed store ->
  map_Forall
    (fun k r =>
       (inc = true /\ store !! k = Some r)
       \/ (length (vector r)
           = size (vocabulary (snd (buildIndex Math_log inc entries store V)))
           /\ List.Forall finite (vector r)
           /\ snd (buildIndex Math_log inc entries store V)
              = buildVocabulary Math_log
                  (map (fun d => tokenize (f_text d))
                     (docs_of (map (probe inc store) entries)
                      ++ unchanged_of (map (probe inc store) entries)))))
    (fst (buildIndex Math_log inc entries store V)).
Proof.
  intros Hkeyed k r Hr.
  destruct (buildIndex_early_or_rebuilt inc entries store V Hkeyed)
    as [(Hinc & _ & _ & Hsame)|[Hsnd _]].
  { left. split; [exact Hinc|]. now rewrite Hsame in Hr. }
  apply (buildIndex_lookup Math_log inc entries store V k r Hkeyed) in Hr
    as [(Hinc & Hold & _)|[(d & _ & _ & ->)|(d & ex & _ & _ & _ & ->)]].
  - left. auto.
  - right. cbn [vector popup_record]. rewrite Hsnd.
    split; [|split; [|reflexivity]].
    + apply vectorize_length, buildVocabulary_in_range.
    + apply vectorize_finite;
        [apply buildVocabulary_in_range | apply buildVocabulary_finite].
  - right. cbn [vector set_vector]. rewrite Hsnd.
    split; [|split; [|reflexivity]].
    + apply vectorize_length, buildVocabulary_in_range.
    + apply vectorize_finite;
        [apply buildVocabulary_in_range | apply buildVocabulary_finite].
Qed.

Lemma probe_same_file (store : gmap string VectorRecord) (e : DirEntry)
    (file : FileInfo) (r : VectorRecord) :
  e_file e = Some file -> store !! e_path e = Some r ->
  size_bytes r = fi_size file -> lastModified r = fi_lastModified file ->
  probe true store e
  = Unchanged {| f_path := e_path e; f_name := fi_name file;
                 f_type := fi_type file; f_size := fi_size file;
                 f_lastModified := fi_lastModified file;
                 f_text := textPreview r |}.
Proof.
  intros Hfile Hr Hs Hm. unfold probe. rewrite Hfile, Hr, Hs, Hm.
  now rewrite !Z.eqb_refl.
Qed.

Lemma revectorized_id (V' : Vocab) (store : gmap string VectorRecord)
    (d : FileEntry) (r : VectorRecord) :
  store_keyed store -> revectorized V' store d = Some r -> id r = f_path d.
Proof.
  intros Hkeyed Hrev. unfold revectorized in Hrev.
  destruct (store !! f_path d) as [existing|] eqn:Eex; [|discriminate].
  simpl in Hrev. injection Hrev as <-. exact (Hkeyed _ _ Eex).
Qed.

(** X24: an incremental [buildIndex] that finds every collected file
    either unchanged in size and modification time or unreadable, and no
    stored record without a file, leaves the store and the vocabulary as
    they were. *)
Theorem buildIndex_no_changes (entries : list DirEntry)
    (store : gmap string VectorRecord) (V : Vocab) :
  store_keyed store ->
  (forall e file,
     In e entries -> e_file e = Some file ->
     fi_text file = None
     \/ exists r, store !! e_path e = Some r
                  /\ size_bytes r = fi_size file
                  /\ lastModified r = fi_lastModified file) ->
  (forall k, is_Some (store !! k) -> In k (map e_path entries)) ->
  buildIndex Math_log true entries store V = (store, V).
Proof.
  intros Hkeyed Hsame Hcur.
  destruct (buildIndex_early_or_rebuilt true entries store V Hkeyed)
    as [(_ & _ & _ & Hearly)|[_ [Hinc|[Hdocs|(k & Hk & Hgone)]]]].
  - exact Hearly.
  - discriminate.
  - exfalso. destruct (docs_of (map (probe true store) entries)) as [|d docs] eqn:E;
      [now apply Hdocs|].
    assert (Hd : In d (docs_of (map (probe true store) entries)))
      by (rewrite E; now left).
    apply docs_of_path in Hd as (e & He & _ & Hprobe).
    pose proof (probe_Changed _ _ _ _ Hprobe) as (_ & file & text & Hf & Ht & _).
    destruct (Hsame e file He Hf) as [Hnone|(r & Hr & Hs & Hm)]; [congruence|].
    rewrite (probe_same_file store e file r Hf Hr Hs Hm) in Hprobe. discriminate.
  - exfalso. apply Hgone, Hcur, Hk.
Qed.

(** X25: when an incremental [buildIndex] cannot read a file, because
    [getFile] throws or because the file differs from its record and
    [extractText] throws, the record of that file stays in the store as
    it was, vector included, whatever happens to the vocabulary. *)
Theorem buildIndex_unreadable_kept (entries : list DirEntry)
    (store : gmap string VectorRecord) (V : Vocab) (k : string)
    (r : VectorRecord) :
  store_keyed store ->
  store !! k = Some r ->
  In k (map e_path entries) ->
  (forall e, In e entries -> e_path e = k ->
             e_file e = None
             \/ exists file,
                  e_file e = Some file /\ fi_text file = None
                  /\ (size_bytes r <> fi_size file
                      \/ lastModified r <> fi_lastModified file)) ->
  fst (buildIndex Math_log true entries store V) !! k = Some r.
Proof.
  intros Hkeyed Hr Hk Hbad.
  assert (Hprobe : forall e, In e entries -> e_path e = k ->
                             probe true store e = Unreadable).
  { intros e He Hpath. unfold probe.
    destruct (Hbad e He Hpath) as [->|(file & -> & Ht & Hdiff)]; [reflexivity|].
    rewrite Hpath, Hr, Ht.
    destruct (Z.eqb_spec (size_bytes r) (fi_size file)) as [Hs|_];
      [|reflexivity].
    destruct (Z.eqb_spec (lastModified r) (fi_lastModified file)) as [Hm|_];
      [|reflexivity].
    destruct Hdiff; contradiction. }
  assert (Hkept : fold_left (fun s k => deleteById k s)
                    (List.filter
                       (fun k => negb (bool_decide
                          (k ∈ (list_to_set (map e_path entries) : gset string))))
                       (map_to_list store).*1) store !! k = Some r)
    by now apply stale_lookup.
  rewrite (buildIndex_keyed Math_log true entries store V Hkeyed). cbv zeta.
  cbn [andb]. destruct (_ && _); cbn [fst]; [exact Hkept|].
  assert (Hdocs : forall V' s,
             upsert_all (map (popup_record V')
                           (docs_of (map (probe true store) entries))) s !! k
             = s !! k).
  { intros V' s. apply upsert_all_other. intros r' Hr' Hid.
    apply in_map_iff in Hr' as [d [<- Hd]]. simpl in Hid.
    apply docs_of_path in Hd as (e & He & Hpath & Hp).
    rewrite (Hprobe e He) in Hp by congruence. discriminate. }
  assert (Hunch : forall V' s,
             upsert_all (omap (revectorized V' store)
                           (unchanged_of (map (probe true store) entries))) s !! k
             = s !! k).
  { intros V' s. apply upsert_all_other. intros r' Hr' Hid.
    apply list_elem_of_In, list_elem_of_omap in Hr' as [d [Hd Hrev]].
    apply (revectorized_id _ _ _ _ Hkeyed) in Hrev.
    apply list_elem_of_In, unchanged_of_path in Hd as (e & He & Hpath & Hp).
    rewrite (Hprobe e He) in Hp by congruence. discriminate. }
  destruct (0 <? _)%nat; [rewrite Hunch|]; now rewrite Hdocs.
Qed.

(** X26: when an incremental [buildIndex] rebuilds the vocabulary, a file
    found unchanged in size and modification time keeps its record but
    for the vector, which is recomputed from the stored text preview, the
    first 500 characters kept at indexing time, not from the file. *)
Theorem buildIndex_unchanged_uses_preview (entries : list DirEntry)
    (store : gmap string VectorRecord) (V : Vocab) (e : DirEntry)
    (file : FileInfo) (r : VectorRecord) :
  store_keyed store ->
  In e entries -> e_file e = Some file ->
  store !! e_path e = Some r ->
  size_bytes r = fi_size file -> lastModified r = fi_lastModified file ->
  (exists e' d', In e' entries /\ probe true store e' = Changed d')
  \/ (exists k, is_Some (store !! k) /\ ~ In k (map e_path entries)) ->
  fst (buildIndex Math_log true entries store V) !! e_path e
  = Some (set_vector r
            (vectorize (snd (buildIndex Math_log true entries store V))
               (tokenize (textPreview r)))).
Proof.
  intros Hkeyed He Hfile Hr Hs Hm Hchange.
  pose proof (probe_same_file store e file r Hfile Hr Hs Hm) as Hprobe.
  set (d := {| f_path := e_path e; f_name := fi_name file;
               f_type := fi_type file; f_size := fi_size file;
               f_lastModified := fi_lastModified file;
               f_text := textPreview r |}) in *.
  assert (Hd : In d (unchanged_of (map (probe true store) entries))).
  { apply In_unchanged_of. now exists e. }
  rewrite (buildIndex_keyed Math_log true entries store V Hkeyed). cbv zeta.
  cbn [andb].
  assert (Hlate : (length (docs_of (map (probe true store) entries)) =? 0)%nat
                  && (length
                        (List.filter
                           (fun k => negb (bool_decide
                              (k ∈ (list_to_set (map e_path entries)
                                    : gset string))))
                           (map_to_list store).*1) =? 0)%nat = false).
  { destruct Hchange as [(e' & d' & He' & Hp')|(k & [r' Hk] & Hgone)].
    - assert (Hin : In d' (docs_of (map (probe true store) entries)))
        by (apply In_docs_of; now exists e').
      destruct (docs_of _); [contradiction | reflexivity].
    - assert (Hin : In k (List.filter
                            (fun k => negb (bool_decide
                               (k ∈ (list_to_set (map e_path entries)
                                     : gset string))))
                            (map_to_list store).*1)).
      { apply List.filter_In. split.
        - apply list_elem_of_In, list_elem_of_fmap. exists (k, r').
          split; [reflexivity | now apply elem_of_map_to_list].
        - apply negb_true_iff, bool_decide_eq_false. intros Hcur.
          apply Hgone. now apply elem_of_list_to_set, list_elem_of_In in Hcur. }
      destruct (List.filter _ _); [contradiction|].
      now rewrite andb_false_r. }
  rewrite Hlate. cbn [fst snd].
  assert (Hpos : (0 <? length (unchanged_of (map (probe true store) entries)))%nat
                 = true).
  { destruct (unchanged_of _); [contradiction | reflexivity]. }
  rewrite Hpos. apply upsert_all_same.
  - intros r' Hr' Hid.
    apply list_elem_of_In, list_elem_of_omap in Hr' as [d' [Hd' Hrev]].
    pose proof (revectorized_id _ _ _ _ Hkeyed Hrev) as Hid'.
    apply list_elem_of_In, unchanged_of_path in Hd' as (e' & _ & Hpath & Hp').
    apply probe_Unchanged in Hp' as (_ & _ & file' & ex & _ & Hex & _ & _ & Htext).
    unfold revectorized in Hrev.
    assert (Hsame : store !! f_path d' = Some r) by congruence.
    rewrite Hsame in Hrev. simpl in Hrev. injection Hrev as <-.
    rewrite Htext. f_equal. f_equal. f_equal.
    rewrite Hpath in Hex. congruence.
  - exists (set_vector r
              (vectorize
                 (buildVocabulary Math_log
                    (map (fun d => tokenize (f_text d))
                       (docs_of (map (probe true store) entries)
                        ++ unchanged_of (map (probe true store) entries))))
                 (tokenize (textPreview r)))).
    split; [|exact (Hkeyed _ _ Hr)].
    apply list_elem_of_In, list_elem_of_omap. exists d.
    split; [now apply list_elem_of_In|].
    unfold revectorized. subst d. cbn [f_path f_text]. rewrite Hr. reflexivity.
Qed.
End PopupTheorems.

Lemma popup_store_keyed : store_keyed popup_store.
Proof.
  intros k r Hr. unfold popup_store in Hr.
  apply lookup_insert_Some in Hr as [[<- <-]|[_ Hr]]; [reflexivity|].
  apply lookup_insert_Some in Hr as [[<- <-]|[_ Hr]]; [reflexivity|].
  rewrite lookup_empty in Hr. discriminate.
Qed.

(** A rescan of a folder with one unchanged, one unreadable and one new
    file. *)
Lemma buildIndex_store_is_current_witness :
  store_keyed popup_store
  /\ store_keyed
       (fst (@buildIndex sample_runtime sample_log true popup_entries
               popup_store sample_vocab)).
Proof.
  split; [exact popup_store_keyed|].
  exact (proj1 (@buildIndex_store_is_current sample_runtime sample_log true
                  popup_entries popup_store sample_vocab popup_store_keyed)).
Defined.

Lemma buildIndex_vectors_witness :
  store_keyed popup_store
  /\ map_Forall
       (fun k r =>
          (true = true /\ popup_store !! k = Some r)
          \/ (length (vector r)
              = size (vocabulary
                        (snd (@buildIndex sample_runtime sample_log true
                                popup_entries popup_store sample_vocab)))
              /\ List.Forall finite (vector r)
              /\ snd (@buildIndex sample_runtime sample_log true popup_entries
                        popup_store sample_vocab)
                 = buildVocabulary sample_log
                     (map (fun d => tokenize (f_text d))
                        (docs_of (map (probe true popup_store) popup_entries)
                         ++ unchanged_of
                              (map (probe true popup_store) popup_entries)))))
       (fst (@buildIndex sample_runtime sample_log true popup_entries
               popup_store sample_vocab)).
Proof.
  split; [exact popup_store_keyed|].
  exact (@buildIndex_vectors sample_runtime sample_log true popup_entries
           popup_store sample_vocab popup_store_keyed).
Defined.

(** A rescan of the same folder when the third file is absent. *)
Lemma buildIndex_no_changes_witness :
  store_keyed popup_store
  /\ @buildIndex sample_runtime sample_log true quiet_entries popup_store
       sample_vocab
     = (popup_store, sample_vocab).
Proof.
  split; [exact popup_store_keyed|].
  apply (@buildIndex_no_changes sample_runtime sample_log quiet_entries
           popup_store sample_vocab popup_store_keyed).
  - intros e file [<-|[<-|[]]]; simpl; intros [= <-].
    right. exists (popup_rec "a.txt" 10 100 "alpha").
    split; [vm_compute; reflexivity | split; reflexivity].
  - intros k [r Hr]. unfold popup_store in Hr.
    apply lookup_insert_Some in Hr as [[<- _]|[_ Hr]]; [simpl; auto|].
    apply lookup_insert_Some in Hr as [[<- _]|[_ Hr]]; [simpl; auto|].
    rewrite lookup_empty in Hr. discriminate.
Defined.

Lemma buildIndex_unreadable_kept_witness :
  store_keyed popup_store
  /\ popup_store !! "b.txt"%string = Some (popup_rec "b.txt" 20 200 "beta")
  /\ fst (@buildIndex sample_runtime sample_log true popup_entries popup_store
            sample_vocab) !! "b.txt"%string
     = Some (popup_rec "b.txt" 20 200 "beta").
Proof.
  assert (Hr : popup_store !! "b.txt"%string
               = Some (popup_rec "b.txt" 20 200 "beta"))
    by (vm_compute; reflexivity).
  split; [exact popup_store_keyed|]. split; [exact Hr|].
  apply (@buildIndex_unreadable_kept sample_runtime sample_log popup_entries
           popup_store sample_vocab "b.txt" _ popup_store_keyed Hr).
  - simpl. auto.
  - intros e [<-|[<-|[<-|[]]]] Hpath; simpl in Hpath; try discriminate.
    left. reflexivity.
Defined.

Lemma buildIndex_unchanged_uses_preview_witness :
  store_keyed popup_store
  /\ popup_store !! "a.txt"%string = Some (popup_rec "a.txt" 10 100 "alpha")
  /\ fst (@buildIndex sample_runtime sample_log true popup_entries popup_store
            sample_vocab) !! "a.txt"%string
     = Some (set_vector (popup_rec "a.txt" 10 100 "alpha")
               (@vectorize sample_runtime
                  (snd (@buildIndex sample_runtime sample_log true popup_entries
                          popup_store sample_vocab))
                  (tokenize "alpha"))).
Proof.
  assert (Hr : popup_store !! "a.txt"%string
               = Some (popup_rec "a.txt" 10 100 "alpha"))
    by (vm_compute; reflexivity).
  split; [exact popup_store_keyed|]. split; [exact Hr|].
  apply (@buildIndex_unchanged_uses_preview sample_runtime sample_log
           popup_entries popup_store sample_vocab
           (popup_entry "a.txt" (Some (popup_file "a.txt" 10 100 (Some "alpha"%string))))
           (popup_file "a.txt" 10 100 (Some "alpha"%string))
           (popup_rec "a.txt" 10 100 "alpha") popup_store_keyed).
  - simpl. auto.
  - reflexivity.
  - exact Hr.
  - reflexivity.
  - reflexivity.
  - left.
    exists (popup_entry "c.txt"
              (Some (popup_file "c.txt" 30 300 (Some "gamma delta"%string)))).
    eexists. split; [simpl; auto | vm_compute; reflexivity].
Defined.

(** ** Tokenizer *)

Example tokens_of_normalized_sample :
  tokens_of_normalized [20013; 25991; 32; 97; 98; 49]%N
  = [[97; 98; 49]; [20013]; [25991]; [20013; 25991]]%N.
Proof. reflexivity. Qed.

Lemma word_matches_spec (s : list N) :
  List.Forall (fun w => w <> [] /\ forallb is_word_unit w = true)
    (word_matches s).
Proof.
  induction s as [|c r IH]; [constructor|].
  cbn [word_matches]. destruct (is_word_unit c) eqn:Ec; [|exact IH].
  assert (Hone : [c] <> [] /\ forallb is_word_unit [c] = true).
  { split; [discriminate | simpl; now rewrite Ec]. }
  destruct r as [|c' r']; [now repeat constructor|].
  destruct (is_word_unit c'); [|now constructor].
  destruct (word_matches (c' :: r')) as [|w ws]; [now repeat constructor|].
  apply List.Forall_cons_iff in IH as [[_ Hw] Hws].
  constructor; [|exact Hws].
  split; [discriminate | simpl; now rewrite Ec, Hw].
Qed.

Lemma cjk_matches_spec (s : list N) :
  List.Forall (fun w => exists c, w = [c] /\ is_cjk_unit c = true)
    (cjk_matches s).
Proof.
  induction s as [|c r IH]; [constructor|].
  cbn [cjk_matches]. destruct (is_cjk_unit c) eqn:Ec; [|exact IH].
  constructor; [now exists c | exact IH].
Qed.

Lemma unit_bigrams_spec (cjk : list (list N)) :
  List.Forall (fun w => exists c, w = [c] /\ is_cjk_unit c = true) cjk ->
  List.Forall
    (fun w => exists c d, w = [c; d] /\ is_cjk_unit c = true
                          /\ is_cjk_unit d = true)
    (unit_bigrams cjk).
Proof.
  induction cjk as [|a rest IH]; intros Hall; [constructor|].
  apply List.Forall_cons_iff in Hall as [[ca [-> Ha]] Hrest].
  destruct rest as [|b rest']; [constructor|].
  pose proof Hrest as Hrest'.
  apply List.Forall_cons_iff in Hrest' as [[cb [-> Hb]] _].
  cbn [unit_bigrams]. constructor; [|now apply IH].
  exists ca, cb. auto.
Qed.

Lemma unit_bigrams_length (cjk : list (list N)) :
  length (unit_bigrams cjk) = (length cjk - 1)%nat.
Proof.
  induction cjk as [|a rest IH]; [reflexivity|].
  destruct rest as [|b rest']; [reflexivity|].
  cbn [unit_bigrams length] in *. rewrite IH. lia.
Qed.

Lemma word_matches_units (s : string) :
  word_matches (units_of s) = map units_of (word_runs s).
Proof.
  induction s as [|c r IH]; [reflexivity|].
  change (units_of (String c r)) with (JsString.code c :: units_of r).
  cbn [word_matches word_runs].
  change (is_word_unit (JsString.code c)) with (is_word_char c).
  destruct (is_word_char c); [|exact IH].
  destruct r as [|c' r']; [reflexivity|].
  change (units_of (String c' r')) with (JsString.code c' :: units_of r') in *.
  cbv iota.
  change (is_word_unit (JsString.code c')) with (is_word_char c').
  destruct (is_word_char c').
  - rewrite IH. now destruct (word_runs (String c' r')).
  - now rewrite IH.
Qed.

Lemma cjk_matches_units (s : string) :
  cjk_matches (units_of s) = map units_of (cjk_chars s).
Proof.
  induction s as [|c r IH]; [reflexivity|].
  change (units_of (String c r)) with (JsString.code c :: units_of r).
  cbn [cjk_matches cjk_chars].
  change (is_cjk_unit (JsString.code c)) with (is_cjk c).
  destruct (is_cjk c); [|exact IH]. simpl. now rewrite IH.
Qed.

Lemma units_of_append (a b : string) :
  units_of (String.append a b) = units_of a ++ units_of b.
Proof.
  induction a as [|c a IH]; [reflexivity|].
  change (units_of (String c a ++ b)) with (JsString.code c :: units_of (a ++ b)).
  now rewrite IH.
Qed.

Lemma unit_bigrams_units (cjk : list string) :
  unit_bigrams (map units_of cjk) = map units_of (bigrams cjk).
Proof.
  induction cjk as [|a rest IH]; [reflexivity|].
  destruct rest as [|b rest']; [reflexivity|].
  cbn [map unit_bigrams bigrams] in *. now rewrite IH, units_of_append.
Qed.

Lemma lower_char_idempotent (c : ascii) :
  JsString.lower_char (JsString.lower_char c) = JsString.lower_char c.
Proof. destruct c as [[] [] [] [] [] [] [] []]; reflexivity. Qed.

Lemma toLowerCase_idempotent (s : string) :
  JsString.toLowerCase (JsString.toLowerCase s) = JsString.toLowerCase s.
Proof.
  unfold JsString.toLowerCase. induction s as [|c r IH]; simpl; [reflexivity|].
  now rewrite lower_char_idempotent, IH.
Qed.

(** X27: on every normalized text, over UTF-16 code units, each token
    of [tokenize] is a non-empty run of the characters a-z and 0-9, one
    CJK character or two CJK characters, so no token is empty; the
    tokens are the word matches, then the CJK characters, then one pair
    less than there are CJK characters.  On a text of 8-bit code units
    these are the tokens of [tokenize] as embedded for the ranking, among
    which no CJK token occurs, and they do not depend on the case of the
    text. *)
Theorem tokenize_tokens (normalized : list N) (text : string) :
  List.Forall token_shape (tokens_of_normalized normalized)
  /\ length (tokens_of_normalized normalized)
     = (length (word_matches normalized) + length (cjk_matches normalized)
        + (length (cjk_matches normalized) - 1))%nat
  /\ map units_of (tokenize text)
     = tokens_of_normalized
         (units_of (JsString.trim (JsString.toLowerCase text)))
  /\ tokenize (JsString.toLowerCase text) = tokenize text.
Proof.
  split; [|split; [|split]].
  - unfold tokens_of_normalized. cbv zeta.
    apply List.Forall_app. split; [|apply List.Forall_app; split].
    + eapply List.Forall_impl; [|apply word_matches_spec].
      intros w Hw. now left.
    + eapply List.Forall_impl; [|apply cjk_matches_spec].
      intros w Hw. right. now left.
    + eapply List.Forall_impl; [|apply unit_bigrams_spec, cjk_matches_spec].
      intros w Hw. right. now right.
  - unfold tokens_of_normalized. cbv zeta.
    rewrite !length_app, unit_bigrams_length. lia.
  - unfold tokenize, tokens_of_normalized. cbv zeta.
    rewrite !map_app, word_matches_units, cjk_matches_units.
    now rewrite unit_bigrams_units.
  - unfold tokenize. now rewrite toLowerCase_idempotent.
Qed.
